(** * Game service of the transcendence backend: model and verification

    Shallow embedding of [src/services/game.ts] (class [GameService]), of the
    game tables of [src/services/database.ts] (class [DatabaseService]) and of
    the error mapping of the game routes.

    Conventions of the embedding
    - a JavaScript [number] that holds a coordinate, a velocity or a paddle
      position is an exact rational ([Q]); NaN and the infinities are outside
      the model.  Scores, player counts and timestamps are integers ([Z]).
    - [Math.random()] and [Date.now()] are arguments of the operation that
      calls them.
    - every [async] method is a computation in the monad [Async]: it runs on
      the whole service state ([World]), returns a value or throws, and what
      it mutated before a throw stays mutated.  Each method runs to completion
      before the next one starts.
    - an object reference into [gameState.players] (the result of
      [players.find]) is the index of that object in the list.
    - a promise returned by the database layer may reject: the schedule
      [dbFaults] of the world says which of the coming calls do. *)

From Stdlib Require Import QArith Qminmax Qabs Lqa ZArith Lia Sorted.
From stdpp Require Import base option list gmap strings.

Set Default Proof Using "Type".

(** ** JavaScript numbers *)

Module Js.
Local Open Scope Q_scope.

Definition Qltb (a b : Q) : bool := negb (Qle_bool b a).
Definition Qgeb (a b : Q) : bool := Qle_bool b a.
Definition Qgtb (a b : Q) : bool := negb (Qle_bool a b).

(** [Math.max], [Math.min], [Math.abs], [Math.sign]. *)
Definition max (a b : Q) : Q := if Qle_bool a b then b else a.
Definition min (a b : Q) : Q := if Qle_bool a b then a else b.
Definition abs (a : Q) : Q := if Qle_bool 0 a then a else - a.
Definition sign (a : Q) : Q :=
  if Qltb 0 a then 1 else if Qltb a 0 then -1 else 0.

End Js.

(** ** Data model (interfaces [GamePlayer], [Ball], [GameState], [AIOpponent]) *)

Inductive Side := left | right.
Inductive Status := waiting | active | paused | finished.
Inductive Difficulty := easy | medium | hard | expert.

#[global] Instance Side_eq_dec : EqDecision Side.
Proof. solve_decision. Defined.
#[global] Instance Status_eq_dec : EqDecision Status.
Proof. solve_decision. Defined.
#[global] Instance Difficulty_eq_dec : EqDecision Difficulty.
Proof. solve_decision. Defined.

Module GamePlayer.
Record t := mk {
  userId : string;
  username : string;
  paddleY : Q;
  score : Z;
  isAi : bool;
  side : Side
}.
Definition set_paddleY (v : Q) (p : t) : t :=
  mk (userId p) (username p) v (score p) (isAi p) (side p).
Definition set_score (v : Z) (p : t) : t :=
  mk (userId p) (username p) (paddleY p) v (isAi p) (side p).
End GamePlayer.

Module Ball.
Record t := mk {
  x : Q;          (* 0 = left edge, 1 = right edge *)
  y : Q;          (* 0 = top, 1 = bottom *)
  velocityX : Q;  (* negative = moving left *)
  velocityY : Q;  (* negative = moving up *)
  speed : Q       (* multiplier for velocity *)
}.
End Ball.

Module GameState.
Record t := mk {
  gameId : string;
  players : list GamePlayer.t;
  ball : Ball.t;
  status : Status;
  isPrivate : bool;
  maxPlayers : Z;
  roomCode : option string;
  isAiGame : bool;
  difficulty : option Difficulty;
  lastUpdate : Z;
  winningScore : Z;
  gameStartTime : option Z
}.
Definition set_players (v : list GamePlayer.t) (g : t) : t :=
  mk (gameId g) v (ball g) (status g) (isPrivate g) (maxPlayers g)
     (roomCode g) (isAiGame g) (difficulty g) (lastUpdate g)
     (winningScore g) (gameStartTime g).
Definition set_ball (v : Ball.t) (g : t) : t :=
  mk (gameId g) (players g) v (status g) (isPrivate g) (maxPlayers g)
     (roomCode g) (isAiGame g) (difficulty g) (lastUpdate g)
     (winningScore g) (gameStartTime g).
Definition set_status (v : Status) (g : t) : t :=
  mk (gameId g) (players g) (ball g) v (isPrivate g) (maxPlayers g)
     (roomCode g) (isAiGame g) (difficulty g) (lastUpdate g)
     (winningScore g) (gameStartTime g).
Definition set_lastUpdate (v : Z) (g : t) : t :=
  mk (gameId g) (players g) (ball g) (status g) (isPrivate g) (maxPlayers g)
     (roomCode g) (isAiGame g) (difficulty g) v
     (winningScore g) (gameStartTime g).
Definition set_gameStartTime (v : option Z) (g : t) : t :=
  mk (gameId g) (players g) (ball g) (status g) (isPrivate g) (maxPlayers g)
     (roomCode g) (isAiGame g) (difficulty g) (lastUpdate g)
     (winningScore g) v.
End GameState.

Module AIOpponent.
Record t := mk {
  difficulty : Difficulty;
  speed : Q;
  accuracy : Q;
  reactionTime : Z
}.
End AIOpponent.

(** ** Roster helpers: [players.find(...)] and mutation through the reference *)

Definition findIndex (P : GamePlayer.t → bool) (players : list GamePlayer.t)
  : option nat :=
  fst <$> list_find (λ p, P p = true) players.

Definition bySide (s : Side) (p : GamePlayer.t) : bool :=
  bool_decide (GamePlayer.side p = s).
Definition byUserId (u : string) (p : GamePlayer.t) : bool :=
  bool_decide (GamePlayer.userId p = u).

(** [ref.score] for an optional reference [ref] into [players]. *)
Definition scoreAt (players : list GamePlayer.t) (ref : option nat) : option Z :=
  i ← ref; GamePlayer.score <$> players !! i.
Definition paddleAt (players : list GamePlayer.t) (ref : option nat) : option Q :=
  i ← ref; GamePlayer.paddleY <$> players !! i.

Definition incScore (p : GamePlayer.t) : GamePlayer.t :=
  GamePlayer.set_score (GamePlayer.score p + 1) p.

(** ** Physics: [initializeBall], [resetBall], [updateBallPhysics] *)

Module Physics.
Local Open Scope Q_scope.
Import Js.

(** [initializeBall]; [r1] and [r2] are its two [Math.random()] draws. *)
Definition initializeBall (r1 r2 : Q) : Ball.t :=
  Ball.mk (1#2) (1#2)
          (if Qgtb r1 (1#2) then 6#10 else -(6#10))
          ((r2 - (1#2)) * (4#10))
          1.

(** [resetBall(gameState, servingPlayer)]; [r] is its [Math.random()] draw. *)
Definition resetBall (r : Q) (servingPlayer : Side) (gs : GameState.t)
  : GameState.t :=
  GameState.set_ball
    (Ball.mk (1#2) (1#2)
             (match servingPlayer with left => 6#10 | right => -(6#10) end)
             ((r - (1#2)) * (4#10))
             1)
    gs.

Definition deltaTime : Q := 1 # 60.

(** "Update ball position" *)
Definition integrate (b : Ball.t) : Ball.t :=
  Ball.mk (Ball.x b + Ball.velocityX b * Ball.speed b * deltaTime)
          (Ball.y b + Ball.velocityY b * Ball.speed b * deltaTime)
          (Ball.velocityX b) (Ball.velocityY b) (Ball.speed b).

(** "Bounce off top and bottom walls" *)
Definition hitsWall (b : Ball.t) : bool :=
  Qle_bool (Ball.y b) 0 || Qgeb (Ball.y b) 1.

Definition bounceWalls (b : Ball.t) : Ball.t :=
  if hitsWall b
  then Ball.mk (Ball.x b) (max 0 (min 1 (Ball.y b)))
               (Ball.velocityX b) (- Ball.velocityY b) (Ball.speed b)
  else b.

(** The body shared by the two paddle branches, once the paddle is known to
    be in the ball's way: test the window, reflect, add spin, speed up and
    put the ball on the collision plane [plane]. *)
Definition paddleBounce (plane : Q) (paddleY : Q) (b : Ball.t) : Ball.t :=
  let paddleTop := paddleY - (1#10) in
  let paddleBottom := paddleY + (1#10) in
  if Qgeb (Ball.y b) paddleTop && Qle_bool (Ball.y b) paddleBottom
  then Ball.mk plane (Ball.y b)
               (- Ball.velocityX b)
               (Ball.velocityY b + (Ball.y b - paddleY) * 2)
               (Ball.speed b * (105#100))
  else b.

(** "Left paddle collision (ball moving left)" *)
Definition leftPaddle (leftPaddleY : option Q) (b : Ball.t) : Ball.t :=
  match leftPaddleY with
  | Some py =>
      if Qle_bool (Ball.x b) (5#100) && Qltb (Ball.velocityX b) 0
      then paddleBounce (5#100) py b else b
  | None => b
  end.

(** "Right paddle collision (ball moving right)" *)
Definition rightPaddle (rightPaddleY : option Q) (b : Ball.t) : Ball.t :=
  match rightPaddleY with
  | Some py =>
      if Qgeb (Ball.x b) (95#100) && Qgtb (Ball.velocityX b) 0
      then paddleBounce (95#100) py b else b
  | None => b
  end.

(** The ball when the scoring test is reached. *)
Definition ballAtScoring (gs : GameState.t) : Ball.t :=
  let players := GameState.players gs in
  let leftPlayer := findIndex (bySide left) players in
  let rightPlayer := findIndex (bySide right) players in
  rightPaddle (paddleAt players rightPlayer)
    (leftPaddle (paddleAt players leftPlayer)
       (bounceWalls (integrate (GameState.ball gs)))).

(** "Check for scoring" *)
Definition scoring (r : Q) (leftPlayer rightPlayer : option nat)
    (gs : GameState.t) : GameState.t :=
  if Qltb (Ball.x (GameState.ball gs)) 0 then
    match rightPlayer with
    | Some i =>
        resetBall r right
          (GameState.set_players (alter incScore i (GameState.players gs)) gs)
    | None => gs
    end
  else if Qgtb (Ball.x (GameState.ball gs)) 1 then
    match leftPlayer with
    | Some i =>
        resetBall r left
          (GameState.set_players (alter incScore i (GameState.players gs)) gs)
    | None => gs
    end
  else gs.

(** "Check for game end" *)
Definition reached (s : option Z) (winningScore : Z) : bool :=
  match s with Some v => (winningScore <=? v)%Z | None => false end.

Definition checkGameEnd (leftPlayer rightPlayer : option nat)
    (gs : GameState.t) : GameState.t :=
  let winningScore := GameState.winningScore gs in
  if reached (scoreAt (GameState.players gs) leftPlayer) winningScore then
    GameState.set_status finished gs
  else if reached (scoreAt (GameState.players gs) rightPlayer) winningScore then
    GameState.set_status finished gs
  else gs.

(** [updateBallPhysics(gameState)]; [r] is the draw of [resetBall], used only
    when a point is scored. *)
Definition updateBallPhysics (r : Q) (gs : GameState.t) : GameState.t :=
  let players := GameState.players gs in
  let leftPlayer := findIndex (bySide left) players in
  let rightPlayer := findIndex (bySide right) players in
  let gs1 := GameState.set_ball (ballAtScoring gs) gs in
  let gs2 := scoring r leftPlayer rightPlayer gs1 in
  checkGameEnd leftPlayer rightPlayer gs2.

End Physics.

(** ** Synthetic opponent: [createAIOpponent], [calculateAIMove] *)

Module AI.
Local Open Scope Q_scope.
Import Js.

Definition createAIOpponent (difficulty : Difficulty) : AIOpponent.t :=
  match difficulty with
  | easy => AIOpponent.mk easy (3#10) (6#10) 300
  | medium => AIOpponent.mk medium (5#10) (75#100) 200
  | hard => AIOpponent.mk hard (7#10) (85#100) 150
  | expert => AIOpponent.mk expert (9#10) (95#100) 100
  end.

(** "Predict where ball will be when it reaches AI paddle" *)
Definition predictedY (ball : Ball.t) : Q :=
  if Qgtb (Ball.velocityX ball) 0 then
    let timeToReach := ((95#100) - Ball.x ball) / Ball.velocityX ball in
    max (1#10) (min (9#10) (Ball.y ball + Ball.velocityY ball * timeToReach))
  else Ball.y ball.

(** The constant the source uses as the AI's position. *)
Definition currentY : Q := 1#2.

(** [calculateAIMove(gameId, ball)]: [aiConfig] is
    [this.aiOpponents.get(gameId)], [r] the [Math.random()] draw. *)
Definition calculateAIMove (aiConfig : option AIOpponent.t) (ball : Ball.t)
    (r : Q) : Q :=
  match aiConfig with
  | None => 1#2
  | Some aiConfig =>
      let error := (r - (1#2)) * (1 - AIOpponent.accuracy aiConfig) * (3#10) in
      let targetY := predictedY ball + error in
      let maxMove := AIOpponent.speed aiConfig * (2#100) in
      let diff := targetY - currentY in
      let move := sign diff * min (abs diff) maxMove in
      max (1#10) (min (9#10) (currentY + move))
  end.

End AI.

(** ** The game tables of [DatabaseService] *)

Module Db.

(** A row of [games] (key: column [id]). *)
Record GameRow := mkGame {
  room_code : option string;
  created_by : string;
  is_private : bool;
  max_players : Z;
  status : Status;
  difficulty : option Difficulty;
  is_ai_game : bool
}.

(** A row of [game_players]; [gp_] stands for the table. *)
Record GamePlayerRow := mkGamePlayer {
  gp_game_id : string;
  gp_user_id : string;
  gp_is_ai : bool;
  gp_score : Z
}.

(** A row of [game_moves]. *)
Record GameMoveRow := mkGameMove {
  mv_game_id : string;
  mv_user_id : string;
  mv_paddle_y : Q;
  mv_timestamp : Z
}.

(** [users] is only read (the join of [getGamePlayers]): id to username.
    The lists hold the rows of a table in insertion order; the order in
    which a query returns them is [indexOrder], below. *)
Record t := mk {
  users : gmap string string;
  games : gmap string GameRow;
  game_players : list GamePlayerRow;
  game_moves : list GameMoveRow
}.

Definition empty : t := mk ∅ ∅ [] [].

Definition inGame (gameId : string) (r : GamePlayerRow) : bool :=
  bool_decide (gp_game_id r = gameId).
Definition isRow (gameId userId : string) (r : GamePlayerRow) : bool :=
  bool_decide (gp_game_id r = gameId) && bool_decide (gp_user_id r = userId).

Definition roomCodeTaken (code : option string) (d : t) : bool :=
  match code with
  | None => false
  | Some c =>
      existsb (λ kv, bool_decide (room_code kv.2 = Some c))
              (map_to_list (games d))
  end.

(** Statements.  [None] is a rejected promise (a violated constraint). *)

(** [createGame]: [roomCode || null], [maxPlayers || 2]; [id] is the primary
    key and [room_code] is UNIQUE. *)
Definition createGame (id createdBy : string) (roomCode : option string)
    (isPrivate : bool) (maxPlayers : Z) (isAiGame : bool)
    (difficulty : option Difficulty) (d : t) : option (unit * t) :=
  let code := match roomCode with Some EmptyString => None | c => c end in
  let maxp := if (maxPlayers =? 0)%Z then 2%Z else maxPlayers in
  match games d !! id with
  | Some _ => None
  | None =>
      if roomCodeTaken code d then None
      else Some (tt, mk (users d)
                        (<[id := mkGame code createdBy isPrivate maxp waiting
                                        difficulty isAiGame]> (games d))
                        (game_players d) (game_moves d))
  end.

Definition findGameById (gameId : string) (d : t)
  : option (option GameRow * t) :=
  Some (games d !! gameId, d).

(** [addPlayerToGame]: ([game_id], [user_id]) is the primary key. *)
Definition addPlayerToGame (gameId userId : string) (isAi : bool) (d : t)
  : option (unit * t) :=
  if existsb (isRow gameId userId) (game_players d) then None
  else Some (tt, mk (users d) (games d)
                    (game_players d ++ [mkGamePlayer gameId userId isAi 0])
                    (game_moves d)).

Definition removePlayerFromGame (gameId userId : string) (d : t)
  : option (unit * t) :=
  Some (tt, mk (users d) (games d)
               (List.filter (λ r, negb (isRow gameId userId r))
                            (game_players d))
               (game_moves d)).

(** The order in which a [SELECT ... WHERE game_id = ?] without [ORDER BY]
    yields the rows of [game_players]: SQLite answers it through the index
    of [PRIMARY KEY (game_id, user_id)], so the rows of one game come in
    ascending [user_id], compared byte by byte (the columns are [TEXT] with
    the default collation). *)
Definition userIdLe (a b : GamePlayerRow) : bool :=
  String.leb (gp_user_id a) (gp_user_id b).

Fixpoint insertRow (r : GamePlayerRow) (l : list GamePlayerRow)
  : list GamePlayerRow :=
  match l with
  | [] => [r]
  | x :: l' => if userIdLe r x then r :: l else x :: insertRow r l'
  end.

Definition indexOrder (l : list GamePlayerRow) : list GamePlayerRow :=
  foldr insertRow [] l.

(** [getGamePlayers]: the rows of the game, each with the username of the
    [users] table when there is one. *)
Definition getGamePlayers (gameId : string) (d : t)
  : option (list (GamePlayerRow * option string) * t) :=
  Some (List.map (λ r, (r, users d !! gp_user_id r))
                 (indexOrder (List.filter (inGame gameId) (game_players d))),
        d).

Definition updateGameStatus (gameId : string) (st : Status) (d : t)
  : option (unit * t) :=
  Some (tt, mk (users d)
               (alter (λ g, mkGame (room_code g) (created_by g) (is_private g)
                                   (max_players g) st (difficulty g)
                                   (is_ai_game g)) gameId (games d))
               (game_players d) (game_moves d)).

Definition recordGameMove (gameId userId : string) (paddleY : Q)
    (timestamp : Z) (d : t) : option (unit * t) :=
  Some (tt, mk (users d) (games d) (game_players d)
               (game_moves d ++ [mkGameMove gameId userId paddleY timestamp])).

Definition updatePlayerScore (gameId userId : string) (score : Z) (d : t)
  : option (unit * t) :=
  Some (tt, mk (users d) (games d)
               (List.map (λ r, if isRow gameId userId r
                               then mkGamePlayer (gp_game_id r) (gp_user_id r)
                                                 (gp_is_ai r) score
                               else r) (game_players d))
               (game_moves d)).

Definition isUserInGame (gameId userId : string) (d : t)
  : option (bool * t) :=
  Some (existsb (isRow gameId userId) (game_players d), d).

Definition getGamePlayerCount (gameId : string) (d : t) : option (Z * t) :=
  Some (Z.of_nat (length (List.filter (inGame gameId) (game_players d))), d).

End Db.

(** ** Service state and the monad of the [async] methods *)

(** A WebSocket is known by a number; [send] on a socket of [brokenSockets]
    throws.  Every call of [send] is logged in [wire]. *)
Definition Connection := nat.

Inductive Message :=
  | game_state_update (gameId : string) (gameState : GameState.t).

Record SendAttempt := mkSend {
  target : Connection;
  message : Message;
  threw : bool
}.

Inductive Error :=
  | Err (message : string)   (* [throw new Error(message)] *)
  | SqliteError.             (* a rejected database promise *)

Inductive Outcome (A : Type) :=
  | Returned (a : A)
  | Thrown (e : Error).
Arguments Returned {A} a.
Arguments Thrown {A} e.

Record World := mkWorld {
  games : gmap string GameState.t;
  gameConnections : gmap string (list Connection);
  aiOpponents : gmap string AIOpponent.t;
  db : Db.t;
  dbFaults : list bool;
  brokenSockets : list Connection;
  wire : list SendAttempt
}.

Definition emptyWorld : World := mkWorld ∅ ∅ ∅ Db.empty [] [] [].

Definition with_games (f : gmap string GameState.t → gmap string GameState.t)
    (w : World) : World :=
  mkWorld (f (games w)) (gameConnections w) (aiOpponents w) (db w)
          (dbFaults w) (brokenSockets w) (wire w).
Definition with_gameConnections
    (f : gmap string (list Connection) → gmap string (list Connection))
    (w : World) : World :=
  mkWorld (games w) (f (gameConnections w)) (aiOpponents w) (db w)
          (dbFaults w) (brokenSockets w) (wire w).
Definition with_aiOpponents
    (f : gmap string AIOpponent.t → gmap string AIOpponent.t)
    (w : World) : World :=
  mkWorld (games w) (gameConnections w) (f (aiOpponents w)) (db w)
          (dbFaults w) (brokenSockets w) (wire w).
Definition with_db (d : Db.t) (w : World) : World :=
  mkWorld (games w) (gameConnections w) (aiOpponents w) d
          (dbFaults w) (brokenSockets w) (wire w).
Definition with_dbFaults (l : list bool) (w : World) : World :=
  mkWorld (games w) (gameConnections w) (aiOpponents w) (db w)
          l (brokenSockets w) (wire w).
Definition with_wire (l : list SendAttempt) (w : World) : World :=
  mkWorld (games w) (gameConnections w) (aiOpponents w) (db w)
          (dbFaults w) (brokenSockets w) l.

Definition Async (A : Type) : Type := World → Outcome A * World.

Definition ret {A} (a : A) : Async A := λ w, (Returned a, w).
Definition throw {A} (message : string) : Async A := λ w, (Thrown (Err message), w).
Definition bind {A B} (m : Async A) (k : A → Async B) : Async B := λ w,
  match m w with
  | (Returned a, w') => k a w'
  | (Thrown e, w') => (Thrown e, w')
  end.

#[global] Instance Async_ret : MRet Async := @ret.
#[global] Instance Async_bind : MBind Async := λ A B k m, bind m k.

Definition getWorld : Async World := λ w, (Returned w, w).
Definition update (f : World → World) : Async unit := λ w, (Returned tt, f w).

(** [await db.stmt(...)]: the next entry of the fault schedule decides whether
    the promise rejects before the statement runs. *)
Definition await {A} (stmt : Db.t → option (A * Db.t)) : Async A := λ w,
  let w' := with_dbFaults (tail (dbFaults w)) w in
  match dbFaults w with
  | true :: _ => (Thrown SqliteError, w')
  | _ =>
      match stmt (db w) with
      | Some (a, d) => (Returned a, with_db d w')
      | None => (Thrown SqliteError, w')
      end
  end.

(** A mutation of the game object that [this.games] holds under [gameId]. *)
Definition mutate (gameId : string) (f : GameState.t → GameState.t)
  : Async unit :=
  update (with_games (alter f gameId)).

Fixpoint forEach {A} (l : list A) (body : A → Async unit) : Async unit :=
  match l with
  | [] => ret tt
  | a :: l => body a ;; forEach l body
  end.

(** ** [GameService] *)

Module GameService.
Local Open Scope Z_scope.

(** The in-place mutation of a game object, written through to [this.games]
    (the object stays the same entry of the map while a method runs). *)
Definition store (gameId : string) (gs : GameState.t) : Async unit :=
  update (with_games (<[gameId := gs]>)).

(** *** Connections: [addConnection], [removeConnection], [broadcastGameState] *)

Definition setAdd (c : Connection) (s : list Connection) : list Connection :=
  if bool_decide (c ∈ s) then s else s ++ [c].
Definition setDelete (c : Connection) (s : list Connection) : list Connection :=
  List.filter (λ c', negb (bool_decide (c' = c))) s.

Definition addConnection (gameId : string) (connection : Connection)
  : Async unit :=
  update (λ w,
    let w1 := match gameConnections w !! gameId with
              | None => with_gameConnections (<[gameId := []]>) w
              | Some _ => w
              end in
    with_gameConnections (alter (setAdd connection) gameId) w1).

Definition removeConnection (gameId : string) (connection : Connection)
  : Async unit :=
  update (with_gameConnections (alter (setDelete connection) gameId)).

(** The body of the [forEach] of [broadcastGameState]: [try { send } catch
    { connections.delete(connection) }]. *)
Definition trySend (gameId : string) (message : Message) (w : World)
    (connection : Connection) : World :=
  if bool_decide (connection ∈ brokenSockets w) then
    with_gameConnections (alter (setDelete connection) gameId)
      (with_wire (wire w ++ [mkSend connection message true]) w)
  else with_wire (wire w ++ [mkSend connection message false]) w.

Definition broadcastGameState (gameId : string) (gameState : GameState.t)
  : Async unit := λ w,
  match gameConnections w !! gameId with
  | None => (Returned tt, w)
  | Some connections =>
      let message := game_state_update gameId gameState in
      (Returned tt, foldl (trySend gameId message) w connections)
  end.

(** *** Creation: [createPvPGame], [createAIGame] *)

Definition newPlayer (userId username : string) (isAi : bool) (side : Side)
  : GamePlayer.t :=
  GamePlayer.mk userId username (1#2)%Q 0 isAi side.

(** [rid] is the random suffix of the id, [rcode] the random room code,
    [r1], [r2] the draws of [initializeBall]. *)
Definition createPvPGame (rid rcode : string) (r1 r2 : Q) (now : Z)
    (createdBy username : string) (isPrivate : bool) (maxPlayers : Z)
  : Async GameState.t :=
  let gameId := ("game-" +:+ rid)%string in
  let roomCode := if isPrivate then Some rcode else None in
  await (Db.createGame gameId createdBy roomCode isPrivate maxPlayers false None);;
  await (Db.addPlayerToGame gameId createdBy false);;
  let gameState :=
    GameState.mk gameId [newPlayer createdBy username false left]
                 (Physics.initializeBall r1 r2) waiting isPrivate maxPlayers
                 roomCode false None now 11 None in
  update (with_games (<[gameId := gameState]>));;
  update (with_gameConnections (<[gameId := []]>));;
  mret gameState.

Definition createAIGame (rid : string) (r1 r2 : Q) (now : Z)
    (userId username : string) (difficulty : Difficulty)
  : Async GameState.t :=
  let gameId := ("ai-game-" +:+ rid)%string in
  await (Db.createGame gameId userId None false 2 true (Some difficulty));;
  await (Db.addPlayerToGame gameId userId false);;
  await (Db.addPlayerToGame gameId "ai" true);;
  let aiConfig := AI.createAIOpponent difficulty in
  update (with_aiOpponents (<[gameId := aiConfig]>));;
  let gameState :=
    GameState.mk gameId
                 [newPlayer userId username false left;
                  newPlayer "ai" "AI" true right]
                 (Physics.initializeBall r1 r2) active false 2
                 None true (Some difficulty) now 11 (Some now) in
  update (with_games (<[gameId := gameState]>));;
  update (with_gameConnections (<[gameId := []]>));;
  mret gameState.

(** *** Rebuilding a game object from the database
    (shared by [joinGame] and [getGameState]) *)

Definition reconstruct (gameId : string) (game : Db.GameRow)
    (players : list (Db.GamePlayerRow * option string)) (r1 r2 : Q) (now : Z)
  : GameState.t :=
  GameState.mk gameId
    (imap (λ index p,
             GamePlayer.mk (Db.gp_user_id p.1)
                           (match p.2 with
                            | None | Some EmptyString => "AI"
                            | Some n => n
                            end)
                           (1#2)%Q (Db.gp_score p.1) (Db.gp_is_ai p.1)
                           (if (index =? 0)%nat then left else right))
          players)
    (Physics.initializeBall r1 r2) (Db.status game) (Db.is_private game)
    (Db.max_players game) (Db.room_code game) (Db.is_ai_game game)
    (Db.difficulty game) now 11 None.

(** *** [joinGame] *)

(** [roomCode !== game.room_code] is false only for two equal strings
    ([undefined] differs from [null]). *)
Definition sameRoomCode (roomCode stored : option string) : bool :=
  match roomCode, stored with
  | Some a, Some b => bool_decide (a = b)
  | _, _ => false
  end.

Definition joinGame (gameId userId username : string)
    (roomCode : option string) (r1 r2 : Q) (now : Z) : Async GameState.t :=
  game ← await (Db.findGameById gameId);
  match game with
  | None => throw "Game not found"
  | Some game =>
    if Db.is_private game && negb (sameRoomCode roomCode (Db.room_code game))
    then throw "Invalid room code" else
    playerCount ← await (Db.getGamePlayerCount gameId);
    if Db.max_players game <=? playerCount then throw "Game is full" else
    isAlreadyInGame ← await (Db.isUserInGame gameId userId);
    if isAlreadyInGame : bool then throw "User already in game" else
    await (Db.addPlayerToGame gameId userId false);;
    (* Update in-memory state *)
    w ← getWorld;
    gameState ← match games w !! gameId with
                | Some gameState => mret gameState
                | None =>
                    players ← await (Db.getGamePlayers gameId);
                    let gameState :=
                      reconstruct gameId game players r1 r2 now in
                    store gameId gameState;;
                    mret gameState
                end;
    (* Determine side for new player *)
    let newPlayerSide :=
      if (length (GameState.players gameState) =? 1)%nat then right else left in
    let gameState :=
      GameState.set_players
        (GameState.players gameState
           ++ [newPlayer userId username false newPlayerSide]) gameState in
    store gameId gameState;;
    (* Start game if we have enough players *)
    gameState ←
      (if Z.of_nat (length (GameState.players gameState))
            =? GameState.maxPlayers gameState
       then
         let gameState :=
           GameState.set_gameStartTime (Some now)
             (GameState.set_status active gameState) in
         store gameId gameState;;
         await (Db.updateGameStatus gameId active);;
         mret gameState
       else mret gameState);
    let gameState := GameState.set_lastUpdate now gameState in
    store gameId gameState;;
    broadcastGameState gameId gameState;;
    mret gameState
  end.

(** *** [handlePlayerMove] *)

Definition clampPaddle (paddleY : Q) : Q :=
  Js.max (1#10) (Js.min (9#10) paddleY).

(** [timestamp || Date.now()] *)
Definition orNow (timestamp : option Z) (now : Z) : Z :=
  match timestamp with
  | Some t => if t =? 0 then now else t
  | None => now
  end.

(** [rAi] is the draw of [calculateAIMove], [rBall] the one of [resetBall].
    [paddleY] is a real number: the routes check this ([type: 'number']), the
    WebSocket handler does not, and a [paddleY] that is missing or not a
    number, for which [Math.max(0.1, Math.min(0.9, paddleY))] is NaN, is
    outside the model. *)
Definition handlePlayerMove (gameId userId : string) (paddleY : Q)
    (timestamp : option Z) (rAi rBall : Q) (now : Z) : Async unit :=
  w ← getWorld;
  match games w !! gameId with
  | None => throw "Game not found"
  | Some gameState =>
    isUserInGame ← await (Db.isUserInGame gameId userId);
    if negb isUserInGame then throw "User not in game" else
    if negb (bool_decide (GameState.status gameState = active))
    then throw "Game is not active" else
    let moveTimestamp := orNow timestamp now in
    (* Update player position *)
    let gameState :=
      match findIndex (byUserId userId) (GameState.players gameState) with
      | Some player =>
          GameState.set_players
            (alter (GamePlayer.set_paddleY (clampPaddle paddleY)) player
                   (GameState.players gameState)) gameState
      | None => gameState
      end in
    store gameId gameState;;
    (* Record move in database *)
    await (Db.recordGameMove gameId userId paddleY moveTimestamp);;
    (* Handle AI response if this is an AI game *)
    gameState ←
      (if GameState.isAiGame gameState then
         match findIndex GamePlayer.isAi (GameState.players gameState) with
         | Some aiPlayer =>
             w ← getWorld;
             let aiMove :=
               AI.calculateAIMove (aiOpponents w !! gameId)
                                  (GameState.ball gameState) rAi in
             let gameState :=
               GameState.set_players
                 (alter (GamePlayer.set_paddleY aiMove) aiPlayer
                        (GameState.players gameState)) gameState in
             store gameId gameState;;
             await (Db.recordGameMove gameId "ai" aiMove now);;
             mret gameState
         | None => mret gameState
         end
       else mret gameState);
    (* Update ball physics for ping-pong *)
    let gameState := Physics.updateBallPhysics rBall gameState in
    store gameId gameState;;
    (* Update scores in database if they changed *)
    forEach (GameState.players gameState) (λ player,
      await (Db.updatePlayerScore gameId (GamePlayer.userId player)
                                  (GamePlayer.score player)));;
    let gameState := GameState.set_lastUpdate now gameState in
    store gameId gameState;;
    broadcastGameState gameId gameState
  end.

(** *** [leaveGame] *)

Definition onlyAiLeft (gameState : GameState.t) : bool :=
  GameState.isAiGame gameState &&
  match GameState.players gameState with
  | [p] => GamePlayer.isAi p
  | _ => false
  end.

Definition leaveGame (gameId userId : string) (now : Z) : Async unit :=
  w ← getWorld;
  match games w !! gameId with
  | None => throw "Game not found"
  | Some gameState =>
    await (Db.removePlayerFromGame gameId userId);;
    (* Update in-memory state *)
    let gameState :=
      GameState.set_players
        (List.filter (λ p, negb (byUserId userId p))
                     (GameState.players gameState)) gameState in
    store gameId gameState;;
    (* End game if no players left or only AI left *)
    if (length (GameState.players gameState) =? 0)%nat || onlyAiLeft gameState
    then
      store gameId (GameState.set_status finished gameState);;
      await (Db.updateGameStatus gameId finished);;
      update (with_games (delete gameId));;
      update (with_gameConnections (delete gameId));;
      update (with_aiOpponents (delete gameId))
    else
      let gameState := GameState.set_lastUpdate now gameState in
      store gameId gameState;;
      broadcastGameState gameId gameState
  end.

(** *** [getGameState] *)

Definition getGameState (gameId : string) (r1 r2 : Q) (now : Z)
  : Async (option GameState.t) :=
  w ← getWorld;
  match games w !! gameId with
  | Some gameState => mret (Some gameState)
  | None =>
      (* Try to reconstruct from database *)
      game ← await (Db.findGameById gameId);
      match game with
      | None => mret None
      | Some game =>
          players ← await (Db.getGamePlayers gameId);
          let gameState := reconstruct gameId game players r1 r2 now in
          store gameId gameState;;
          mret (Some gameState)
      end
  end.

(** *** [updateScore] *)

Definition updateScore (gameId userId : string) (score : Z) (now : Z)
  : Async unit :=
  w ← getWorld;
  match games w !! gameId with
  | None => throw "Game not found"
  | Some gameState =>
    gameState ←
      match findIndex (byUserId userId) (GameState.players gameState) with
      | Some player =>
          let gameState :=
            GameState.set_players
              (alter (GamePlayer.set_score score) player
                     (GameState.players gameState)) gameState in
          store gameId gameState;;
          await (Db.updatePlayerScore gameId userId score);;
          mret gameState
      | None => mret gameState
      end;
    let gameState := GameState.set_lastUpdate now gameState in
    store gameId gameState;;
    broadcastGameState gameId gameState
  end.

End GameService.

(** ** The error mapping of the game routes

    [message.includes('not found') ? 404 : message.includes('full') ||
    message.includes('already') ? 409 : message.includes('Invalid') ? 400 :
    500] (route [/api/game/join/:gameId]).  The message of a database error
    is taken to contain none of these words. *)

Fixpoint includes (needle hay : string) : bool :=
  String.prefix needle hay ||
  match hay with
  | EmptyString => false
  | String _ rest => includes needle rest
  end.

Definition joinErrorStatus (e : Error) : Z :=
  match e with
  | Err message =>
      if includes "not found" message then 404
      else if includes "full" message || includes "already" message then 409
      else if includes "Invalid" message then 400
      else 500
  | SqliteError => 500
  end.

(** The mapping of the move routes ([/api/game/:gameId/move] and
    [/api/game/ai/:gameId/move]) and of the leave route. *)
Definition moveErrorStatus (e : Error) : Z :=
  match e with
  | Err message =>
      if includes "not found" message then 404
      else if includes "not in game" message then 403
      else if includes "not active" message then 409
      else 500
  | SqliteError => 500
  end.

Definition leaveErrorStatus (e : Error) : Z :=
  match e with
  | Err message => if includes "not found" message then 404 else 500
  | SqliteError => 500
  end.

(** ** [AuthService]: the [Authorization] header and the password rule

    A JavaScript string is a sequence of UTF-16 code units: [length],
    [startsWith], [substring] and the character classes of the regular
    expressions (none carries the [u] flag) work on code units. *)

Module AuthService.
Local Open Scope N_scope.

Definition Text := list N.

Definition startsWith (searchString s : Text) : bool :=
  bool_decide (take (length searchString) s = searchString).
Definition substring (start : nat) (s : Text) : Text := drop start s.

(** ['Bearer '] *)
Definition bearer : Text := [66; 101; 97; 114; 101; 114; 32].

(** [!authHeader] holds of [undefined] and of the empty string. *)
Definition extractTokenFromHeader (authHeader : option Text) : option Text :=
  match authHeader with
  | None | Some [] => None
  | Some h =>
      if negb (startsWith bearer h) then None
      else Some (substring 7 h) (* Remove 'Bearer ' prefix *)
  end.

(** The classes [[a-z]], [[A-Z]] and [\d]. *)
Definition lower (c : N) : bool := (97 <=? c) && (c <=? 122).
Definition upper (c : N) : bool := (65 <=? c) && (c <=? 90).
Definition digit (c : N) : bool := (48 <=? c) && (c <=? 57).

(** [.] matches every code unit but LF, CR, U+2028 and U+2029. *)
Definition lineTerminator (c : N) : bool :=
  (c =? 10) || (c =? 13) || (c =? 8232) || (c =? 8233).

(** [.*[cls]] at the head of [s]: code units that are no line terminators,
    as many as needed, then one of the class. *)
Fixpoint dotStarThen (cls : N → bool) (s : Text) : bool :=
  match s with
  | [] => false
  | c :: s' => cls c || (negb (lineTerminator c) && dotStarThen cls s')
  end.

(** [/(?=.*[cls])/.test(s)]: the expression is not anchored, so the
    look-ahead is tried at every index of [s]. *)
Fixpoint lookahead (cls : N → bool) (s : Text) {struct s} : bool :=
  dotStarThen cls s
  || match s with [] => false | _ :: s' => lookahead cls s' end.

Record Validation := mkValidation { valid : bool; message : option string }.

Definition isValidPassword (password : Text) : Validation :=
  if (length password <? 8)%nat then
    mkValidation false (Some "Password must be at least 8 characters long"%string)
  else if negb (lookahead lower password) then
    mkValidation false
      (Some "Password must contain at least one lowercase letter"%string)
  else if negb (lookahead upper password) then
    mkValidation false
      (Some "Password must contain at least one uppercase letter"%string)
  else if negb (lookahead digit password) then
    mkValidation false (Some "Password must contain at least one number"%string)
  else mkValidation true None.

End AuthService.

(** ** Histories: the calls a client can make, one after the other *)

Inductive Call :=
  | CreatePvPGame (rid rcode : string) (r1 r2 : Q) (now : Z)
                  (createdBy username : string) (isPrivate : bool)
                  (maxPlayers : Z)
  | CreateAIGame (rid : string) (r1 r2 : Q) (now : Z)
                 (userId username : string) (difficulty : Difficulty)
  | JoinGame (gameId userId username : string) (roomCode : option string)
             (r1 r2 : Q) (now : Z)
  | HandlePlayerMove (gameId userId : string) (paddleY : Q)
                     (timestamp : option Z) (rAi rBall : Q) (now : Z)
  | LeaveGame (gameId userId : string) (now : Z)
  | UpdateScore (gameId userId : string) (score : Z) (now : Z)
  | AddConnection (gameId : string) (connection : Connection)
  | RemoveConnection (gameId : string) (connection : Connection).

(** The outcome of a call, without its return value. *)
Definition forget {A} (r : Outcome A * World) : Outcome unit * World :=
  match r with
  | (Returned _, w) => (Returned tt, w)
  | (Thrown e, w) => (Thrown e, w)
  end.

Definition perform (c : Call) (w : World) : Outcome unit * World :=
  match c with
  | CreatePvPGame rid rcode r1 r2 now createdBy username isPrivate maxPlayers =>
      forget (GameService.createPvPGame rid rcode r1 r2 now createdBy username
                                        isPrivate maxPlayers w)
  | CreateAIGame rid r1 r2 now userId username difficulty =>
      forget (GameService.createAIGame rid r1 r2 now userId username
                                       difficulty w)
  | JoinGame gameId userId username roomCode r1 r2 now =>
      forget (GameService.joinGame gameId userId username roomCode r1 r2 now w)
  | HandlePlayerMove gameId userId paddleY timestamp rAi rBall now =>
      GameService.handlePlayerMove gameId userId paddleY timestamp rAi rBall
                                   now w
  | LeaveGame gameId userId now => GameService.leaveGame gameId userId now w
  | UpdateScore gameId userId score now =>
      GameService.updateScore gameId userId score now w
  | AddConnection gameId connection =>
      GameService.addConnection gameId connection w
  | RemoveConnection gameId connection =>
      GameService.removeConnection gameId connection w
  end.

(** The world after a history (a call that throws leaves what it mutated). *)
Definition run (history : list Call) (w : World) : World :=
  foldl (λ w c, (perform c w).2) w history.

(** Observations on the game held under [gameId]. *)
Definition statusOf (gameId : string) (w : World) : option Status :=
  GameState.status <$> games w !! gameId.
Definition rosterOf (gameId : string) (w : World) : option (list GamePlayer.t) :=
  GameState.players <$> games w !! gameId.
Definition countSide (s : Side) (players : list GamePlayer.t) : nat :=
  length (List.filter (bySide s) players).

(** ** Scenarios: concrete states and histories used below *)

Module Scenarios.

Definition alice : GamePlayer.t := GamePlayer.mk "u1" "alice" (1#10) 0 false left.
Definition bob : GamePlayer.t := GamePlayer.mk "u2" "bob" (1#2) 0 false right.

(** An active two-player game with the given ball. *)
Definition duel (b : Ball.t) : GameState.t :=
  GameState.mk "game-a" [alice; bob] b active false 2 None false None 0 11 None.

(** A ball that reaches the top wall within the next step, in mid court. *)
Definition ballAtTopWall : Ball.t :=
  Ball.mk (1#2) (1#1000) (-(6#10)) (-(12#100)) 1.



(** A world in which three sockets listen to a game and the second one is
    broken. *)
Definition threeSockets : World :=
  mkWorld {[ "game-a"%string := duel ballAtTopWall ]}
          {[ "game-a"%string := [1; 2; 3]%nat ]} ∅ Db.empty [] [2%nat] [].

(** u1 opens a two-player game and u2 joins: the roster is full. *)
Definition fullGame : list Call :=
  [ CreatePvPGame "a" "" (1#2) (1#2) 0 "u1" "alice" false 2;
    JoinGame "game-a" "u2" "bob" None (1#2) (1#2) 1 ].




(** u1 starts a game against the easy AI (served to the left, level) and
    moves once; the AI's noise draw is 0, so it aims below the centre. *)
Definition aiOnce : list Call :=
  [ CreateAIGame "a" (1#2) (1#2) 0 "u1" "alice" easy;
    HandlePlayerMove "ai-game-a" "u1" (1#2) None 0 (1#2) 1 ].

(** The next move of u1; the AI's noise draw is 0.99: it aims above. *)
Definition aiSecondMove : Call :=
  HandlePlayerMove "ai-game-a" "u1" (1#2) None (99#100) (1#2) 2.

(** In the full game a score message sets u1's score to 5. *)
Definition scoreSetToFive : list Call :=
  fullGame ++ [UpdateScore "game-a" "u1" 5 2].

(** u1 starts a game against the AI and leaves it. *)
Definition aiGameAbandoned : list Call :=
  [ CreateAIGame "a" (1#2) (1#2) 0 "u1" "alice" easy;
    LeaveGame "ai-game-a" "u1" 1 ].


(** u2 leaves the full, active game. *)
Definition rightPlayerLeaves : list Call :=
  fullGame ++ [LeaveGame "game-a" "u2" 2].

(** u1 opens a game for three; u2 and u3 join. *)
Definition gameForThree : list Call :=
  [ CreatePvPGame "b" "" (1#2) (1#2) 0 "u1" "alice" false 3;
    JoinGame "game-b" "u2" "bob" None (1#2) (1#2) 1;
    JoinGame "game-b" "u3" "carol" None (1#2) (1#2) 2 ].

(** A ball about to reach the left collision plane in front of [alice]'s
    paddle. *)
Definition ballAtLeftPaddle : Ball.t :=
  Ball.mk (55#1000) (15#100) (-(6#10)) 0 1.

(** A ball that reaches the top wall and the left collision plane in the
    same step, in front of [alice]'s paddle. *)
Definition ballAtWallAndPaddle : Ball.t :=
  Ball.mk (55#1000) (1#1000) (-(6#10)) (-(12#100)) 1.

(** u1 opens a private game with room code ROOM01. *)
Definition privateGame : list Call :=
  [ CreatePvPGame "p" "ROOM01" (1#2) (1#2) 0 "u1" "alice" true 2 ].

End Scenarios.

(** ** Vocabulary of the statements *)

(** [wp m Q w]: running [m] in [w] ends in an outcome and a world that
    satisfy [Q] (every method terminates, so this is a total-correctness
    triple with precondition "the world is [w]"). *)
Definition wp {A} (m : Async A) (Q : Outcome A → World → Prop) (w : World)
  : Prop :=
  Q (m w).1 (m w).2.

(** Two worlds with the same in-memory service state and sockets: they differ
    at most in the database and in the fault schedule. *)
Definition sameMemory (w w' : World) : Prop :=
  games w' = games w ∧ gameConnections w' = gameConnections w ∧
  aiOpponents w' = aiOpponents w ∧ brokenSockets w' = brokenSockets w ∧
  wire w' = wire w.

Definition isThrown {A} (o : Outcome A) : Prop :=
  match o with Thrown _ => True | Returned _ => False end.

(** The next database call does not reject on its own. *)
Definition nextCallRuns (w : World) : Prop := hd false (dbFaults w) = false.

(** What [broadcastGameState] puts on the wire for one socket, and whether the
    socket stays registered. *)
Definition attempt (w : World) (message : Message) (c : Connection)
  : SendAttempt :=
  mkSend c message (bool_decide (c ∈ brokenSockets w)).
Definition alive (w : World) (c : Connection) : bool :=
  negb (bool_decide (c ∈ brokenSockets w)).

Definition with_brokenSockets (l : list Connection) (w : World) : World :=
  mkWorld (games w) (gameConnections w) (aiOpponents w) (db w)
          (dbFaults w) l (wire w).

(** Still registered after the sockets of [l] were tried. *)
Definition kept (w : World) (l : list Connection) (c : Connection) : bool :=
  negb (bool_decide (c ∈ l) && bool_decide (c ∈ brokenSockets w)).

(** The game object after each in-memory step of [handlePlayerMove]: the
    paddle of the mover, the paddle of the AI, the physics step, the
    timestamp. *)
Definition afterPaddle (userId : string) (paddleY : Q) (gs : GameState.t)
  : GameState.t :=
  match findIndex (byUserId userId) (GameState.players gs) with
  | Some player =>
      GameState.set_players
        (alter (GamePlayer.set_paddleY (GameService.clampPaddle paddleY)) player
               (GameState.players gs)) gs
  | None => gs
  end.

Definition afterAi (aiConfig : option AIOpponent.t) (rAi : Q)
    (gs : GameState.t) : GameState.t :=
  if GameState.isAiGame gs then
    match findIndex GamePlayer.isAi (GameState.players gs) with
    | Some aiPlayer =>
        GameState.set_players
          (alter (GamePlayer.set_paddleY
                    (AI.calculateAIMove aiConfig (GameState.ball gs) rAi))
                 aiPlayer (GameState.players gs)) gs
    | None => gs
    end
  else gs.

(** [w'] is [w] after a broadcast of [gs] to the sockets of [gameId]. *)
Definition published (gameId : string) (gs : GameState.t) (w w' : World)
  : Prop :=
  match gameConnections w !! gameId with
  | None => wire w' = wire w ∧ gameConnections w' = gameConnections w
  | Some connections =>
      wire w' = wire w ++ List.map (attempt w (game_state_update gameId gs))
                                   connections
      ∧ gameConnections w'
        = <[gameId := List.filter (alive w) connections]> (gameConnections w)
  end.

(** What a call of [handlePlayerMove] on a game [gs] of [w] can end in:
    - it throws before it touched anything (the membership query rejected,
      the caller is not in the game, or the game is not active);
    - it throws on a later database call: the game object is left at one of
      the steps reached so far and nothing was sent;
    - it returns: all steps were made and the result was broadcast.
    A database error needs a scheduled fault. *)
Definition movePost (gameId userId : string) (paddleY rAi rBall : Q) (now : Z)
    (w : World) (gs : GameState.t) (o : Outcome unit) (w' : World) : Prop :=
  let gs1 := afterPaddle userId paddleY gs in
  let gs2 := afterAi (aiOpponents w !! gameId) rAi gs1 in
  let gs3 := Physics.updateBallPhysics rBall gs2 in
  let gs4 := GameState.set_lastUpdate now gs3 in
  let member := existsb (Db.isRow gameId userId) (Db.game_players (db w)) in
  aiOpponents w' = aiOpponents w ∧ brokenSockets w' = brokenSockets w ∧
  (dbFaults w = [] → o ≠ Thrown SqliteError) ∧
  ( (sameMemory w w' ∧
       ((o = Thrown SqliteError ∧ hd false (dbFaults w) = true)
        ∨ (o = Thrown (Err "User not in game") ∧ member = false)
        ∨ (o = Thrown (Err "Game is not active") ∧ member = true
           ∧ GameState.status gs ≠ active)))
  ∨ (GameState.status gs = active ∧ member = true ∧ o = Thrown SqliteError
       ∧ wire w' = wire w ∧ gameConnections w' = gameConnections w
       ∧ ∃ gs', (gs' = gs1 ∨ gs' = gs2 ∨ gs' = gs3)
                ∧ games w' = <[gameId := gs']> (games w))
  ∨ (GameState.status gs = active ∧ member = true ∧ o = Returned tt
       ∧ games w' = <[gameId := gs4]> (games w)
       ∧ published gameId gs4 w w') ).

(** The roster entry that [players.find(p => p.userId === userId)] yields
    holds a paddle position of [0.1, 0.9], equal to [v] unless the entry is
    the AI's. *)
Definition paddleStored (userId : string) (v : Q) (gs : GameState.t) : Prop :=
  ∃ i pl, findIndex (byUserId userId) (GameState.players gs) = Some i
          ∧ GameState.players gs !! i = Some pl
          ∧ GamePlayer.userId pl = userId
          ∧ ((1#10) <= GamePlayer.paddleY pl <= (9#10))%Q
          ∧ (GamePlayer.isAi pl = false → GamePlayer.paddleY pl = v).

(** [ps'] is [ps] with the same participants on the same sides, entry by
    entry, and no score lower than before. *)
Definition scoresGrow (ps ps' : list GamePlayer.t) : Prop :=
  length ps' = length ps ∧
  ∀ i p, ps !! i = Some p →
    ∃ p', ps' !! i = Some p' ∧ GamePlayer.userId p' = GamePlayer.userId p
          ∧ GamePlayer.side p' = GamePlayer.side p
          ∧ (GamePlayer.score p ≤ GamePlayer.score p')%Z.

(** The game object after the in-memory steps of [updateScore], [leaveGame]
    and [joinGame]. *)
Definition afterScore (userId : string) (score : Z) (gs : GameState.t)
  : GameState.t :=
  match findIndex (byUserId userId) (GameState.players gs) with
  | Some player =>
      GameState.set_players
        (alter (GamePlayer.set_score score) player (GameState.players gs)) gs
  | None => gs
  end.

Definition afterLeave (userId : string) (gs : GameState.t) : GameState.t :=
  GameState.set_players
    (List.filter (λ p, negb (byUserId userId p)) (GameState.players gs)) gs.

(** The test "no players left or only AI left" of [leaveGame]. *)
Definition deserted (gs : GameState.t) : bool :=
  (length (GameState.players gs) =? 0)%nat || GameService.onlyAiLeft gs.

Definition afterJoin (userId username : string) (gs : GameState.t)
  : GameState.t :=
  GameState.set_players
    (GameState.players gs
       ++ [GameService.newPlayer userId username false
             (if (length (GameState.players gs) =? 1)%nat
              then right else left)]) gs.

(** The test "we have enough players" of [joinGame] and what it triggers. *)
Definition complete (gs : GameState.t) : bool :=
  (Z.of_nat (length (GameState.players gs)) =? GameState.maxPlayers gs)%Z.
Definition started (now : Z) (gs : GameState.t) : GameState.t :=
  if complete gs
  then GameState.set_gameStartTime (Some now) (GameState.set_status active gs)
  else gs.

(** *** The bookkeeping invariant of rosters

    The calls that build rosters: a two-player [createPvPGame], [createAIGame]
    and [joinGame] (and the registration of sockets, which touches no
    roster). *)
Definition rosterCall (c : Call) : Prop :=
  match c with
  | CreatePvPGame _ _ _ _ _ _ _ _ maxPlayers => maxPlayers = 2%Z
  | CreateAIGame _ _ _ _ _ _ _ => True
  | JoinGame _ _ _ _ _ _ _ => True
  | AddConnection _ _ | RemoveConnection _ _ => True
  | HandlePlayerMove _ _ _ _ _ _ _ | LeaveGame _ _ _ | UpdateScore _ _ _ _ =>
      False
  end.

(** The rows of [game_players] that belong to a game. *)
Definition rowsOf (gameId : string) (d : Db.t) : list Db.GamePlayerRow :=
  List.filter (Db.inGame gameId) (Db.game_players d).

(** A registered game and the database agree: the game is for two, it has a
    row in [games], and it is either waiting with its creator alone on the
    left (and one row in [game_players]), or waiting with three or more
    entries (a game rebuilt from the database), or active with a left and a
    right participant and its rows complete. *)
Definition seated (gameId : string) (gs : GameState.t) (d : Db.t) : Prop :=
  GameState.maxPlayers gs = 2%Z ∧ is_Some (Db.games d !! gameId) ∧
  ( (GameState.status gs = waiting
     ∧ ∃ p, GameState.players gs = [p] ∧ GamePlayer.side p = left
            ∧ length (rowsOf gameId d) = 1%nat)
  ∨ (GameState.status gs = waiting ∧ (3 ≤ length (GameState.players gs))%nat)
  ∨ (GameState.status gs = active
     ∧ (∃ p q, GameState.players gs = [p; q] ∧ GamePlayer.side p = left
               ∧ GamePlayer.side q = right)
     ∧ (2 ≤ length (rowsOf gameId d))%nat) ).

(** What holds of one game id: the database side, and the service side. *)
Definition bookkept (gameId : string) (G : gmap string GameState.t) (d : Db.t)
  : Prop :=
  match Db.games d !! gameId with
  | Some row => Db.max_players row = 2%Z ∧ rowsOf gameId d ≠ []
  | None => rowsOf gameId d = []
  end
  ∧ match G !! gameId with
    | Some gs => seated gameId gs d
    | None => ∀ row, Db.games d !! gameId = Some row → Db.status row = waiting
    end.

Definition sound (w : World) : Prop :=
  dbFaults w = [] ∧ ∀ gameId, bookkept gameId (games w) (db w).

(** Every paddle of a roster is on the screen; every registered game is such. *)
Definition paddlesIn (gs : GameState.t) : Prop :=
  Forall (λ p, (1#10) <= GamePlayer.paddleY p <= (9#10))%Q
         (GameState.players gs).
Definition paddlesOK (w : World) : Prop :=
  ∀ gameId gs, games w !! gameId = Some gs → paddlesIn gs.

(** The database after [addPlayerToGame] and after [updateGameStatus], and
    the rows that [getGamePlayers] returns. *)
Definition withPlayer (gameId userId : string) (isAi : bool) (d : Db.t) : Db.t :=
  Db.mk (Db.users d) (Db.games d)
        (Db.game_players d ++ [Db.mkGamePlayer gameId userId isAi 0])
        (Db.game_moves d).
Definition withStatus (gameId : string) (st : Status) (d : Db.t) : Db.t :=
  Db.mk (Db.users d)
        (alter (λ g, Db.mkGame (Db.room_code g) (Db.created_by g)
                               (Db.is_private g) (Db.max_players g) st
                               (Db.difficulty g) (Db.is_ai_game g))
               gameId (Db.games d))
        (Db.game_players d) (Db.game_moves d).
Definition playersOf (gameId : string) (d : Db.t)
  : list (Db.GamePlayerRow * option string) :=
  List.map (λ r, (r, Db.users d !! Db.gp_user_id r))
           (Db.indexOrder (List.filter (Db.inGame gameId) (Db.game_players d))).

(** The game object that an accepted [joinGame] starts from: the registered
    one, or the one rebuilt from the database (after the joiner's row was
    inserted). *)
Definition entered (gameId userId : string) (r1 r2 : Q) (now : Z)
    (game : Db.GameRow) (w : World) : GameState.t :=
  match games w !! gameId with
  | Some gs => gs
  | None =>
      GameService.reconstruct gameId game
        (playersOf gameId (withPlayer gameId userId false (db w))) r1 r2 now
  end.

(** The ball that a paddle at [paddleY] returns from its collision plane. *)
Definition returnedFrom (plane paddleY : Q) (b : Ball.t) : Ball.t :=
  Ball.mk plane (Ball.y b) (- Ball.velocityX b)
          (Ball.velocityY b + (Ball.y b - paddleY) * 2)
          (Ball.speed b * (105#100))%Q.

(** * Verification *)

(** ** Facts on the number helpers *)

Module JsFacts.
Local Open Scope Q_scope.
Import Js.

Lemma Qltb_true a b : Qltb a b = true ↔ a < b.
Proof.
  unfold Qltb. rewrite negb_true_iff.
  split; intros H.
  - apply Qnot_le_lt. intros Hle. apply Qle_bool_iff in Hle. congruence.
  - destruct (Qle_bool b a) eqn:E; [|done].
    apply Qle_bool_iff in E. exfalso. apply (Qlt_not_le _ _ H E).
Qed.

Lemma Qltb_false a b : Qltb a b = false ↔ b <= a.
Proof.
  unfold Qltb. rewrite negb_false_iff. apply Qle_bool_iff.
Qed.

Lemma Qgtb_true a b : Qgtb a b = true ↔ b < a.
Proof. apply (Qltb_true b a). Qed.

Lemma Qgtb_false a b : Qgtb a b = false ↔ a <= b.
Proof. apply (Qltb_false b a). Qed.

Lemma Qgeb_true a b : Qgeb a b = true ↔ b <= a.
Proof. apply Qle_bool_iff. Qed.

Lemma Qle_bool_false a b : Qle_bool a b = false ↔ b < a.
Proof.
  rewrite <- (Qltb_true b a). unfold Qltb.
  destruct (Qle_bool a b); simpl; split; congruence.
Qed.

Lemma Qgeb_false a b : Qgeb a b = false ↔ a < b.
Proof. apply Qle_bool_false. Qed.

Lemma max_cases a b : (a <= b ∧ max a b = b) ∨ (b < a ∧ max a b = a).
Proof.
  unfold max. destruct (Qle_bool a b) eqn:E.
  - left. split; [by apply Qle_bool_iff | done].
  - right. split; [by apply Qle_bool_false | done].
Qed.

Lemma min_cases a b : (a <= b ∧ min a b = a) ∨ (b < a ∧ min a b = b).
Proof.
  unfold min. destruct (Qle_bool a b) eqn:E.
  - left. split; [by apply Qle_bool_iff | done].
  - right. split; [by apply Qle_bool_false | done].
Qed.

(** [Math.max(lo, Math.min(hi, v))] lands in the interval. *)
Lemma clamp_range lo hi v : lo <= hi → lo <= max lo (min hi v) <= hi.
Proof.
  intros Hlh.
  destruct (min_cases hi v) as [[? ->]|[? ->]];
    [destruct (max_cases lo hi) as [[? ->]|[? ->]]
    |destruct (max_cases lo v) as [[? ->]|[? ->]]]; lra.
Qed.

(** ... and leaves a value of the interval where it is. *)
Lemma clamp_id lo hi v : lo <= v <= hi → max lo (min hi v) == v.
Proof.
  intros [H1 H2].
  destruct (min_cases hi v) as [[? ->]|[? ->]];
    [destruct (max_cases lo hi) as [[? ->]|[? ->]]
    |destruct (max_cases lo v) as [[? ->]|[? ->]]]; lra.
Qed.

Lemma abs_cases a : (0 <= a ∧ abs a = a) ∨ (a < 0 ∧ abs a = - a).
Proof.
  unfold abs. destruct (Qle_bool 0 a) eqn:E.
  - left. split; [by apply Qle_bool_iff | done].
  - right. split; [by apply Qle_bool_false | done].
Qed.

Lemma sign_cases a :
  (0 < a ∧ sign a = 1) ∨ (a < 0 ∧ sign a = -1) ∨ (a == 0 ∧ sign a = 0).
Proof.
  unfold sign. destruct (Qltb 0 a) eqn:E1.
  - left. split; [by apply Qltb_true | done].
  - apply Qltb_false in E1. destruct (Qltb a 0) eqn:E2.
    + right; left. split; [by apply Qltb_true | done].
    + apply Qltb_false in E2. right; right. split; [lra | done].
Qed.

Lemma sign_opp a : sign (- a) == - sign a.
Proof.
  destruct (sign_cases a) as [[H ->]|[[H ->]|[H ->]]];
    destruct (sign_cases (- a)) as [[H' ->]|[[H' ->]|[H' ->]]]; lra.
Qed.

End JsFacts.

(** ** Facts on the order of the primary-key index *)

Section IndexOrder.

Lemma length_insertRow r l : length (Db.insertRow r l) = S (length l).
Proof.
  induction l as [|x l IH]; [done|]. cbn [Db.insertRow].
  destruct (Db.userIdLe r x); cbn [length]; congruence.
Qed.

Lemma length_indexOrder l : length (Db.indexOrder l) = length l.
Proof.
  induction l as [|x l IH]; [done|]. cbn [Db.indexOrder foldr].
  fold (Db.indexOrder l). by rewrite length_insertRow, IH.
Qed.

Lemma insertRow_Permutation r l : Db.insertRow r l ≡ₚ r :: l.
Proof.
  induction l as [|x l IH]; [done|]. cbn [Db.insertRow].
  destruct (Db.userIdLe r x); [done|]. rewrite IH. apply Permutation_swap.
Qed.

Lemma indexOrder_Permutation l : Db.indexOrder l ≡ₚ l.
Proof.
  induction l as [|x l IH]; [done|]. cbn [Db.indexOrder foldr].
  fold (Db.indexOrder l). by rewrite insertRow_Permutation, IH.
Qed.

Lemma insertRow_Sorted r l :
  Sorted (λ a b, Db.userIdLe a b = true) l →
  Sorted (λ a b, Db.userIdLe a b = true) (Db.insertRow r l).
Proof.
  induction 1 as [|x l Hl IH Hx]; cbn [Db.insertRow].
  - by repeat constructor.
  - destruct (Db.userIdLe r x) eqn:E.
    + by repeat constructor.
    + constructor; [done|].
      assert (Hxr : Db.userIdLe x r = true).
      { unfold Db.userIdLe in *.
        destruct (String.leb_total (Db.gp_user_id r) (Db.gp_user_id x));
          congruence. }
      destruct Hx as [|y l' Hy]; cbn [Db.insertRow]; [by constructor|].
      destruct (Db.userIdLe r y); by constructor.
Qed.

Lemma indexOrder_Sorted l :
  Sorted (λ a b, Db.userIdLe a b = true) (Db.indexOrder l).
Proof.
  induction l as [|x l IH]; [constructor|]. cbn [Db.indexOrder foldr].
  by apply insertRow_Sorted.
Qed.

End IndexOrder.

(** ** Facts on references into the roster *)

Section Roster.
Implicit Types (P : GamePlayer.t → bool) (l : list GamePlayer.t).

Lemma findIndex_nil P : findIndex P [] = None.
Proof. reflexivity. Qed.

Lemma findIndex_cons P p l :
  findIndex P (p :: l) = if P p then Some 0%nat else S <$> findIndex P l.
Proof.
  unfold findIndex. cbn [list_find].
  destruct (P p) eqn:E; case_decide; try congruence; [done|].
  destruct (list_find _ l) as [[i q]|]; done.
Qed.

Lemma findIndex_Some P l i :
  findIndex P l = Some i →
  ∃ p, l !! i = Some p ∧ P p = true ∧
       ∀ j q, (j < i)%nat → l !! j = Some q → P q = false.
Proof.
  revert i. induction l as [|p l IH]; intros i; [done|].
  rewrite findIndex_cons. destruct (P p) eqn:E.
  - intros [= <-]. exists p. split_and!; [done..|]. intros; lia.
  - destruct (findIndex P l) as [k|] eqn:Ek; [|done].
    intros [= <-]. destruct (IH k eq_refl) as (q & Hq & HP & Hmin).
    exists q. split_and!; [done..|].
    intros [|j] q' Hj Hl; simpl in Hl; [congruence|].
    apply (Hmin j); [lia|done].
Qed.

Lemma findIndex_None P l :
  findIndex P l = None → ∀ p, p ∈ l → P p = false.
Proof.
  induction l as [|q l IH]; intros H p Hp; [by apply elem_of_nil in Hp|].
  rewrite findIndex_cons in H. destruct (P q) eqn:E; [done|].
  destruct (findIndex P l) eqn:Ek; [done|].
  apply elem_of_cons in Hp as [->|Hp]; [done|by apply IH].
Qed.

(** A mutation that does not touch what [find] tests leaves the reference
    where it was. *)
Lemma findIndex_alter P f j l :
  (∀ p, P (f p) = P p) → findIndex P (alter f j l) = findIndex P l.
Proof.
  intros Hf. revert j. induction l as [|p l IH]; intros [|j]; try done.
  - cbn [alter list_alter]. rewrite !findIndex_cons, Hf. done.
  - cbn [alter list_alter]. rewrite !findIndex_cons.
    change (list_alter f j l) with (alter f j l). by rewrite IH.
Qed.

Lemma findIndex_app_l P l l' i :
  findIndex P l = Some i → findIndex P (l ++ l') = Some i.
Proof.
  revert i. induction l as [|p l IH]; intros i; [done|].
  rewrite <- app_comm_cons, !findIndex_cons. destruct (P p); [done|].
  destruct (findIndex P l) as [k|]; [|done].
  intros [= <-]. by rewrite (IH k).
Qed.

Lemma roster_lookup_alter (f : GamePlayer.t → GamePlayer.t) j l i p :
  alter f j l !! i = Some p →
  ∃ q, l !! i = Some q ∧ (p = q ∨ p = f q).
Proof.
  destruct (decide (j = i)) as [->|Hne].
  - rewrite list_lookup_alter_eq. destruct (l !! i) as [q|]; [|done].
    intros [= <-]. eauto.
  - rewrite list_lookup_alter_ne by done. eauto.
Qed.

End Roster.

(** ** The physics step *)

Module PhysicsFacts.
Local Open Scope Q_scope.
Import Js JsFacts Physics.

Lemma hitsWall_true b : hitsWall b = true ↔ Ball.y b <= 0 ∨ 1 <= Ball.y b.
Proof.
  unfold hitsWall. rewrite orb_true_iff, Qgeb_true, Qle_bool_iff. done.
Qed.

Lemma hitsWall_false b : hitsWall b = false ↔ 0 < Ball.y b ∧ Ball.y b < 1.
Proof.
  unfold hitsWall. rewrite orb_false_iff, Qgeb_false, Qle_bool_false. done.
Qed.

Lemma bounceWalls_y b : 0 <= Ball.y (bounceWalls b) <= 1.
Proof.
  unfold bounceWalls. destruct (hitsWall b) eqn:E.
  - cbn. apply clamp_range. lra.
  - apply hitsWall_false in E. lra.
Qed.

Lemma paddleBounce_y plane py b : Ball.y (paddleBounce plane py b) = Ball.y b.
Proof. unfold paddleBounce. by destruct (_ && _). Qed.

Lemma leftPaddle_y py b : Ball.y (leftPaddle py b) = Ball.y b.
Proof.
  unfold leftPaddle. destruct py; [|done].
  destruct (_ && _); [apply paddleBounce_y|done].
Qed.

Lemma rightPaddle_y py b : Ball.y (rightPaddle py b) = Ball.y b.
Proof.
  unfold rightPaddle. destruct py; [|done].
  destruct (_ && _); [apply paddleBounce_y|done].
Qed.

Lemma ballAtScoring_y gs : 0 <= Ball.y (ballAtScoring gs) <= 1.
Proof.
  unfold ballAtScoring. rewrite rightPaddle_y, leftPaddle_y.
  apply bounceWalls_y.
Qed.

(** Away from the two collision planes the paddles do nothing. *)
Lemma leftPaddle_far py b : 5#100 < Ball.x b → leftPaddle py b = b.
Proof.
  intros H. unfold leftPaddle. destruct py; [|done].
  apply Qle_bool_false in H. by rewrite H.
Qed.

Lemma rightPaddle_far py b : Ball.x b < 95#100 → rightPaddle py b = b.
Proof.
  intros H. unfold rightPaddle. destruct py; [|done].
  apply Qgeb_false in H. by rewrite H.
Qed.

Lemma checkGameEnd_ball l r gs :
  GameState.ball (checkGameEnd l r gs) = GameState.ball gs.
Proof. unfold checkGameEnd. by repeat destruct (reached _ _). Qed.

Lemma checkGameEnd_players l r gs :
  GameState.players (checkGameEnd l r gs) = GameState.players gs.
Proof. unfold checkGameEnd. by repeat destruct (reached _ _). Qed.

Lemma scoring_cases r l rt gs :
  let b := GameState.ball gs in
  (Ball.x b < 0 ∧ ∃ i, rt = Some i ∧
     scoring r l rt gs =
       resetBall r right
         (GameState.set_players (alter incScore i (GameState.players gs)) gs))
  ∨ (1 < Ball.x b ∧ ∃ i, l = Some i ∧
     scoring r l rt gs =
       resetBall r left
         (GameState.set_players (alter incScore i (GameState.players gs)) gs))
  ∨ scoring r l rt gs = gs.
Proof.
  intros b. unfold scoring. fold b.
  destruct (Qltb (Ball.x b) 0) eqn:E1.
  - apply Qltb_true in E1. destruct rt as [i|]; [|by right; right].
    left. eauto.
  - destruct (Qgtb (Ball.x b) 1) eqn:E2; [|by right; right].
    apply Qgtb_true in E2. destruct l as [i|]; [|by right; right].
    right; left. eauto.
Qed.

Lemma scoring_y r l rt gs :
  0 <= Ball.y (GameState.ball gs) <= 1 →
  0 <= Ball.y (GameState.ball (scoring r l rt gs)) <= 1.
Proof.
  intros H.
  destruct (scoring_cases r l rt gs) as [(_ & i & _ & ->)|[(_ & i & _ & ->)| ->]];
    cbn; lra.
Qed.

End PhysicsFacts.

Section PhysicsStep.
Local Open Scope Q_scope.
Import Js JsFacts Physics PhysicsFacts.

Lemma paddleBounce_cases plane py b :
  paddleBounce plane py b = b
  ∨ (py - (1#10) <= Ball.y b <= py + (1#10)
     ∧ paddleBounce plane py b = returnedFrom plane py b).
Proof.
  unfold paddleBounce.
  destruct (Qgeb (Ball.y b) (py - (1#10))) eqn:E1; [|by left].
  destruct (Qle_bool (Ball.y b) (py + (1#10))) eqn:E2; [|by left].
  right. apply Qgeb_true in E1. apply Qle_bool_iff in E2. done.
Qed.

Lemma paddleAt_Some players ref py :
  paddleAt players ref = Some py →
  ∃ i p, ref = Some i ∧ players !! i = Some p ∧ GamePlayer.paddleY p = py.
Proof.
  unfold paddleAt. destruct ref as [i|]; [|done]. cbn.
  destruct (players !! i) as [p|] eqn:E; [|done]. intros [= <-]. by exists i, p.
Qed.

(** The ball when the scoring test is reached is the ball after the wall
    bounce, or that ball returned by the left or by the right paddle. *)
Lemma ballAtScoring_cases gs :
  let players := GameState.players gs in
  let bw := bounceWalls (integrate (GameState.ball gs)) in
  ballAtScoring gs = bw
  ∨ ∃ i p plane,
      players !! i = Some p
      ∧ (plane = 5#100 ∧ findIndex (bySide left) players = Some i
         ∧ Ball.x bw <= 5#100 ∧ Ball.velocityX bw < 0
         ∨ plane = 95#100 ∧ findIndex (bySide right) players = Some i
           ∧ 95#100 <= Ball.x bw ∧ 0 < Ball.velocityX bw)
      ∧ GamePlayer.paddleY p - (1#10) <= Ball.y bw
        <= GamePlayer.paddleY p + (1#10)
      ∧ ballAtScoring gs = returnedFrom plane (GamePlayer.paddleY p) bw.
Proof.
  intros players bw. unfold ballAtScoring. fold players bw.
  assert (HL : leftPaddle (paddleAt players (findIndex (bySide left) players)) bw
               = bw
               ∨ ∃ i p, players !! i = Some p
                   ∧ findIndex (bySide left) players = Some i
                   ∧ Ball.x bw <= 5#100 ∧ Ball.velocityX bw < 0
                   ∧ GamePlayer.paddleY p - (1#10) <= Ball.y bw
                     <= GamePlayer.paddleY p + (1#10)
                   ∧ leftPaddle (paddleAt players
                                   (findIndex (bySide left) players)) bw
                     = returnedFrom (5#100) (GamePlayer.paddleY p) bw).
  { unfold leftPaddle.
    destruct (paddleAt players (findIndex (bySide left) players)) as [py|]
      eqn:Hpy; [|by left].
    destruct (Qle_bool (Ball.x bw) (5#100)) eqn:E1; [|by left].
    destruct (Qltb (Ball.velocityX bw) 0) eqn:E2; [|by left].
    cbn [andb]. apply Qle_bool_iff in E1. apply Qltb_true in E2.
    destruct (paddleBounce_cases (5#100) py bw) as [E|[Hwin E]]; rewrite E;
      [by left|].
    destruct (paddleAt_Some _ _ _ Hpy) as (i & p & Hi & Hp & <-).
    right. by exists i, p. }
  destruct HL as [E | (i & p & Hp & Hi & Hx & Hv & Hwin & E)]; rewrite E.
  - unfold rightPaddle.
    destruct (paddleAt players (findIndex (bySide right) players)) as [py|]
      eqn:Hpy; [|by left].
    destruct (Qgeb (Ball.x bw) (95#100)) eqn:E1; [|by left].
    destruct (Qgtb (Ball.velocityX bw) 0) eqn:E2; [|by left].
    cbn [andb]. apply Qgeb_true in E1. apply Qgtb_true in E2.
    destruct (paddleBounce_cases (95#100) py bw) as [E'|[Hwin E']]; rewrite E';
      [by left|].
    destruct (paddleAt_Some _ _ _ Hpy) as (i & p & Hi & Hp & <-).
    right. exists i, p, (95#100). split; [done|]. split; [by right|]. done.
  - rewrite rightPaddle_far by (cbn; lra).
    right. exists i, p, (5#100). split; [done|]. split; [by left|]. done.
Qed.

(** C5 (amended).  Whatever the session state (so in particular when the
    ball's y is in [0,1]), the ball's y after [updateBallPhysics] is in
    [0,1].  When the integrated y is at or beyond a wall (y <= 0 or y >= 1)
    the wall bounce negates vy once, so its sign is flipped; when the
    integrated y is strictly inside, the wall bounce leaves vy alone.  The
    ball the step returns is the ball after the wall bounce (always so when
    the integrated x is strictly between the two paddle planes), or that ball
    returned by the paddle it reached within its window, with the spin
    (y - paddleY) * 2 added to the vy of the wall bounce, or, when the ball
    left the table and a point was given, the ball of the new serve. *)
Theorem step_keeps_y_in_court_and_wall_negates_vy_once
    (r : Q) (gs : GameState.t) :
  let players := GameState.players gs in
  let b0 := GameState.ball gs in
  let b1 := integrate b0 in
  let bw := bounceWalls b1 in
  let gs' := updateBallPhysics r gs in
  0 <= Ball.y (GameState.ball gs') <= 1
  ∧ (Ball.y b1 <= 0 ∨ 1 <= Ball.y b1 →
       Ball.velocityY bw = - Ball.velocityY b0
       ∧ sign (Ball.velocityY bw) == - sign (Ball.velocityY b0))
  ∧ (0 < Ball.y b1 ∧ Ball.y b1 < 1 → Ball.velocityY bw = Ball.velocityY b0)
  ∧ (5#100 < Ball.x b1 ∧ Ball.x b1 < 95#100 → GameState.ball gs' = bw)
  ∧ (GameState.ball gs' = bw
     ∨ (∃ i p plane,
          players !! i = Some p
          ∧ (plane = 5#100 ∧ findIndex (bySide left) players = Some i
             ∧ Ball.x bw <= 5#100 ∧ Ball.velocityX bw < 0
             ∨ plane = 95#100 ∧ findIndex (bySide right) players = Some i
               ∧ 95#100 <= Ball.x bw ∧ 0 < Ball.velocityX bw)
          ∧ GamePlayer.paddleY p - (1#10) <= Ball.y bw
            <= GamePlayer.paddleY p + (1#10)
          ∧ GameState.ball gs'
            = Ball.mk plane (Ball.y bw) (- Ball.velocityX bw)
                      (Ball.velocityY bw
                       + (Ball.y bw - GamePlayer.paddleY p) * 2)
                      (Ball.speed bw * (105#100)))
     ∨ (∃ vx, (Ball.x bw < 0 ∨ 1 < Ball.x bw)
              ∧ GameState.ball gs'
                = Ball.mk (1#2) (1#2) vx ((r - (1#2)) * (4#10)) 1)).
Proof.
  intros players b0 b1 bw gs'.
  assert (Hx : Ball.x bw = Ball.x b1).
  { unfold bw, bounceWalls. by destruct (hitsWall b1). }
  split; [|split; [|split; [|split]]].
  - unfold gs', updateBallPhysics. rewrite checkGameEnd_ball.
    apply scoring_y. cbn. apply ballAtScoring_y.
  - intros H. apply hitsWall_true in H. unfold bw, bounceWalls. rewrite H. cbn.
    split; [done|]. apply sign_opp.
  - intros H. apply hitsWall_false in H. unfold bw, bounceWalls. by rewrite H.
  - intros [H1 H2]. unfold gs', updateBallPhysics. rewrite checkGameEnd_ball.
    assert (Hb : ballAtScoring gs = bw).
    { unfold ballAtScoring. fold b0 b1 bw.
      rewrite leftPaddle_far by (rewrite Hx; done).
      rewrite rightPaddle_far by (rewrite Hx; done). done. }
    rewrite Hb.
    destruct (scoring_cases r (findIndex (bySide left) (GameState.players gs))
                (findIndex (bySide right) (GameState.players gs))
                (GameState.set_ball bw gs))
      as [(Hlt & _)|[(Hgt & _)| ->]]; [| |done].
    + change (Ball.x bw < 0) in Hlt. rewrite Hx in Hlt. lra.
    + change (1 < Ball.x bw) in Hgt. rewrite Hx in Hgt. lra.
  - unfold gs', updateBallPhysics. rewrite checkGameEnd_ball.
    destruct (ballAtScoring_cases gs)
      as [Hb | (i & p & plane & Hp & Hside & Hwin & Hb)];
      fold players b0 b1 bw in Hb |- *; rewrite Hb.
    + destruct (scoring_cases r (findIndex (bySide left) players)
                  (findIndex (bySide right) players) (GameState.set_ball bw gs))
        as [(Hlt & j & _ & ->)|[(Hgt & j & _ & ->)| ->]].
      * right; right. exists (-(6#10)). split; [by left|done].
      * right; right. exists (6#10). split; [by right|done].
      * by left.
    + right; left. exists i, p, plane. split; [done|]. split; [done|].
      split; [done|].
      destruct (scoring_cases r (findIndex (bySide left) players)
                  (findIndex (bySide right) players)
                  (GameState.set_ball
                     (returnedFrom plane (GamePlayer.paddleY p) bw) gs))
        as [(Hlt & _)|[(Hgt & _)| ->]]; [| |done].
      * exfalso. change (plane < 0) in Hlt.
        destruct Hside as [(-> & _)|(-> & _)]; lra.
      * exfalso. change (1 < plane) in Hgt.
        destruct Hside as [(-> & _)|(-> & _)]; lra.
Qed.


End PhysicsStep.

Section PhysicsStepExamples.
Local Open Scope Q_scope.
Import Physics.

Lemma step_keeps_y_in_court_and_wall_negates_vy_once_witness :
  let gs := Scenarios.duel Scenarios.ballAtTopWall in
  let b1 := integrate (GameState.ball gs) in
  Ball.y b1 <= 0
  ∧ Ball.velocityY (bounceWalls b1) = - Ball.velocityY (GameState.ball gs)
  ∧ GameState.ball (updateBallPhysics (1#2) gs) = bounceWalls b1.
Proof.
  intros gs b1.
  destruct (step_keeps_y_in_court_and_wall_negates_vy_once (1#2) gs)
    as (_ & Hflip & _ & Hfar & _).
  assert (Hy : Ball.y b1 <= 0) by (vm_compute; discriminate).
  split; [exact Hy|]. split.
  - apply Hflip. left. exact Hy.
  - apply Hfar. split; vm_compute; reflexivity.
Defined.

(** C5, as the claim states it, fails: the ball crosses y = 0 and reaches the
    left paddle in one step; the wall bounce turns vy from -0.12 into 0.12
    and the spin of the paddle, (0 - 0.1) * 2, makes it -0.08: after the step
    vy has the sign it had before. *)
Lemma wall_crossing_with_paddle_hit_keeps_sign_counterexample :
  let gs := Scenarios.duel Scenarios.ballAtWallAndPaddle in
  let b0 := GameState.ball gs in
  let b' := GameState.ball (updateBallPhysics (1#2) gs) in
  (0 <= Ball.y b0 <= 1) ∧ Ball.y (integrate b0) <= 0
  ∧ Ball.velocityY b0 == -(12#100) ∧ Ball.velocityY b' == -(8#100)
  ∧ ¬ (Js.sign (Ball.velocityY b') == - Js.sign (Ball.velocityY b0)).
Proof.
  cbv zeta. split; [split; vm_compute; discriminate|].
  split; [vm_compute; discriminate|].
  split; [vm_compute; reflexivity|]. split; [vm_compute; reflexivity|].
  vm_compute. discriminate.
Qed.



End PhysicsStepExamples.

(** ** Reasoning rules for the methods *)

Section Rules.
Context {A B : Type}.
Implicit Types (w : World).

Lemma wp_ret (a : A) Q w : Q (Returned a) w → wp (mret a) Q w.
Proof. done. Qed.

Lemma wp_throw msg (Q : Outcome A → World → Prop) w :
  Q (Thrown (Err msg)) w → wp (throw msg) Q w.
Proof. done. Qed.

Lemma wp_bind (m : Async A) (k : A → Async B) Q w :
  wp m (λ o w', match o with
                | Returned a => wp (k a) Q w'
                | Thrown e => Q (Thrown e) w'
                end) w →
  wp (m ≫= k) Q w.
Proof.
  unfold wp, mbind, Async_bind, bind. by destruct (m w) as [[a|e] w'].
Qed.

Lemma wp_mono (m : Async A) (Q Q' : Outcome A → World → Prop) w :
  (∀ o w', Q o w' → Q' o w') → wp m Q w → wp m Q' w.
Proof. unfold wp. auto. Qed.

(** A call on the database, whatever becomes of it. *)
Lemma wp_await_any (stmt : Db.t → option (A * Db.t)) Q w :
  (∀ w', sameMemory w w' → dbFaults w' = tail (dbFaults w) →
         Q (Thrown SqliteError) w' ∧ ∀ a, Q (Returned a) w') →
  wp (await stmt) Q w.
Proof.
  intros H. unfold wp, await.
  destruct (dbFaults w) as [|[] F] eqn:EF; cbn.
  - destruct (stmt (db w)) as [[a d]|]; cbn; apply H; done.
  - apply H; done.
  - destruct (stmt (db w)) as [[a d]|]; cbn; apply H; done.
Qed.

(** A call that is not made to reject and whose statement succeeds. *)
Lemma wp_await_run (stmt : Db.t → option (A * Db.t)) a d Q w :
  nextCallRuns w → stmt (db w) = Some (a, d) →
  Q (Returned a) (with_db d (with_dbFaults (tail (dbFaults w)) w)) →
  wp (await stmt) Q w.
Proof.
  unfold nextCallRuns, wp, await. intros HF -> HQ.
  destruct (dbFaults w) as [|[] F]; cbn in *; done.
Qed.

(** A call that rejects. *)
Lemma wp_await_fault (stmt : Db.t → option (A * Db.t)) Q w :
  hd false (dbFaults w) = true →
  Q (Thrown SqliteError) (with_dbFaults (tail (dbFaults w)) w) →
  wp (await stmt) Q w.
Proof.
  unfold wp, await. intros HF HQ.
  destruct (dbFaults w) as [|[] F]; cbn in *; done.
Qed.

End Rules.

Lemma wp_getWorld Q w : Q (Returned w) w → wp getWorld Q w.
Proof. done. Qed.

Lemma wp_update f Q w : Q (Returned tt) (f w) → wp (update f) Q w.
Proof. done. Qed.

Lemma wp_store gameId gs Q w :
  Q (Returned tt) (with_games (<[gameId := gs]>) w) →
  wp (GameService.store gameId gs) Q w.
Proof. done. Qed.

Lemma sameMemory_refl w : sameMemory w w.
Proof. by repeat split. Qed.

Lemma sameMemory_trans w1 w2 w3 :
  sameMemory w1 w2 → sameMemory w2 w3 → sameMemory w1 w3.
Proof.
  intros (?&?&?&?&?) (?&?&?&?&?). repeat split; congruence.
Qed.

(** The loop over the roster that writes the scores back only touches the
    database. *)
Lemma wp_forEach_await {X} (l : list X) (stmt : X → Db.t → option (unit * Db.t))
    (Q : Outcome unit → World → Prop) w :
  (∀ w', sameMemory w w' → Q (Thrown SqliteError) w' ∧ Q (Returned tt) w') →
  wp (forEach l (λ x, await (stmt x))) Q w.
Proof.
  revert w. induction l as [|x l IH]; intros w H.
  - apply wp_ret, H, sameMemory_refl.
  - cbn [forEach]. apply wp_bind, wp_await_any. intros w' Hw' _. split.
    + apply H, Hw'.
    + intros []. apply IH. intros w'' Hw''. apply H.
      by apply (sameMemory_trans _ w').
Qed.

Lemma wp_forEach_await_run {X} (l : list X)
    (stmt : X → Db.t → option (unit * Db.t))
    (Q : Outcome unit → World → Prop) w :
  dbFaults w = [] →
  (∀ x d, is_Some (stmt x d)) →
  (∀ w', sameMemory w w' → dbFaults w' = [] → Q (Returned tt) w') →
  wp (forEach l (λ x, await (stmt x))) Q w.
Proof.
  revert w. induction l as [|x l IH]; intros w HF Htot H.
  - apply wp_ret, H; [apply sameMemory_refl|done].
  - cbn [forEach]. apply wp_bind.
    destruct (Htot x (db w)) as [[[] d] Hd].
    eapply wp_await_run; [by unfold nextCallRuns; rewrite HF|exact Hd|].
    apply IH; [by cbn; rewrite HF|done|].
    intros w'' Hw'' HF''. apply H; [|done].
    destruct Hw'' as (?&?&?&?&?). by repeat split.
Qed.

(** ** The broadcast *)

Section Broadcast.
Import GameService.
Implicit Types (w : World) (l S : list Connection).

Lemma filter_setDelete (P : Connection → bool) c S :
  List.filter P (setDelete c S)
  = List.filter (λ c', negb (bool_decide (c' = c)) && P c') S.
Proof.
  unfold setDelete. induction S as [|c' S IH]; [done|]. cbn.
  destruct (bool_decide (c' = c)); cbn; [done|].
  destruct (P c'); by rewrite IH.
Qed.

Lemma foldl_trySend gameId message l w :
  let w' := foldl (trySend gameId message) w l in
  games w' = games w ∧ aiOpponents w' = aiOpponents w ∧ db w' = db w ∧
  dbFaults w' = dbFaults w ∧ brokenSockets w' = brokenSockets w ∧
  wire w' = wire w ++ List.map (attempt w message) l ∧
  gameConnections w'
  = alter (List.filter (kept w l)) gameId (gameConnections w).
Proof.
  revert w. induction l as [|c l IH]; intros w; cbn zeta.
  - cbn. rewrite app_nil_r. repeat split.
    apply map_eq. intros k. rewrite lookup_alter.
    case_decide; [subst k|done].
    destruct (gameConnections w !! gameId) as [S|]; [cbn|done]. f_equal.
    symmetry. induction S as [|x S IHS]; [done|].
    cbn. unfold kept at 1. rewrite bool_decide_eq_false_2 by apply not_elem_of_nil.
    cbn. by rewrite IHS.
  - cbn [foldl]. specialize (IH (trySend gameId message w c)). cbn zeta in IH.
    destruct IH as (Hg & Ha & Hd & Hf & Hb & Hw & Hc).
    assert (Hbr : brokenSockets (trySend gameId message w c) = brokenSockets w).
    { unfold trySend. by case_bool_decide. }
    assert (Hatt : attempt (trySend gameId message w c) message
                   = attempt w message).
    { unfold attempt. by rewrite Hbr. }
    assert (Hkept : kept (trySend gameId message w c) l = kept w l).
    { unfold kept. by rewrite Hbr. }
    assert (Hcons : ∀ c', bool_decide (c' ∈ c :: l)
                          = bool_decide (c' = c) || bool_decide (c' ∈ l)).
    { intros c'. rewrite <- bool_decide_or. apply bool_decide_ext, elem_of_cons. }
    rewrite Hg, Ha, Hd, Hf, Hb, Hw, Hc, Hatt, Hkept. clear Hg Ha Hd Hf Hb Hw Hc.
    unfold trySend. case_bool_decide as Hc; cbn.
    + repeat split.
      * rewrite <- app_assoc. cbn. unfold attempt at 2.
        by rewrite bool_decide_eq_true_2.
      * rewrite alter_alter_eq. apply alter_ext. intros S _. cbn.
        rewrite filter_setDelete. apply filter_ext. intros c'.
        unfold kept. rewrite Hcons.
        destruct (decide (c' = c)) as [->|Hne].
        -- rewrite (bool_decide_eq_true_2 (c = c)) by done. cbn.
           by rewrite (bool_decide_eq_true_2 (c ∈ brokenSockets w)).
        -- by rewrite (bool_decide_eq_false_2 (c' = c)).
    + repeat split.
      * rewrite <- app_assoc. cbn. unfold attempt at 2.
        by rewrite bool_decide_eq_false_2.
      * apply alter_ext. intros S _. apply filter_ext. intros c'.
        unfold kept. rewrite Hcons.
        destruct (decide (c' = c)) as [->|Hne].
        -- rewrite (bool_decide_eq_true_2 (c = c)) by done. cbn.
           rewrite (bool_decide_eq_false_2 (c ∈ brokenSockets w)) by done.
           by rewrite !andb_false_r.
        -- by rewrite (bool_decide_eq_false_2 (c' = c)).
Qed.

(** [broadcastGameState] never throws; it tries every registered socket once,
    in order, unregisters exactly those whose [send] threw, and touches
    nothing else. *)
Lemma broadcastGameState_spec gameId gs w :
  ∃ w', broadcastGameState gameId gs w = (Returned tt, w') ∧
    games w' = games w ∧ aiOpponents w' = aiOpponents w ∧ db w' = db w ∧
    dbFaults w' = dbFaults w ∧ brokenSockets w' = brokenSockets w ∧
    match gameConnections w !! gameId with
    | None => w' = w
    | Some connections =>
        wire w' = wire w
                  ++ List.map (attempt w (game_state_update gameId gs))
                              connections
        ∧ gameConnections w'
          = <[gameId := List.filter (alive w) connections]> (gameConnections w)
    end.
Proof.
  unfold broadcastGameState.
  destruct (gameConnections w !! gameId) as [connections|] eqn:E.
  - eexists. split; [done|].
    destruct (foldl_trySend gameId (game_state_update gameId gs) connections w)
      as (Hg & Ha & Hd & Hf & Hb & Hw & Hc).
    repeat split; try done.
    rewrite Hc. apply map_eq. intros k. rewrite lookup_alter, lookup_insert.
    case_decide; [subst k|done]. rewrite E. cbn. f_equal.
    clear. induction connections as [|c S IH]; [done|].
    assert (Hk : ∀ l x, x ∈ l → kept w l x = alive w x).
    { intros l x Hx. unfold kept, alive. by rewrite bool_decide_eq_true_2. }
    apply filter_ext_in. intros x Hx. apply Hk. by apply list_elem_of_In.
  - eexists. repeat split; done.
Qed.

Lemma wp_broadcastGameState gameId gs Q w :
  (∀ w', games w' = games w → aiOpponents w' = aiOpponents w →
         db w' = db w → dbFaults w' = dbFaults w →
         brokenSockets w' = brokenSockets w →
         match gameConnections w !! gameId with
         | None => w' = w
         | Some connections =>
             wire w' = wire w
                       ++ List.map (attempt w (game_state_update gameId gs))
                                   connections
             ∧ gameConnections w'
               = <[gameId := List.filter (alive w) connections]>
                   (gameConnections w)
         end →
         Q (Returned tt) w') →
  wp (broadcastGameState gameId gs) Q w.
Proof.
  intros H. unfold wp.
  destruct (broadcastGameState_spec gameId gs w)
    as (w' & -> & Hg & Ha & Hd & Hf & Hb & Hc).
  by apply H.
Qed.

End Broadcast.

Section BroadcastClaim.
Import GameService.

(** C8.  A broadcast to a game with registered sockets returns normally,
    whichever sends throw.  It attempts every registered socket, once each and
    in order (the wire gains exactly one attempt per socket); the game objects
    are untouched; afterwards the registered set is the old one without the
    sockets whose send threw (so a failing socket is gone and a working one is
    still there); and the next broadcast, whatever sockets are broken by then,
    again returns normally and attempts exactly the sockets that were kept,
    none of the removed ones. *)
Theorem broadcast_prunes_failed_sockets_and_returns
    (gameId : string) (gs gs2 : GameState.t) (broken2 : list Connection)
    (w : World) (connections : list Connection) :
  gameConnections w !! gameId = Some connections →
  ∃ w',
    broadcastGameState gameId gs w = (Returned tt, w')
    ∧ wire w' = wire w ++ List.map (attempt w (game_state_update gameId gs))
                                   connections
    ∧ games w' = games w
    ∧ gameConnections w' !! gameId = Some (List.filter (alive w) connections)
    ∧ (∀ c, c ∈ connections → c ∈ brokenSockets w →
            c ∉ List.filter (alive w) connections)
    ∧ (∀ c, c ∈ connections → c ∉ brokenSockets w →
            c ∈ List.filter (alive w) connections)
    ∧ ∃ w'',
        broadcastGameState gameId gs2 (with_brokenSockets broken2 w')
          = (Returned tt, w'')
        ∧ List.map target (drop (length (wire w')) (wire w''))
          = List.filter (alive w) connections.
Proof.
  intros Hc.
  destruct (broadcastGameState_spec gameId gs w)
    as (w' & Hrun & Hg & _ & _ & _ & _ & Hconn).
  rewrite Hc in Hconn. destruct Hconn as [Hwire Hset].
  exists w'. split; [done|]. split; [done|]. split; [done|].
  assert (Hkept : gameConnections w' !! gameId
                  = Some (List.filter (alive w) connections)).
  { rewrite Hset. apply lookup_insert_eq. }
  split; [done|]. split; [|split].
  - intros c _ Hb [_ Hal]%list_elem_of_In%filter_In.
    unfold alive in Hal. by rewrite bool_decide_eq_true_2 in Hal.
  - intros c Hin Hb. apply list_elem_of_In, filter_In.
    split; [by apply list_elem_of_In|].
    unfold alive. by rewrite bool_decide_eq_false_2.
  - destruct (broadcastGameState_spec gameId gs2 (with_brokenSockets broken2 w'))
      as (w'' & Hrun2 & _ & _ & _ & _ & _ & Hconn2).
    cbn [with_brokenSockets gameConnections wire] in Hconn2.
    rewrite Hkept in Hconn2. destruct Hconn2 as [Hwire2 _].
    exists w''. split; [done|].
    rewrite Hwire2, drop_app_length, map_map. cbn. apply map_id.
Qed.

Lemma broadcast_prunes_failed_sockets_and_returns_witness :
  ∃ w',
    broadcastGameState "game-a" (Scenarios.duel Scenarios.ballAtTopWall)
                       Scenarios.threeSockets = (Returned tt, w')
    ∧ List.map target (wire w') = [1; 2; 3]%nat
    ∧ gameConnections w' !! "game-a"%string = Some [1; 3]%nat.
Proof.
  destruct (broadcast_prunes_failed_sockets_and_returns
              "game-a" (Scenarios.duel Scenarios.ballAtTopWall)
              (Scenarios.duel Scenarios.ballAtTopWall) []
              Scenarios.threeSockets [1; 2; 3]%nat)
    as (w' & Hrun & Hwire & _ & Hset & _).
  { vm_compute. reflexivity. }
  exists w'. split; [exact Hrun|]. split.
  - rewrite Hwire. reflexivity.
  - etrans; [exact Hset|]. reflexivity.
Defined.

End BroadcastClaim.


Section JoinFull.
Import GameService.
Local Open Scope Z_scope.


End JoinFull.

(** A call on the database, by cases on the fault schedule and on the
    statement. *)
Lemma wp_await_cases {A} (stmt : Db.t → option (A * Db.t))
    (Q : Outcome A → World → Prop) w :
  (∀ w', sameMemory w w' → dbFaults w' = tail (dbFaults w) →
     match (if hd false (dbFaults w) then None else stmt (db w)) with
     | Some (a, d) => db w' = d → Q (Returned a) w'
     | None => db w' = db w → Q (Thrown SqliteError) w'
     end) →
  wp (await stmt) Q w.
Proof.
  intros H. unfold wp, await.
  destruct (dbFaults w) as [|[] F] eqn:EF; cbn in *.
  - destruct (stmt (db w)) as [[a d]|] eqn:Es; cbn;
      (apply H; [by repeat split|done..]).
  - apply H; [by repeat split|done..].
  - destruct (stmt (db w)) as [[a d]|] eqn:Es; cbn;
      (apply H; [by repeat split|done..]).
Qed.

(** The loop that writes the scores back: it only touches the database, and
    it throws only on a scheduled fault. *)
Lemma wp_forEach_updatePlayerScore gameId (l : list GamePlayer.t)
    (Q : Outcome unit → World → Prop) w :
  (∀ w', sameMemory w w' →
         (dbFaults w ≠ [] → Q (Thrown SqliteError) w')
         ∧ ((dbFaults w = [] → dbFaults w' = []) → Q (Returned tt) w')) →
  wp (forEach l (λ player,
        await (Db.updatePlayerScore gameId (GamePlayer.userId player)
                                    (GamePlayer.score player)))) Q w.
Proof.
  revert w. induction l as [|x l IH]; intros w H.
  - apply wp_ret, H; [apply sameMemory_refl|done].
  - cbn [forEach]. apply wp_bind, wp_await_cases. intros w' Hw' HF.
    destruct (hd false (dbFaults w)) eqn:Hhd; cbn; intros Hd.
    + apply H; [done|]. intros E. by rewrite E in Hhd.
    + apply IH. intros w'' Hw''.
      assert (Hm : sameMemory w w'') by (by eapply sameMemory_trans).
      split.
      * intros Hne. apply H; [done|]. intros E. apply Hne. by rewrite HF, E.
      * intros Hnil. apply H; [done|]. intros E. apply Hnil. by rewrite HF, E.
Qed.

(** ** [handlePlayerMove], step by step *)

Section Move.
Import GameService.

Lemma published_transfer gameId gs w0 w w' :
  gameConnections w = gameConnections w0 →
  brokenSockets w = brokenSockets w0 →
  wire w = wire w0 →
  published gameId gs w w' → published gameId gs w0 w'.
Proof.
  unfold published. intros Hc Hb Hw. rewrite Hc, Hw.
  destruct (gameConnections w0 !! gameId) as [connections|]; [|done].
  intros [H1 H2]. split.
  - rewrite H1. f_equal. apply map_ext. intros c. unfold attempt. by rewrite Hb.
  - rewrite H2. f_equal. apply filter_ext. intros c. unfold alive. by rewrite Hb.
Qed.

Lemma wp_broadcast_published gameId gs (Q : Outcome unit → World → Prop) w :
  (∀ w', games w' = games w → aiOpponents w' = aiOpponents w →
         db w' = db w → dbFaults w' = dbFaults w →
         brokenSockets w' = brokenSockets w →
         published gameId gs w w' → Q (Returned tt) w') →
  wp (broadcastGameState gameId gs) Q w.
Proof.
  intros H. apply wp_broadcastGameState. intros w' Hg Ha Hd Hf Hb Hc.
  apply H; try done. unfold published.
  destruct (gameConnections w !! gameId); [done|]. by subst w'.
Qed.

(** The end of [handlePlayerMove], from the physics step on. *)
Lemma wp_move_tail gameId rBall now gs2 (Q : Outcome unit → World → Prop) w :
  let gs3 := Physics.updateBallPhysics rBall gs2 in
  let gs4 := GameState.set_lastUpdate now gs3 in
  (∀ w', aiOpponents w' = aiOpponents w → brokenSockets w' = brokenSockets w →
     (dbFaults w ≠ [] → wire w' = wire w →
        gameConnections w' = gameConnections w →
        games w' = <[gameId := gs3]> (games w) → Q (Thrown SqliteError) w')
     ∧ (games w' = <[gameId := gs4]> (games w) →
        published gameId gs4 w w' → Q (Returned tt) w')) →
  wp (let gameState := Physics.updateBallPhysics rBall gs2 in
      store gameId gameState;;
      forEach (GameState.players gameState) (λ player,
        await (Db.updatePlayerScore gameId (GamePlayer.userId player)
                                    (GamePlayer.score player)));;
      let gameState := GameState.set_lastUpdate now gameState in
      store gameId gameState;;
      broadcastGameState gameId gameState) Q w.
Proof.
  intros gs3 gs4 H. cbn zeta. fold gs3. fold gs4.
  apply wp_bind, wp_store. apply wp_bind, wp_forEach_updatePlayerScore.
  intros w1 (Hg1 & Hc1 & Ha1 & Hb1 & Hw1). cbn in Hg1, Hc1, Ha1, Hb1, Hw1.
  split.
  - intros Hne. by apply H.
  - intros _. apply wp_bind, wp_store, wp_broadcast_published.
    intros w2 Hg2 Ha2 _ _ Hb2 Hpub. cbn in Hg2, Ha2, Hb2.
    apply H; [congruence..| |].
    + by rewrite Hg2, Hg1, insert_insert_eq.
    + by apply (published_transfer _ _ _ _ _ Hc1 Hb1 Hw1).
Qed.

Lemma handlePlayerMove_spec gameId userId paddleY timestamp rAi rBall now w gs :
  games w !! gameId = Some gs →
  wp (handlePlayerMove gameId userId paddleY timestamp rAi rBall now)
     (movePost gameId userId paddleY rAi rBall now w gs) w.
Proof.
  intros Hgs. unfold handlePlayerMove.
  apply wp_bind, wp_getWorld. rewrite Hgs.
  apply wp_bind, wp_await_cases. intros w1 Hm1 HF1.
  pose proof Hm1 as (Hg1 & Hc1 & Ha1 & Hb1 & Hw1).
  destruct (hd false (dbFaults w)) eqn:Hhd; cbn [Db.isUserInGame]; intros Hd1.
  { (* the membership query rejects *)
    split_and!; [done..| |left; split; [done|by left]].
    intros E. by rewrite E in Hhd. }
  destruct (existsb (Db.isRow gameId userId) (Db.game_players (db w)))
    eqn:Hmember; cbn [negb].
  2:{ apply wp_throw. split_and!; [done..|left; split; [done|right; by left]]. }
  case_bool_decide as Hactive; cbn [negb].
  2:{ apply wp_throw.
      split_and!; [done..|left; split; [done|right; right; done]]. }
  change (match findIndex (byUserId userId) (GameState.players gs) with
          | Some player => _ | None => gs end)
    with (afterPaddle userId paddleY gs).
  set (gs1 := afterPaddle userId paddleY gs).
  apply wp_bind, wp_store. apply wp_bind, wp_await_cases.
  intros w2 Hm2 HF2. pose proof Hm2 as (Hg2 & Hc2 & Ha2 & Hb2 & Hw2).
  cbn in Hg2, Hc2, Ha2, Hb2, Hw2.
  assert (Hnil : dbFaults w = [] → dbFaults w2 = []).
  { intros E. rewrite HF2. cbn. rewrite HF1, E. done. }
  destruct (hd false (dbFaults (with_games <[gameId:=gs1]> w1))) eqn:Hhd2;
    cbn [Db.recordGameMove]; intros Hd2.
  { (* recording the move rejects *)
    split_and!; [congruence..| |].
    - intros E. cbn in Hhd2. rewrite HF1, E in Hhd2. done.
    - right; left. split_and!; [done|done|done|congruence|congruence|].
      exists gs1. split; [by left|congruence]. }
  (* the end of the method, whatever the AI block made of the game *)
  assert (Htail : ∀ gs2 w3,
    gs2 = afterAi (aiOpponents w !! gameId) rAi gs1 →
    aiOpponents w3 = aiOpponents w → brokenSockets w3 = brokenSockets w →
    gameConnections w3 = gameConnections w → wire w3 = wire w →
    games w3 = <[gameId := gs2]> (games w) ∨ (gs2 = gs1 ∧ games w3 = <[gameId := gs1]> (games w)) →
    (dbFaults w = [] → dbFaults w3 = []) →
    wp (let gameState := Physics.updateBallPhysics rBall gs2 in
        store gameId gameState;;
        forEach (GameState.players gameState) (λ player,
          await (Db.updatePlayerScore gameId (GamePlayer.userId player)
                                      (GamePlayer.score player)));;
        let gameState := GameState.set_lastUpdate now gameState in
        store gameId gameState;;
        broadcastGameState gameId gameState)
       (movePost gameId userId paddleY rAi rBall now w gs) w3).
  { intros gs2 w3 -> Ha3 Hb3 Hc3 Hw3 Hg3 Hnil3.
    assert (Hg3' : ∀ x, <[gameId := x]> (games w3) = <[gameId := x]> (games w)).
    { intros x. destruct Hg3 as [-> | [_ ->]]; apply insert_insert_eq. }
    apply wp_move_tail. intros w4 Ha4 Hb4. split.
    - intros Hne Hw4 Hc4 Hg4. split_and!; [congruence..| |].
      + intros E _. by apply Hne, Hnil3.
      + right; left. split_and!; [done|done|done|congruence|congruence|].
        eexists. split; [right; right; reflexivity|]. by rewrite Hg4, Hg3'.
    - intros Hg4 Hpub. split_and!; [congruence..|done|].
      right; right. split_and!; [done|done|done|by rewrite Hg4, Hg3'|].
      by apply (published_transfer _ _ _ _ _ Hc3 Hb3 Hw3). }
  apply wp_bind. unfold afterAi in Htail.
  destruct (GameState.isAiGame gs1) eqn:Hisai.
  2:{ apply wp_ret. apply Htail; [done|congruence..|left; congruence|done]. }
  destruct (findIndex GamePlayer.isAi (GameState.players gs1)) as [aiPlayer|]
    eqn:Hfind.
  2:{ apply wp_ret. apply Htail; [done|congruence..|left; congruence|done]. }
  apply wp_bind, wp_getWorld. rewrite Ha2, Ha1.
  apply wp_bind, wp_store. apply wp_bind, wp_await_cases.
  intros w3 Hm3 HF3. pose proof Hm3 as (Hg3 & Hc3 & Ha3 & Hb3 & Hw3).
  cbn in Hg3, Hc3, Ha3, Hb3, Hw3.
  cbn [dbFaults with_games].
  destruct (hd false (dbFaults w2)) eqn:Hhd3; cbn [Db.recordGameMove]; intros Hd3.
  { (* recording the AI's move rejects *)
    split_and!; [congruence..| |].
    - intros E. cbn in Hhd3. rewrite (Hnil E) in Hhd3. done.
    - right; left. split_and!; [done|done|done|congruence|congruence|].
      eexists. split; [right; left; reflexivity|].
      unfold afterAi. fold gs1. rewrite Hisai, Hfind, Hg3, Hg2, Hg1.
      apply insert_insert_eq. }
  apply wp_ret. apply Htail; [done|congruence..| |].
  - left. rewrite Hg3, Hg2, Hg1. apply insert_insert_eq.
  - intros E. rewrite HF3. cbn. by rewrite (Hnil E).
Qed.

End Move.

(** ** What the steps of a move do to the roster *)

Section MoveSteps.
Import GameService.
Local Open Scope Q_scope.

Lemma calculateAIMove_range aiConfig ball r :
  1#10 <= AI.calculateAIMove aiConfig ball r <= 9#10.
Proof.
  unfold AI.calculateAIMove. destruct aiConfig; [|lra].
  apply JsFacts.clamp_range. lra.
Qed.

Lemma clampPaddle_range paddleY : 1#10 <= clampPaddle paddleY <= 9#10.
Proof. apply JsFacts.clamp_range. lra. Qed.

Lemma updateBallPhysics_players r gs :
  GameState.players (Physics.updateBallPhysics r gs) = GameState.players gs
  ∨ ∃ i, GameState.players (Physics.updateBallPhysics r gs)
         = alter incScore i (GameState.players gs).
Proof.
  unfold Physics.updateBallPhysics.
  rewrite PhysicsFacts.checkGameEnd_players.
  destruct (PhysicsFacts.scoring_cases r
              (findIndex (bySide left) (GameState.players gs))
              (findIndex (bySide right) (GameState.players gs))
              (GameState.set_ball (Physics.ballAtScoring gs) gs))
    as [(_ & i & _ & ->)|[(_ & i & _ & ->)| ->]]; cbn; eauto.
Qed.

Lemma afterPaddle_players userId paddleY gs :
  GameState.players (afterPaddle userId paddleY gs) = GameState.players gs
  ∨ ∃ i, GameState.players (afterPaddle userId paddleY gs)
         = alter (GamePlayer.set_paddleY (clampPaddle paddleY)) i
                 (GameState.players gs).
Proof. unfold afterPaddle. destruct (findIndex _ _); cbn; eauto. Qed.

Lemma afterAi_players aiConfig rAi gs :
  GameState.players (afterAi aiConfig rAi gs) = GameState.players gs
  ∨ ∃ i v, GameState.players (afterAi aiConfig rAi gs)
           = alter (GamePlayer.set_paddleY v) i (GameState.players gs).
Proof.
  unfold afterAi. destruct (GameState.isAiGame gs); [|by left].
  destruct (findIndex _ _); cbn; eauto.
Qed.

Ltac roster_simpl :=
  cbn [GameState.players GameState.set_players GamePlayer.userId
       GamePlayer.paddleY GamePlayer.isAi GamePlayer.score GamePlayer.side
       GamePlayer.set_paddleY GamePlayer.set_score incScore].

(** *** The stored paddle *)

Lemma paddleStored_afterPaddle userId paddleY gs i :
  findIndex (byUserId userId) (GameState.players gs) = Some i →
  paddleStored userId (clampPaddle paddleY) (afterPaddle userId paddleY gs).
Proof.
  intros Hi. unfold afterPaddle. rewrite Hi.
  destruct (findIndex_Some _ _ _ Hi) as (p & Hp & Hu & _).
  apply bool_decide_eq_true in Hu.
  exists i, (GamePlayer.set_paddleY (clampPaddle paddleY) p). roster_simpl.
  split; [by rewrite findIndex_alter|].
  split; [by rewrite list_lookup_alter_eq, Hp|].
  split; [done|]. split; [apply clampPaddle_range|done].
Qed.

Lemma paddleStored_alter_score userId v gs j :
  paddleStored userId v gs →
  paddleStored userId v
    (GameState.set_players (alter incScore j (GameState.players gs)) gs).
Proof.
  intros (i & pl & Hi & Hpl & Hu & Hr & Hv). roster_simpl.
  destruct (decide (j = i)) as [->|Hne].
  - exists i, (incScore pl). roster_simpl.
    split; [by rewrite findIndex_alter|].
    split; [by rewrite list_lookup_alter_eq, Hpl|done].
  - exists i, pl. roster_simpl.
    split; [by rewrite findIndex_alter|].
    split; [by rewrite list_lookup_alter_ne|done].
Qed.

Lemma paddleStored_ext userId v gs gs' :
  GameState.players gs' = GameState.players gs →
  paddleStored userId v gs → paddleStored userId v gs'.
Proof. unfold paddleStored. by intros ->. Qed.

Lemma paddleStored_afterAi userId v aiConfig rAi gs :
  paddleStored userId v gs → paddleStored userId v (afterAi aiConfig rAi gs).
Proof.
  intros H. unfold afterAi. destruct (GameState.isAiGame gs); [|done].
  destruct (findIndex GamePlayer.isAi (GameState.players gs)) as [j|] eqn:Hj;
    [|done].
  destruct H as (i & pl & Hi & Hpl & Hu & Hr & Hv).
  destruct (findIndex_Some _ _ _ Hj) as (q & Hq & Hai & _).
  destruct (decide (j = i)) as [->|Hne].
  - assert (q = pl) as -> by congruence.
    eexists i, _. roster_simpl. split; [by rewrite findIndex_alter|].
    split; [by rewrite list_lookup_alter_eq, Hpl|]. roster_simpl.
    split; [done|]. split; [apply calculateAIMove_range|].
    intros E. congruence.
  - exists i, pl. roster_simpl. split; [by rewrite findIndex_alter|].
    split; [by rewrite list_lookup_alter_ne|done].
Qed.

Lemma paddleStored_updateBallPhysics userId v r gs :
  paddleStored userId v gs →
  paddleStored userId v (Physics.updateBallPhysics r gs).
Proof.
  intros H. destruct (updateBallPhysics_players r gs) as [E|[j E]].
  - by apply (paddleStored_ext _ _ gs).
  - apply (paddleStored_ext _ _
             (GameState.set_players (alter incScore j (GameState.players gs)) gs));
      [done|]. by apply paddleStored_alter_score.
Qed.

(** *** The scores *)

Lemma scoresGrow_refl ps : scoresGrow ps ps.
Proof. split; [done|]. intros i p Hp. exists p. split_and!; [done..|lia]. Qed.

Lemma scoresGrow_trans ps1 ps2 ps3 :
  scoresGrow ps1 ps2 → scoresGrow ps2 ps3 → scoresGrow ps1 ps3.
Proof.
  intros [L1 H1] [L2 H2]. split; [congruence|].
  intros i p Hp. destruct (H1 i p Hp) as (p' & Hp' & ? & ? & ?).
  destruct (H2 i p' Hp') as (p'' & Hp'' & ? & ? & ?).
  exists p''. split_and!; [done|congruence..|lia].
Qed.

Lemma scoresGrow_alter f j ps :
  (∀ p, GamePlayer.userId (f p) = GamePlayer.userId p
        ∧ GamePlayer.side (f p) = GamePlayer.side p
        ∧ (GamePlayer.score p ≤ GamePlayer.score (f p))%Z) →
  scoresGrow ps (alter f j ps).
Proof.
  intros Hf. split; [apply length_alter|]. intros i p Hp.
  destruct (decide (j = i)) as [->|Hne].
  - exists (f p). rewrite list_lookup_alter_eq, Hp. split; [done|apply Hf].
  - exists p. rewrite list_lookup_alter_ne by done. split_and!; [done..|lia].
Qed.

Lemma scoresGrow_updateBallPhysics r gs :
  scoresGrow (GameState.players gs)
             (GameState.players (Physics.updateBallPhysics r gs)).
Proof.
  destruct (updateBallPhysics_players r gs) as [-> | [j ->]].
  - apply scoresGrow_refl.
  - apply scoresGrow_alter. intros p. cbn. split_and!; [done..|lia].
Qed.

Lemma scoresGrow_afterPaddle userId paddleY gs :
  scoresGrow (GameState.players gs)
             (GameState.players (afterPaddle userId paddleY gs)).
Proof.
  destruct (afterPaddle_players userId paddleY gs) as [-> | [j ->]].
  - apply scoresGrow_refl.
  - apply scoresGrow_alter. intros p. cbn. split_and!; [done..|lia].
Qed.

Lemma scoresGrow_afterAi aiConfig rAi gs :
  scoresGrow (GameState.players gs)
             (GameState.players (afterAi aiConfig rAi gs)).
Proof.
  destruct (afterAi_players aiConfig rAi gs) as [-> | (j & v & ->)].
  - apply scoresGrow_refl.
  - apply scoresGrow_alter. intros p. cbn. split_and!; [done..|lia].
Qed.

End MoveSteps.

Section MoveClaims.
Import GameService.
Local Open Scope Q_scope.

Lemma handlePlayerMove_result gameId userId paddleY timestamp rAi rBall now w gs :
  games w !! gameId = Some gs →
  movePost gameId userId paddleY rAi rBall now w gs
    (handlePlayerMove gameId userId paddleY timestamp rAi rBall now w).1
    (handlePlayerMove gameId userId paddleY timestamp rAi rBall now w).2.
Proof. intros H. by apply handlePlayerMove_spec. Qed.

(** [Math.max(0.1, Math.min(0.9, paddleY))], value by value. *)
Lemma clampPaddle_below paddleY : paddleY < 1#10 → clampPaddle paddleY = 1#10.
Proof.
  intros H. unfold clampPaddle.
  destruct (JsFacts.min_cases (9#10) paddleY) as [[? ->]|[? ->]]; [lra|].
  destruct (JsFacts.max_cases (1#10) paddleY) as [[? ->]|[? ->]]; [lra|done].
Qed.

Lemma clampPaddle_above paddleY : 9#10 < paddleY → clampPaddle paddleY = 9#10.
Proof.
  intros H. unfold clampPaddle.
  destruct (JsFacts.min_cases (9#10) paddleY) as [[? ->]|[? ->]]; [|lra].
  reflexivity.
Qed.

Lemma clampPaddle_within paddleY :
  1#10 <= paddleY <= 9#10 → clampPaddle paddleY == paddleY.
Proof. intros H. by apply JsFacts.clamp_id. Qed.

Lemma handlePlayerMove_stores_clamped
    (gameId userId : string) (paddleY : Q) (timestamp : option Z)
    (rAi rBall : Q) (now : Z) (w : World) (gs : GameState.t) :
  games w !! gameId = Some gs →
  GameState.status gs = active →
  existsb (Db.isRow gameId userId) (Db.game_players (db w)) = true →
  is_Some (findIndex (byUserId userId) (GameState.players gs)) →
  nextCallRuns w →
  let r := handlePlayerMove gameId userId paddleY timestamp rAi rBall now w in
  (∃ gs', games r.2 !! gameId = Some gs'
          ∧ paddleStored userId (clampPaddle paddleY) gs')
  ∧ (dbFaults w = [] → r.1 = Returned tt).
Proof.
  intros Hgs Hactive Hmember [i Hi] Hruns r.
  pose proof (handlePlayerMove_result gameId userId paddleY timestamp rAi rBall
                now w gs Hgs) as (_ & _ & Hnofault & Hcases).
  fold r in Hnofault, Hcases. unfold nextCallRuns in Hruns.
  pose proof (paddleStored_afterPaddle userId paddleY gs i Hi) as H1.
  pose proof (paddleStored_afterAi userId _ (aiOpponents w !! gameId) rAi _ H1)
    as H2.
  pose proof (paddleStored_updateBallPhysics userId _ rBall _ H2) as H3.
  destruct Hcases as [[_ Hc]|[Hc|Hc]].
  - destruct Hc as [[_ E]|[[_ E]|(_ & _ & E)]]; congruence.
  - destruct Hc as (_ & _ & Ho & _ & _ & gs' & Hgs' & Hg).
    split.
    + exists gs'. rewrite Hg, lookup_insert_eq. split; [done|].
      by destruct Hgs' as [-> | [-> | ->]].
    + intros E. by destruct (Hnofault E).
  - destruct Hc as (_ & _ & Ho & Hg & _).
    split; [|done].
    eexists. rewrite Hg, lookup_insert_eq. split; [done|].
    by apply (paddleStored_ext _ _ _ _ eq_refl) in H3.
Qed.

(** C6.  A participant of an active game sends a move with any rational
    paddle value: the caller has a row in [game_players] (the membership test
    of the code) and an entry in the roster, and the membership query is
    answered.  Then, whatever else happens in the call (even if a later
    database call rejects), the game is still registered and the roster
    entry of the caller holds a paddle position in [0.1, 0.9]; if the entry
    is a human's, the position is 0.1 for an input below 0.1, 0.9 for an
    input above 0.9, and the input itself for an input of [0.1, 0.9].  With
    no database fault the call returns normally: an out-of-range value is
    clamped, not rejected. *)
Theorem move_stores_paddle_in_range
    (gameId userId : string) (paddleY : Q) (timestamp : option Z)
    (rAi rBall : Q) (now : Z) (w : World) (gs : GameState.t) :
  games w !! gameId = Some gs →
  GameState.status gs = active →
  existsb (Db.isRow gameId userId) (Db.game_players (db w)) = true →
  is_Some (findIndex (byUserId userId) (GameState.players gs)) →
  nextCallRuns w →
  let r := handlePlayerMove gameId userId paddleY timestamp rAi rBall now w in
  (∃ gs' i pl, games r.2 !! gameId = Some gs'
      ∧ findIndex (byUserId userId) (GameState.players gs') = Some i
      ∧ GameState.players gs' !! i = Some pl
      ∧ GamePlayer.userId pl = userId
      ∧ 1#10 <= GamePlayer.paddleY pl <= 9#10
      ∧ (GamePlayer.isAi pl = false →
           (paddleY < 1#10 → GamePlayer.paddleY pl = 1#10)
           ∧ (1#10 <= paddleY <= 9#10 → GamePlayer.paddleY pl == paddleY)
           ∧ (9#10 < paddleY → GamePlayer.paddleY pl = 9#10)))
  ∧ (dbFaults w = [] → r.1 = Returned tt).
Proof.
  intros Hgs Hactive Hmember Hi Hruns r.
  destruct (handlePlayerMove_stores_clamped gameId userId paddleY timestamp
              rAi rBall now w gs Hgs Hactive Hmember Hi Hruns)
    as [(gs' & Hgs' & i & pl & Hfind & Hpl & Hu & Hrange & Hv) Hret].
  split; [|exact Hret].
  exists gs', i, pl. split; [done|]. split; [done|]. split; [done|].
  split; [done|]. split; [done|].
  intros Hhuman. rewrite (Hv Hhuman). split; [|split].
  - apply clampPaddle_below.
  - apply clampPaddle_within.
  - apply clampPaddle_above.
Qed.

Lemma move_stores_paddle_in_range_witness :
  let w := run Scenarios.fullGame emptyWorld in
  let r := handlePlayerMove "game-a" "u1" 5 None (1#2) (1#2) 3 w in
  (∃ gs' i pl, games r.2 !! "game-a"%string = Some gs'
      ∧ findIndex (byUserId "u1") (GameState.players gs') = Some i
      ∧ GameState.players gs' !! i = Some pl
      ∧ (GamePlayer.isAi pl = false → GamePlayer.paddleY pl = 9#10))
  ∧ r.1 = Returned tt.
Proof.
  intros w r.
  destruct (move_stores_paddle_in_range "game-a" "u1" 5 None (1#2) (1#2) 3 w
              (GameState.mk "game-a"
                 [GamePlayer.mk "u1" "alice" (1#2) 0 false left;
                  GamePlayer.mk "u2" "bob" (1#2) 0 false right]
                 (Physics.initializeBall (1#2) (1#2)) active false 2 None
                 false None 1 11 (Some 1%Z)))
    as [(gs' & i & pl & Hgs' & Hfind & Hpl & _ & _ & Hv) Hret].
  - vm_compute. reflexivity.
  - reflexivity.
  - vm_compute. reflexivity.
  - exists 0%nat. vm_compute. reflexivity.
  - reflexivity.
  - split; [|apply Hret; reflexivity].
    exists gs', i, pl. split; [exact Hgs'|]. split; [exact Hfind|].
    split; [exact Hpl|].
    intros Hhuman. apply (Hv Hhuman). vm_compute. reflexivity.
Defined.





End MoveClaims.

(** ** The synthetic opponent *)

Section SyntheticOpponent.
Local Open Scope Q_scope.
Import Js JsFacts.

(** The paddle position that [calculateAIMove] returns is within the
    per-step displacement [speed * 0.02] of the constant 0.5, whatever the
    ball and the noise. *)
Lemma calculateAIMove_near_centre aiConfig ball r :
  0 <= AIOpponent.speed aiConfig →
  let maxMove := AIOpponent.speed aiConfig * (2#100) in
  (1#2) - maxMove <= AI.calculateAIMove (Some aiConfig) ball r
    <= (1#2) + maxMove.
Proof.
  intros Hs maxMove. unfold AI.calculateAIMove, AI.currentY. fold maxMove.
  set (diff := AI.predictedY ball + _ - (1#2)).
  assert (Hmove : - maxMove <= sign diff * min (abs diff) maxMove <= maxMove).
  { assert (0 <= maxMove) by (unfold maxMove; nra).
    destruct (abs_cases diff) as [[? ->]|[? ->]];
      destruct (sign_cases diff) as [[? ->]|[[? ->]|[? ->]]];
      try lra;
      match goal with
      | |- context [min ?a ?b] =>
          destruct (min_cases a b) as [[? ->]|[? ->]]
      end; lra. }
  set (move := sign diff * min (abs diff) maxMove) in *.
  destruct (min_cases (9#10) ((1#2) + move)) as [[? ->]|[? ->]];
    match goal with
    | |- context [max ?a ?b] => destruct (max_cases a b) as [[? ->]|[? ->]]
    end; lra.
Qed.

(** C2, evaluated on the code.  After [aiOnce] the roster stores the AI's
    paddle at 0.494.  On the next recomputation (easy tier: at most
    0.3 * 0.02 = 0.006 per step) the stored paddle becomes 0.506: it moved by
    0.012, twice the per-step displacement, because the movement starts from
    the constant 0.5 and not from the stored 0.494. *)
Theorem ai_move_starts_from_constant_not_stored_paddle :
  let w := run Scenarios.aiOnce emptyWorld in
  let w' := (perform Scenarios.aiSecondMove w).2 in
  ∃ before after,
    (List.map GamePlayer.paddleY <$> rosterOf "ai-game-a" w)
      = Some [1#2; before]
    ∧ (List.map GamePlayer.paddleY <$> rosterOf "ai-game-a" w')
      = Some [1#2; after]
    ∧ before == 494#1000 ∧ after == 506#1000
    ∧ AIOpponent.speed (AI.createAIOpponent easy) * (2#100) == 6#1000
    ∧ ¬ after - before <= 6#1000.
Proof.
  intros w w'. eexists _, _.
  split; [vm_compute; reflexivity|].
  split; [vm_compute; reflexivity|].
  split; [reflexivity|]. split; [reflexivity|]. split; [reflexivity|].
  vm_compute. intros H. apply H. reflexivity.
Qed.

End SyntheticOpponent.

(** ** [updateScore] and [leaveGame], step by step *)

Section ScoreAndLeave.
Import GameService.

(** [updateScore] on a registered game: the score is stored before the
    database is told; the call then stamps and broadcasts the game, unless the
    database rejected. *)
Lemma updateScore_spec gameId userId score now w gs :
  games w !! gameId = Some gs →
  wp (updateScore gameId userId score now)
     (λ o w',
        let gs1 := afterScore userId score gs in
        let gs2 := GameState.set_lastUpdate now gs1 in
        (o = Thrown SqliteError ∧ dbFaults w ≠ []
         ∧ games w' = <[gameId := gs1]> (games w) ∧ wire w' = wire w)
        ∨ (o = Returned tt ∧ games w' = <[gameId := gs2]> (games w)
           ∧ published gameId gs2 w w')) w.
Proof.
  intros Hgs. unfold updateScore.
  apply wp_bind, wp_getWorld. rewrite Hgs.
  assert (Hend : ∀ w1, sameMemory w w1 ∨
                       (games w1 = <[gameId := afterScore userId score gs]> (games w)
                        ∧ gameConnections w1 = gameConnections w
                        ∧ brokenSockets w1 = brokenSockets w
                        ∧ wire w1 = wire w) →
    wp (let gameState := GameState.set_lastUpdate now
                           (afterScore userId score gs) in
        store gameId gameState;; broadcastGameState gameId gameState)
       (λ o w',
          let gs1 := afterScore userId score gs in
          let gs2 := GameState.set_lastUpdate now gs1 in
          (o = Thrown SqliteError ∧ dbFaults w ≠ []
           ∧ games w' = <[gameId := gs1]> (games w) ∧ wire w' = wire w)
          ∨ (o = Returned tt ∧ games w' = <[gameId := gs2]> (games w)
             ∧ published gameId gs2 w w')) w1).
  { intros w1 Hw1. cbn zeta. apply wp_bind, wp_store.
    apply wp_broadcast_published. intros w2 Hg2 _ _ _ Hb2 Hpub.
    cbn in Hg2, Hb2. right. split; [done|].
    destruct Hw1 as [(Hg1 & Hc1 & _ & Hb1 & Hw1)|(Hg1 & Hc1 & Hb1 & Hw1)].
    - split; [by rewrite Hg2, Hg1|].
      by apply (published_transfer _ _ _ _ _ Hc1 Hb1 Hw1).
    - split; [by rewrite Hg2, Hg1, insert_insert_eq|].
      by apply (published_transfer _ _ _ _ _ Hc1 Hb1 Hw1). }
  apply wp_bind. unfold afterScore in *.
  destruct (findIndex (byUserId userId) (GameState.players gs)) as [player|].
  - apply wp_bind, wp_store. apply wp_bind, wp_await_cases.
    intros w1 (Hg1 & Hc1 & _ & Hb1 & Hw1) _. cbn in Hg1, Hc1, Hb1, Hw1.
    cbn [dbFaults with_games].
    destruct (hd false (dbFaults w)) eqn:Hhd;
      cbn [Db.updatePlayerScore]; intros _.
    + left. split_and!; [done| |done..]. intros E. by rewrite E in Hhd.
    + apply wp_ret. apply Hend. right. done.
  - apply wp_ret. apply Hend. left. apply sameMemory_refl.
Qed.

(** [leaveGame] on a registered game. *)
Lemma leaveGame_spec gameId userId now w gs :
  games w !! gameId = Some gs →
  wp (leaveGame gameId userId now)
     (λ o w',
        let gs1 := afterLeave userId gs in
        (o = Thrown SqliteError ∧ dbFaults w ≠ [] ∧ sameMemory w w')
        ∨ (deserted gs1 = true ∧ o = Thrown SqliteError ∧ dbFaults w ≠ []
           ∧ games w' = <[gameId := GameState.set_status finished gs1]> (games w)
           ∧ wire w' = wire w)
        ∨ (deserted gs1 = true ∧ o = Returned tt
           ∧ games w' = delete gameId (games w)
           ∧ gameConnections w' = delete gameId (gameConnections w)
           ∧ aiOpponents w' = delete gameId (aiOpponents w)
           ∧ wire w' = wire w
           ∧ Db.status <$> Db.games (db w') !! gameId
             = const finished <$> Db.games (db w) !! gameId)
        ∨ (deserted gs1 = false ∧ o = Returned tt
           ∧ games w' = <[gameId := GameState.set_lastUpdate now gs1]> (games w)
           ∧ published gameId (GameState.set_lastUpdate now gs1) w w')) w.
Proof.
  intros Hgs. unfold leaveGame.
  apply wp_bind, wp_getWorld. rewrite Hgs.
  apply wp_bind, wp_await_cases.
  intros w1 Hm1 HF1. pose proof Hm1 as (Hg1 & Hc1 & Ha1 & Hb1 & Hw1).
  destruct (hd false (dbFaults w)) eqn:Hhd;
    cbn [Db.removePlayerFromGame]; intros Hd1.
  { left. split_and!; [done| |done]. intros E. by rewrite E in Hhd. }
  change (GameState.set_players _ gs) with (afterLeave userId gs).
  set (gs1 := afterLeave userId gs).
  apply wp_bind, wp_store.
  change ((length (GameState.players gs1) =? 0)%nat || onlyAiLeft gs1)
    with (deserted gs1).
  destruct (deserted gs1) eqn:Hdes.
  - apply wp_bind, wp_store. apply wp_bind, wp_await_cases.
    intros w2 (Hg2 & Hc2 & Ha2 & Hb2 & Hw2) HF2.
    cbn in Hg2, Hc2, Ha2, Hb2, Hw2. cbn [dbFaults with_games].
    destruct (hd false (dbFaults w1)) eqn:Hhd2;
      cbn [Db.updateGameStatus]; intros Hd2.
    + right; left. split_and!; [done..| | |congruence].
      * intros E. rewrite HF1, E in Hhd2. done.
      * rewrite Hg2, Hg1. by rewrite insert_insert_eq.
    + apply wp_bind, wp_update. apply wp_bind, wp_update. apply wp_update.
      right; right; left. cbn. split_and!; [done..| | | |congruence|].
      * rewrite Hg2, Hg1. by rewrite !delete_insert_eq.
      * by rewrite Hc2, Hc1.
      * by rewrite Ha2, Ha1.
      * rewrite Hd2. cbn. rewrite Hd1. cbn. rewrite lookup_alter_eq.
        by destruct (Db.games (db w) !! gameId).
  - apply wp_bind, wp_store, wp_broadcast_published.
    intros w2 Hg2 _ _ _ Hb2 Hpub. cbn in Hg2, Hb2.
    right; right; right. split_and!; [done..| |].
    + rewrite Hg2, Hg1. by rewrite insert_insert_eq.
    + by apply (published_transfer _ _ _ _ _ Hc1 Hb1 Hw1).
Qed.

End ScoreAndLeave.

(** ** [joinGame] on a registered game, step by step *)

Section Join.
Import GameService.

Lemma joinGame_spec gameId userId username roomCode r1 r2 now w gs :
  games w !! gameId = Some gs →
  wp (joinGame gameId userId username roomCode r1 r2 now)
     (λ o w',
        let gs1 := started now (afterJoin userId username gs) in
        (isThrown o ∧ sameMemory w w')
        ∨ (o = Thrown SqliteError ∧ complete (afterJoin userId username gs) = true
           ∧ games w' = <[gameId := gs1]> (games w) ∧ wire w' = wire w)
        ∨ (o = Returned (GameState.set_lastUpdate now gs1)
           ∧ games w' = <[gameId := GameState.set_lastUpdate now gs1]> (games w)
           ∧ published gameId (GameState.set_lastUpdate now gs1) w w')) w.
Proof.
  intros Hgs. unfold joinGame.
  apply wp_bind, wp_await_cases. intros w1 Hm1 _.
  destruct (hd false (dbFaults w)); cbn [Db.findGameById]; intros _;
    [by left|].
  destruct (Db.games (db w) !! gameId) as [game|]; [|by apply wp_throw; left].
  destruct (_ && _); [by apply wp_throw; left|].
  apply wp_bind, wp_await_cases. intros w2 Hm2 _.
  assert (Hm12 : sameMemory w w2) by (by eapply sameMemory_trans).
  destruct (hd false (dbFaults w1)); cbn [Db.getGamePlayerCount]; intros _;
    [by left|].
  destruct (_ <=? _)%Z; [by apply wp_throw; left|].
  apply wp_bind, wp_await_cases. intros w3 Hm3 _.
  assert (Hm13 : sameMemory w w3) by (by eapply sameMemory_trans).
  destruct (hd false (dbFaults w2)); cbn [Db.isUserInGame]; intros _;
    [by left|].
  destruct (existsb _ _); [by apply wp_throw; left|].
  apply wp_bind, wp_await_cases. intros w4 Hm4 _.
  assert (Hm14 : sameMemory w w4) by (by eapply sameMemory_trans).
  destruct (if hd false (dbFaults w3) then None
            else Db.addPlayerToGame gameId userId false (db w3))
    as [[[] d]|]; intros _; [|by left].
  clear w1 w2 w3 Hm1 Hm2 Hm3 Hm4 Hm12 Hm13.
  destruct Hm14 as (Hg4 & Hc4 & Ha4 & Hb4 & Hw4).
  apply wp_bind, wp_getWorld. rewrite Hg4, Hgs.
  apply wp_bind, wp_ret.
  change (GameState.set_players _ gs) with (afterJoin userId username gs).
  set (gsJ := afterJoin userId username gs).
  apply wp_bind, wp_store.
  assert (Hend : ∀ w5,
    games w5 = <[gameId := started now gsJ]> (games w) →
    gameConnections w5 = gameConnections w →
    brokenSockets w5 = brokenSockets w → wire w5 = wire w →
    wp (let gameState := GameState.set_lastUpdate now (started now gsJ) in
        store gameId gameState;;
        broadcastGameState gameId gameState;; mret gameState)
       (λ o w',
          let gs1 := started now gsJ in
          (isThrown o ∧ sameMemory w w')
          ∨ (o = Thrown SqliteError ∧ complete gsJ = true
             ∧ games w' = <[gameId := gs1]> (games w) ∧ wire w' = wire w)
          ∨ (o = Returned (GameState.set_lastUpdate now gs1)
             ∧ games w' = <[gameId := GameState.set_lastUpdate now gs1]>
                            (games w)
             ∧ published gameId (GameState.set_lastUpdate now gs1) w w')) w5).
  { intros w5 Hg5 Hc5 Hb5 Hw5. cbn zeta. apply wp_bind, wp_store.
    apply wp_bind, wp_broadcast_published.
    intros w6 Hg6 _ _ _ Hb6 Hpub. cbn in Hg6, Hb6. apply wp_ret.
    right; right. split; [done|]. split.
    - by rewrite Hg6, Hg5, insert_insert_eq.
    - by apply (published_transfer _ _ _ _ _ Hc5 Hb5 Hw5). }
  apply wp_bind. unfold started in *.
  change (Z.of_nat (length (GameState.players gsJ)) =? GameState.maxPlayers gsJ)%Z
    with (complete gsJ).
  destruct (complete gsJ) eqn:Hfull.
  - apply wp_bind, wp_store. apply wp_bind, wp_await_cases.
    intros w5 (Hg5 & Hc5 & Ha5 & Hb5 & Hw5) _.
    cbn in Hg5, Hc5, Ha5, Hb5, Hw5. cbn [dbFaults with_games].
    destruct (hd false (dbFaults w4)); cbn [Db.updateGameStatus]; intros _.
    + right; left. split_and!; [done..| |congruence].
      rewrite Hg5, Hg4. by rewrite insert_insert_eq.
    + apply wp_ret. apply Hend; [|congruence..].
      rewrite Hg5, Hg4. by rewrite insert_insert_eq.
  - apply wp_ret. apply Hend; [|done..]. cbn. by rewrite Hg4.
Qed.

End Join.

(** ** Scores over the operations *)

Section Scores.
Import GameService.


(** C10 (amended).  For a registered game: a physics step and a whole
    [handlePlayerMove] keep every roster entry in place, with the same
    participant on the same side and a score that is not lower than before
    (whatever the database does); [joinGame] leaves the roster as it is or
    appends one participant with score 0; [leaveGame] removes the game, leaves
    the roster as it is, or removes the entries of the leaver and keeps the
    others as they are.  [updateScore], however, stores the score it is given
    in the roster entry of the participant, whatever the score was. *)
Theorem scores_grow_except_by_updateScore
    (gameId : string) (w : World) (gs : GameState.t) :
  games w !! gameId = Some gs →
  (∀ r, scoresGrow (GameState.players gs)
                   (GameState.players (Physics.updateBallPhysics r gs)))
  ∧ (∀ userId paddleY timestamp rAi rBall now,
       ∃ gs', games (handlePlayerMove gameId userId paddleY timestamp
                                      rAi rBall now w).2 !! gameId = Some gs'
              ∧ scoresGrow (GameState.players gs) (GameState.players gs'))
  ∧ (∀ userId username roomCode r1 r2 now,
       ∃ gs', games (joinGame gameId userId username roomCode r1 r2 now w).2
                !! gameId = Some gs'
              ∧ (GameState.players gs' = GameState.players gs
                 ∨ ∃ p, GameState.players gs' = GameState.players gs ++ [p]
                        ∧ GamePlayer.score p = 0%Z))
  ∧ (∀ userId now,
       games (leaveGame gameId userId now w).2 !! gameId = None
       ∨ ∃ gs', games (leaveGame gameId userId now w).2 !! gameId = Some gs'
                ∧ (GameState.players gs' = GameState.players gs
                   ∨ GameState.players gs'
                     = List.filter (λ p, negb (byUserId userId p))
                                   (GameState.players gs)))
  ∧ (∀ userId score now i,
       findIndex (byUserId userId) (GameState.players gs) = Some i →
       ∃ gs', games (updateScore gameId userId score now w).2 !! gameId
                = Some gs'
              ∧ GamePlayer.score <$> GameState.players gs' !! i = Some score).
Proof.
  intros Hgs. split; [|split; [|split; [|split]]].
  - intros r. apply scoresGrow_updateBallPhysics.
  - intros userId paddleY timestamp rAi rBall now.
    pose proof (handlePlayerMove_result gameId userId paddleY timestamp rAi
                  rBall now w gs Hgs) as (_ & _ & _ & Hcases).
    set (gs1 := afterPaddle userId paddleY gs) in *.
    set (gs2 := afterAi (aiOpponents w !! gameId) rAi gs1) in *.
    set (gs3 := Physics.updateBallPhysics rBall gs2) in *.
    assert (H1 : scoresGrow (GameState.players gs) (GameState.players gs1))
      by apply scoresGrow_afterPaddle.
    assert (H2 : scoresGrow (GameState.players gs) (GameState.players gs2)).
    { eapply scoresGrow_trans; [exact H1|apply scoresGrow_afterAi]. }
    assert (H3 : scoresGrow (GameState.players gs) (GameState.players gs3)).
    { eapply scoresGrow_trans; [exact H2|apply scoresGrow_updateBallPhysics]. }
    destruct Hcases as [[(Hg & _) _]|[Hc|Hc]].
    + exists gs. rewrite Hg. split; [done|apply scoresGrow_refl].
    + destruct Hc as (_ & _ & _ & _ & _ & gs' & Hgs' & Hg).
      exists gs'. rewrite Hg, lookup_insert_eq. split; [done|].
      by destruct Hgs' as [-> | [-> | ->]].
    + destruct Hc as (_ & _ & _ & Hg & _).
      eexists. rewrite Hg, lookup_insert_eq. split; [done|exact H3].
  - intros userId username roomCode r1 r2 now.
    pose proof (joinGame_spec gameId userId username roomCode r1 r2 now w gs Hgs)
      as H. unfold wp in H.
    assert (Hst : ∀ x, GameState.players (started now x) = GameState.players x).
    { intros x. unfold started. by destruct (complete x). }
    destruct H as [(_ & Hg & _)|[(_ & _ & Hg & _)|(_ & Hg & _)]].
    + exists gs. rewrite Hg. auto.
    + eexists. rewrite Hg, lookup_insert_eq. split; [done|]. right.
      rewrite Hst. eexists. split; [reflexivity|done].
    + eexists. rewrite Hg, lookup_insert_eq. split; [done|]. right.
      cbn [GameState.set_lastUpdate GameState.players]. rewrite Hst.
      eexists. split; [reflexivity|done].
  - intros userId now.
    pose proof (leaveGame_spec gameId userId now w gs Hgs) as H. unfold wp in H.
    destruct H as [(_ & _ & Hg & _)|[(_ & _ & _ & Hg & _)
                  |[(_ & _ & Hg & _)|(_ & _ & Hg & _)]]].
    + right. exists gs. rewrite Hg. auto.
    + right. eexists. rewrite Hg, lookup_insert_eq. split; [done|]. by right.
    + left. rewrite Hg. apply lookup_delete_eq.
    + right. eexists. rewrite Hg, lookup_insert_eq. split; [done|]. by right.
  - intros userId score now i Hi.
    pose proof (updateScore_spec gameId userId score now w gs Hgs) as H.
    unfold wp in H.
    assert (Hs : GamePlayer.score
                   <$> GameState.players (afterScore userId score gs) !! i
                 = Some score).
    { unfold afterScore. rewrite Hi. cbn.
      destruct (findIndex_Some _ _ _ Hi) as (p & Hp & _).
      by rewrite list_lookup_alter_eq, Hp. }
    destruct H as [(_ & _ & Hg & _)|(_ & Hg & _)];
      eexists; rewrite Hg, lookup_insert_eq; (split; [done|exact Hs]).
Qed.

Lemma scores_grow_except_by_updateScore_witness :
  let w := run Scenarios.scoreSetToFive emptyWorld in
  ∃ gs', games (updateScore "game-a" "u1" 3 3 w).2 !! "game-a"%string = Some gs'
         ∧ GamePlayer.score <$> GameState.players gs' !! 0%nat = Some 3%Z.
Proof.
  intros w.
  destruct (scores_grow_except_by_updateScore "game-a" w
              (GameState.mk "game-a"
                 [GamePlayer.mk "u1" "alice" (1#2) 5 false left;
                  GamePlayer.mk "u2" "bob" (1#2) 0 false right]
                 (Physics.initializeBall (1#2) (1#2)) active false 2 None
                 false None 2 11 (Some 1%Z)))
    as (_ & _ & _ & _ & Hset).
  - vm_compute. reflexivity.
  - apply (Hset "u1"%string 3%Z 3%Z 0%nat). vm_compute. reflexivity.
Defined.

(** C10, as stated, fails: in an active game a score message sets u1's score
    to 5 and the next one sets it to 3; the game is still active. *)
Lemma updateScore_lowers_score_counterexample :
  let w := run Scenarios.scoreSetToFive emptyWorld in
  let w' := (perform (UpdateScore "game-a" "u1" 3 3) w).2 in
  (List.map GamePlayer.score <$> rosterOf "game-a" w) = Some [5; 0]%Z
  ∧ (List.map GamePlayer.score <$> rosterOf "game-a" w') = Some [3; 0]%Z
  ∧ statusOf "game-a" w = Some active
  ∧ statusOf "game-a" w' = Some active.
Proof. vm_compute. repeat split. Qed.

End Scores.

(** ** The status [finished] *)

Section Finished.
Import GameService Physics PhysicsFacts.







End Finished.

(** ** Rosters of active games *)

Section Rosters.
Import GameService.

(** A call on the database when no fault is scheduled. *)
Lemma wp_await_nofault {A} (stmt : Db.t → option (A * Db.t))
    (Q : Outcome A → World → Prop) w :
  dbFaults w = [] →
  (∀ w', sameMemory w w' → dbFaults w' = [] →
     match stmt (db w) with
     | Some (a, d) => db w' = d → Q (Returned a) w'
     | None => db w' = db w → Q (Thrown SqliteError) w'
     end) →
  wp (await stmt) Q w.
Proof.
  intros HF H. apply wp_await_cases. intros w' Hm HF'.
  rewrite HF in HF' |- *. cbn [hd tail] in *. by apply H.
Qed.

Lemma rowsOf_add gameId g u isAi U DG P M :
  rowsOf gameId (Db.mk U DG (P ++ [Db.mkGamePlayer g u isAi 0]) M)
  = rowsOf gameId (Db.mk U DG P M)
    ++ (if bool_decide (g = gameId) then [Db.mkGamePlayer g u isAi 0] else []).
Proof.
  unfold rowsOf. cbn [Db.game_players]. rewrite List.filter_app. f_equal.
Qed.

Lemma rowsOf_nil_existsb gameId userId d :
  rowsOf gameId d = [] →
  existsb (Db.isRow gameId userId) (Db.game_players d) = false.
Proof.
  unfold rowsOf. induction (Db.game_players d) as [|r l IH]; [done|].
  cbn. unfold Db.isRow at 1, Db.inGame at 1.
  destruct (bool_decide (Db.gp_game_id r = gameId)); [done|]. cbn. exact IH.
Qed.

(** An operation that only touches the game [g] keeps the bookkeeping of the
    other games. *)
Lemma bookkept_frame g gameId G G' d d' :
  gameId ≠ g →
  G' !! gameId = G !! gameId →
  Db.games d' !! gameId = Db.games d !! gameId →
  rowsOf gameId d' = rowsOf gameId d →
  bookkept gameId G d → bookkept gameId G' d'.
Proof.
  intros _ HG HD HR. unfold bookkept, seated. by rewrite HG, HD, HR.
Qed.

Lemma bookkept_service_absent gameId G d :
  bookkept gameId G d → Db.games d !! gameId = None → G !! gameId = None.
Proof.
  intros [_ H] Hd. destruct (G !! gameId) as [gs|]; [|done].
  destruct H as (_ & [row Hrow] & _). congruence.
Qed.

Lemma rowsOf_ext gameId d d' :
  Db.game_players d' = Db.game_players d → rowsOf gameId d' = rowsOf gameId d.
Proof. unfold rowsOf. by intros ->. Qed.

Lemma rowsOf_added gameId g u isAi d d' :
  Db.game_players d' = Db.game_players d ++ [Db.mkGamePlayer g u isAi 0] →
  rowsOf gameId d'
  = rowsOf gameId d
    ++ (if bool_decide (g = gameId) then [Db.mkGamePlayer g u isAi 0] else []).
Proof.
  unfold rowsOf. intros ->. rewrite List.filter_app. f_equal.
Qed.

Lemma sound_unchanged w w' :
  sound w → dbFaults w' = [] → games w' = games w → db w' = db w → sound w'.
Proof. intros [_ HS] HF Hg Hd. split; [done|]. intros k. rewrite Hg, Hd. apply HS. Qed.

Lemma createPvPGame_sound rid rcode r1 r2 now createdBy username isPrivate w :
  sound w →
  wp (createPvPGame rid rcode r1 r2 now createdBy username isPrivate 2)
     (λ _ w', sound w') w.
Proof.
  intros Hsound. pose proof Hsound as [HF HS]. unfold createPvPGame.
  set (g := ("game-" +:+ rid)%string).
  apply wp_bind, wp_await_nofault; [done|]. intros w1 (Hg1 & _) HF1.
  unfold Db.createGame.
  destruct (Db.games (db w) !! g) as [row|] eqn:Hrow.
  { intros Hd1. by apply (sound_unchanged w). }
  destruct (Db.roomCodeTaken _ (db w)).
  { intros Hd1. by apply (sound_unchanged w). }
  intros Hd1.
  assert (Hrows : rowsOf g (db w) = []).
  { destruct (HS g) as [H _]. by rewrite Hrow in H. }
  apply wp_bind, wp_await_nofault; [done|]. intros w2 (Hg2 & _) HF2.
  unfold Db.addPlayerToGame.
  rewrite (rowsOf_nil_existsb g createdBy (db w1)); cycle 1.
  { rewrite <- Hrows. apply rowsOf_ext. by rewrite Hd1. }
  intros Hd2.
  apply wp_bind, wp_update. apply wp_bind, wp_update. apply wp_ret.
  split; [done|]. intros k. cbn [games db with_games with_gameConnections].
  rewrite Hg2, Hg1.
  assert (∃ code, Db.games (db w2)
                  = <[g := Db.mkGame code createdBy isPrivate 2 waiting None
                                     false]> (Db.games (db w))) as [code HDG].
  { eexists. rewrite Hd2, Hd1. reflexivity. }
  assert (HP : Db.game_players (db w2)
               = Db.game_players (db w)
                 ++ [Db.mkGamePlayer g createdBy false 0]).
  { rewrite Hd2, Hd1. reflexivity. }
  pose proof (λ k, rowsOf_added k _ _ _ _ _ HP) as HR.
  destruct (decide (k = g)) as [->|Hne].
  - split.
    + rewrite HDG, lookup_insert_eq. split; [done|].
      rewrite HR, Hrows, bool_decide_eq_true_2; done.
    + rewrite lookup_insert_eq. split; [done|]. split.
      { rewrite HDG, lookup_insert_eq. by eexists. }
      left. split; [done|]. eexists. split; [done|]. split; [done|].
      rewrite HR, Hrows, bool_decide_eq_true_2; done.
  - apply (bookkept_frame g k (games w) _ (db w)); [done| | | |apply HS].
    + by rewrite lookup_insert_ne.
    + by rewrite HDG, lookup_insert_ne.
    + rewrite HR, bool_decide_eq_false_2 by done. apply app_nil_r.
Qed.

Lemma createAIGame_sound rid r1 r2 now userId username difficulty w :
  sound w →
  wp (createAIGame rid r1 r2 now userId username difficulty)
     (λ _ w', sound w') w.
Proof.
  intros Hsound. pose proof Hsound as [HF HS]. unfold createAIGame.
  set (g := ("ai-game-" +:+ rid)%string).
  apply wp_bind, wp_await_nofault; [done|]. intros w1 (Hg1 & _) HF1.
  unfold Db.createGame.
  destruct (Db.games (db w) !! g) as [row|] eqn:Hrow.
  { intros Hd1. by apply (sound_unchanged w). }
  cbn [Db.roomCodeTaken]. intros Hd1.
  assert (Hrows : rowsOf g (db w) = []).
  { destruct (HS g) as [H _]. by rewrite Hrow in H. }
  assert (Habsent : games w !! g = None).
  { by apply (bookkept_service_absent g _ (db w)). }
  apply wp_bind, wp_await_nofault; [done|]. intros w2 (Hg2 & _) HF2.
  unfold Db.addPlayerToGame at 1.
  rewrite (rowsOf_nil_existsb g userId (db w1)); cycle 1.
  { rewrite <- Hrows. apply rowsOf_ext. by rewrite Hd1. }
  intros Hd2.
  assert (HDG : Db.games (db w2)
                = <[g := Db.mkGame None userId false 2 waiting
                                   (Some difficulty) true]>
                    (Db.games (db w))).
  { rewrite Hd2, Hd1. reflexivity. }
  assert (HP : Db.game_players (db w2)
               = Db.game_players (db w) ++ [Db.mkGamePlayer g userId false 0]).
  { rewrite Hd2, Hd1. reflexivity. }
  pose proof (λ k, rowsOf_added k _ _ _ _ _ HP) as HR.
  apply wp_bind, wp_await_nofault; [done|]. intros w3 (Hg3 & _) HF3.
  unfold Db.addPlayerToGame.
  destruct (existsb (Db.isRow g "ai") (Db.game_players (db w2))).
  { (* the creator is called "ai": the second insertion violates the key *)
    intros Hd3. split; [done|]. intros k. rewrite Hg3, Hg2, Hg1, Hd3.
    destruct (decide (k = g)) as [->|Hne].
    - split.
      + rewrite HDG, lookup_insert_eq. split; [done|].
        rewrite HR, Hrows, bool_decide_eq_true_2; done.
      + rewrite Habsent. intros row. rewrite HDG, lookup_insert_eq.
        by intros [= <-].
    - apply (bookkept_frame g k (games w) _ (db w)); [done..| | |apply HS].
      + by rewrite HDG, lookup_insert_ne.
      + rewrite HR, bool_decide_eq_false_2 by done. apply app_nil_r. }
  intros Hd3.
  assert (HDG3 : Db.games (db w3) = Db.games (db w2)) by (by rewrite Hd3).
  assert (HP3 : Db.game_players (db w3)
                = Db.game_players (db w2) ++ [Db.mkGamePlayer g "ai" true 0]).
  { by rewrite Hd3. }
  pose proof (λ k, rowsOf_added k _ _ _ _ _ HP3) as HR3.
  apply wp_bind, wp_update. apply wp_bind, wp_update.
  apply wp_bind, wp_update. apply wp_ret.
  split; [done|]. intros k.
  cbn [games db with_games with_gameConnections with_aiOpponents].
  rewrite Hg3, Hg2, Hg1.
  destruct (decide (k = g)) as [->|Hne].
  - split.
    + rewrite HDG3, HDG, lookup_insert_eq. split; [done|].
      rewrite HR3, HR, Hrows, !bool_decide_eq_true_2; done.
    + rewrite lookup_insert_eq. split; [done|]. split.
      { rewrite HDG3, HDG, lookup_insert_eq. by eexists. }
      right; right. split; [done|]. split; [by eexists _, _|].
      rewrite HR3, HR, Hrows, !bool_decide_eq_true_2; done.
  - apply (bookkept_frame g k (games w) _ (db w)); [done| | | |apply HS].
    + by rewrite lookup_insert_ne.
    + by rewrite HDG3, HDG, lookup_insert_ne.
    + rewrite HR3, HR, !bool_decide_eq_false_2 by done.
      by rewrite !app_nil_r.
Qed.

Lemma sound_after_join gameId userId gsF w w' :
  sound w → dbFaults w' = [] →
  games w' = <[gameId := gsF]> (games w) →
  (∀ k, k ≠ gameId → Db.games (db w') !! k = Db.games (db w) !! k) →
  Db.game_players (db w')
    = Db.game_players (db w) ++ [Db.mkGamePlayer gameId userId false 0] →
  bookkept gameId (games w') (db w') →
  sound w'.
Proof.
  intros [_ HS] HF Hg HDG HP Hlocal. split; [done|]. intros k.
  destruct (decide (k = gameId)) as [->|Hne]; [done|].
  apply (bookkept_frame gameId k (games w) _ (db w)); [done| | | |apply HS].
  - by rewrite Hg, lookup_insert_ne.
  - by apply HDG.
  - rewrite (rowsOf_added k _ _ _ _ _ HP), bool_decide_eq_false_2 by done.
    apply app_nil_r.
Qed.

Lemma joinGame_sound gameId userId username roomCode r1 r2 now w :
  sound w →
  wp (joinGame gameId userId username roomCode r1 r2 now) (λ _ w', sound w') w.
Proof.
  intros Hsound. pose proof Hsound as [HF HS]. unfold joinGame.
  apply wp_bind, wp_await_nofault; [done|]. intros w1 (Hg1 & _) HF1.
  cbn [Db.findGameById]. intros Hd1.
  destruct (Db.games (db w) !! gameId) as [game|] eqn:Hgame.
  2:{ apply wp_throw. by apply (sound_unchanged w). }
  destruct (_ && _).
  { apply wp_throw. by apply (sound_unchanged w). }
  apply wp_bind, wp_await_nofault; [done|]. intros w2 (Hg2 & _) HF2.
  cbn [Db.getGamePlayerCount]. intros Hd2.
  destruct (Db.max_players game <=? _)%Z eqn:Hfull.
  { apply wp_throw. apply (sound_unchanged w); [done..|congruence|congruence]. }
  apply wp_bind, wp_await_nofault; [done|]. intros w3 (Hg3 & _) HF3.
  cbn [Db.isUserInGame]. intros Hd3.
  destruct (existsb (Db.isRow gameId userId) (Db.game_players (db w2)))
    eqn:Hin.
  { apply wp_throw. apply (sound_unchanged w); [done..|congruence|congruence]. }
  apply wp_bind, wp_await_nofault; [done|]. intros w4 (Hg4 & _) HF4.
  unfold Db.addPlayerToGame. rewrite Hd3, Hin. intros Hd4.
  assert (HDG4 : Db.games (db w4) = Db.games (db w)).
  { rewrite Hd4. cbn. congruence. }
  assert (HP4 : Db.game_players (db w4)
                = Db.game_players (db w)
                  ++ [Db.mkGamePlayer gameId userId false 0]).
  { rewrite Hd4. cbn. congruence. }
  pose proof (rowsOf_added gameId _ _ _ _ _ HP4) as HR4.
  rewrite bool_decide_eq_true_2 in HR4 by done.
  destruct (HS gameId) as [HA HC]. rewrite Hgame in HA.
  destruct HA as [Hmax Hrows].
  assert (Hone : length (rowsOf gameId (db w)) = 1%nat).
  { rewrite Hmax, Hd1 in Hfull. apply Z.leb_gt in Hfull.
    change (List.filter (Db.inGame gameId) (Db.game_players (db w)))
      with (rowsOf gameId (db w)) in Hfull.
    destruct (rowsOf gameId (db w)) as [|? [|? ?]]; cbn in *; [done|done|lia]. }
  apply wp_bind, wp_getWorld. rewrite Hg4, Hg3, Hg2, Hg1.
  (* the end of the method, from the game object found or rebuilt *)
  assert (Hend : ∀ gs0 w5,
    dbFaults w5 = [] → db w5 = db w4 →
    games w5 = games w ∨ games w5 = <[gameId := gs0]> (games w) →
    GameState.maxPlayers gs0 = 2%Z →
    (GameState.status gs0 = waiting
     ∧ ((∃ p, GameState.players gs0 = [p] ∧ GamePlayer.side p = left)
        ∨ (2 ≤ length (GameState.players gs0))%nat)) →
    wp (let newPlayerSide :=
          if (length (GameState.players gs0) =? 1)%nat then right else left in
        let gameState :=
          GameState.set_players
            (GameState.players gs0
               ++ [newPlayer userId username false newPlayerSide]) gs0 in
        store gameId gameState;;
        gameState ←
          (if Z.of_nat (length (GameState.players gameState))
                =? GameState.maxPlayers gameState
           then
             let gameState :=
               GameState.set_gameStartTime (Some now)
                 (GameState.set_status active gameState) in
             store gameId gameState;;
             await (Db.updateGameStatus gameId active);;
             mret gameState
           else mret gameState)%Z;
        let gameState := GameState.set_lastUpdate now gameState in
        store gameId gameState;;
        broadcastGameState gameId gameState;;
        mret gameState)
       (λ _ w', sound w') w5).
  { intros gs0 w5 HF5 Hd5 Hg5 Hmp [Hst Hshape]. cbn zeta.
    assert (Hins : ∀ x, <[gameId := x]> (games w5) = <[gameId := x]> (games w)).
    { intros x. destruct Hg5 as [-> | ->]; [done|apply insert_insert_eq]. }
    apply wp_bind, wp_store. apply wp_bind.
    cbn [GameState.players GameState.set_players GameState.maxPlayers].
    rewrite Hmp, length_app. cbn [length].
    destruct Hshape as [(p & Hpl & Hside)|Hlen].
    - (* the creator alone: the game starts *)
      rewrite Hpl. cbn [length Nat.add Nat.eqb Z.of_nat Z.eqb Pos.of_succ_nat
                        Pos.succ Pos.eqb app].
      apply wp_bind, wp_store. apply wp_bind, wp_await_nofault; [done|].
      intros w6 (Hg6 & _) HF6. cbn [Db.updateGameStatus]. intros Hd6.
      cbn [db with_games] in Hd6. cbn [games with_games] in Hg6.
      apply wp_ret. apply wp_bind, wp_store.
      apply wp_bind, wp_broadcast_published.
      intros w7 Hg7 _ Hd7 HF7 _ _. cbn in Hg7, Hd7, HF7. apply wp_ret.
      assert (HDG7 : Db.games (db w7)
                     = alter (λ g, Db.mkGame (Db.room_code g) (Db.created_by g)
                                     (Db.is_private g) (Db.max_players g)
                                     active (Db.difficulty g) (Db.is_ai_game g))
                             gameId (Db.games (db w))).
      { rewrite Hd7, Hd6. cbn. by rewrite Hd5, HDG4. }
      assert (HP7 : Db.game_players (db w7)
                    = Db.game_players (db w)
                      ++ [Db.mkGamePlayer gameId userId false 0]).
      { rewrite Hd7, Hd6. cbn. by rewrite Hd5. }
      eapply (sound_after_join gameId userId _ w); [done|congruence| | |done|].
      + rewrite Hg7, Hg6. rewrite !insert_insert_eq. by rewrite Hins.
      + intros k Hk. by rewrite HDG7, lookup_alter_ne.
      + pose proof (rowsOf_added gameId _ _ _ _ _ HP7) as HR7.
        rewrite bool_decide_eq_true_2 in HR7 by done.
        split.
        * rewrite HDG7, lookup_alter_eq, Hgame. cbn. split; [done|].
          rewrite HR7. by destruct (rowsOf gameId (db w)).
        * rewrite Hg7, Hg6, lookup_insert_eq.
          split; [done|]. split.
          { rewrite HDG7, lookup_alter_eq, Hgame. by eexists. }
          right; right. split; [done|]. split; [by eexists _, _|].
          rewrite HR7, length_app, Hone. cbn. lia.
    - (* two or more entries already: the game stays as it is *)
      assert ((Z.of_nat (length (GameState.players gs0) + 1) =? 2)%Z = false)
        as -> by (apply Z.eqb_neq; lia).
      apply wp_ret. apply wp_bind, wp_store.
      apply wp_bind, wp_broadcast_published.
      intros w7 Hg7 _ Hd7 HF7 _ _. cbn in Hg7, Hd7, HF7. apply wp_ret.
      eapply (sound_after_join gameId userId _ w); [done|congruence| | | |].
      + rewrite Hg7. rewrite !insert_insert_eq. by rewrite Hins.
      + intros k Hk. by rewrite Hd7, Hd5, HDG4.
      + by rewrite Hd7, Hd5.
      + assert (HP7 : Db.game_players (db w7)
                      = Db.game_players (db w)
                        ++ [Db.mkGamePlayer gameId userId false 0])
          by (by rewrite Hd7, Hd5).
        pose proof (rowsOf_added gameId _ _ _ _ _ HP7) as HR7.
        rewrite bool_decide_eq_true_2 in HR7 by done.
        split.
        * rewrite Hd7, Hd5, HDG4, Hgame. split; [done|].
          rewrite <- Hd5, <- Hd7, HR7. by destruct (rowsOf gameId (db w)).
        * rewrite Hg7, lookup_insert_eq.
          split; [done|]. split.
          { rewrite Hd7, Hd5, HDG4, Hgame. by eexists. }
          right; left. split; [done|].
          cbn [GameState.players GameState.set_lastUpdate GameState.set_players].
          rewrite length_app. cbn. lia. }
  destruct (games w !! gameId) as [gs|] eqn:Hgs.
  - (* the game is registered *)
    apply wp_bind, wp_ret.
    destruct HC as (Hmp & _ & Hcases).
    apply (Hend gs w4); [done|done|left; congruence|done|].
    destruct Hcases as [(Hst & p & Hpl & Hside & _)|[(Hst & Hlen)
                       |(_ & _ & Hlen)]].
    + split; [done|]. left. by exists p.
    + split; [done|]. right. lia.
    + rewrite Hone in Hlen. lia.
  - (* the game is rebuilt from the database *)
    apply wp_bind. apply wp_bind, wp_await_nofault; [done|].
    intros w5 (Hg5 & _) HF5. cbn [Db.getGamePlayers]. intros Hd5.
    apply wp_bind, wp_store. apply wp_ret.
    eapply (Hend _ (with_games _ w5)); [done|done| |done|].
    + right. cbn. congruence.
    + split; [by apply HC|]. right.
      cbn [reconstruct GameState.players].
      rewrite length_imap, length_map, length_indexOrder.
      change (List.filter (Db.inGame gameId) (Db.game_players (db w4)))
        with (rowsOf gameId (db w4)).
      rewrite HR4, length_app, Hone. cbn. lia.
Qed.

(** Every roster call keeps the bookkeeping. *)
Lemma perform_sound c w : rosterCall c → sound w → sound (perform c w).2.
Proof.
  intros Hc Hw. destruct c; cbn [rosterCall] in Hc; try done.
  - subst maxPlayers. cbn [perform].
    pose proof (createPvPGame_sound rid rcode r1 r2 now createdBy username
                  isPrivate w Hw) as H. unfold wp in H.
    by destruct (createPvPGame _ _ _ _ _ _ _ _ _ w) as [[?|?] ?].
  - cbn [perform].
    pose proof (createAIGame_sound rid r1 r2 now userId username difficulty
                  w Hw) as H. unfold wp in H.
    by destruct (createAIGame _ _ _ _ _ _ _ w) as [[?|?] ?].
  - cbn [perform].
    pose proof (joinGame_sound gameId userId username roomCode r1 r2 now w Hw)
      as H. unfold wp in H.
    by destruct (joinGame _ _ _ _ _ _ _ w) as [[?|?] ?].
  - cbn [perform]. unfold addConnection, update. cbn [snd].
    destruct Hw as [HF HS].
    by destruct (gameConnections w !! gameId).
Qed.

Lemma run_sound history w :
  Forall rosterCall history → sound w → sound (run history w).
Proof.
  intros H. revert w. induction H as [|c history Hc _ IH]; intros w Hw; [done|].
  apply IH. by apply perform_sound.
Qed.

Lemma sound_emptyWorld : sound emptyWorld.
Proof.
  split; [done|]. intros k. unfold bookkept, emptyWorld.
  cbn [games db Db.empty Db.games]. rewrite !lookup_empty. done.
Qed.

End Rosters.

Section RosterClaim.

(** C3 (amended).  After any history of two-player [createPvPGame],
    [createAIGame] and [joinGame] calls (and socket registrations) from the
    empty service, with a database that rejects nothing on its own, every
    registered game whose status is [active] has a roster of exactly two
    entries, one on the left and one on the right. *)
Theorem active_game_has_one_player_per_side
    (history : list Call) (gameId : string) (gs : GameState.t) :
  Forall rosterCall history →
  games (run history emptyWorld) !! gameId = Some gs →
  GameState.status gs = active →
  countSide left (GameState.players gs) = 1%nat
  ∧ countSide right (GameState.players gs) = 1%nat
  ∧ length (GameState.players gs) = 2%nat.
Proof.
  intros Hh Hgs Hactive.
  destruct (run_sound history emptyWorld Hh sound_emptyWorld) as [_ HS].
  destruct (HS gameId) as [_ Hseat]. rewrite Hgs in Hseat.
  destruct Hseat as (_ & _ & [(E & _)|[(E & _)|(_ & (p & q & -> & Hp & Hq) & _)]]);
    [congruence..|].
  unfold countSide, bySide. cbn. rewrite Hp, Hq. done.
Qed.

Lemma active_game_has_one_player_per_side_witness :
  ∃ gs, games (run Scenarios.fullGame emptyWorld) !! "game-a"%string = Some gs
        ∧ GameState.status gs = active
        ∧ countSide left (GameState.players gs) = 1%nat
        ∧ countSide right (GameState.players gs) = 1%nat.
Proof.
  eexists. split; [vm_compute; reflexivity|]. split; [reflexivity|].
  destruct (active_game_has_one_player_per_side Scenarios.fullGame "game-a"
              (GameState.mk "game-a"
                 [GamePlayer.mk "u1" "alice" (1#2) 0 false left;
                  GamePlayer.mk "u2" "bob" (1#2) 0 false right]
                 (Physics.initializeBall (1#2) (1#2)) active false 2 None
                 false None 1 11 (Some 1%Z)))
    as (Hl & Hr & _).
  - repeat constructor.
  - vm_compute. reflexivity.
  - reflexivity.
  - split; [exact Hl|exact Hr].
Defined.

(** C3, as stated, fails.  When u2 leaves the full game, the game stays
    active with u1 alone on the left; and the game for three becomes active
    with two participants on the left and one on the right. *)
Lemma active_roster_not_one_per_side_counterexample :
  let w := run Scenarios.rightPlayerLeaves emptyWorld in
  let w3 := run Scenarios.gameForThree emptyWorld in
  statusOf "game-a" w = Some active
  ∧ (List.map GamePlayer.side <$> rosterOf "game-a" w) = Some [left]
  ∧ (countSide right <$> rosterOf "game-a" w) = Some 0%nat
  ∧ statusOf "game-b" w3 = Some active
  ∧ (List.map GamePlayer.side <$> rosterOf "game-b" w3)
    = Some [left; right; left]
  ∧ (countSide left <$> rosterOf "game-b" w3) = Some 2%nat.
Proof. vm_compute. repeat split. Qed.

End RosterClaim.

Section JoinFullClaim.
Import GameService.
Local Open Scope Z_scope.




End JoinFullClaim.

(** * Further properties of the code *)

(** ** The physics step *)

Section PhysicsMore.
Local Open Scope Q_scope.
Import Js JsFacts Physics PhysicsFacts.

Lemma bounceWalls_x b : Ball.x (bounceWalls b) = Ball.x b.
Proof. unfold bounceWalls. by destruct (hitsWall b). Qed.

Lemma bounceWalls_velocityX b : Ball.velocityX (bounceWalls b) = Ball.velocityX b.
Proof. unfold bounceWalls. by destruct (hitsWall b). Qed.

Lemma bounceWalls_speed b : Ball.speed (bounceWalls b) = Ball.speed b.
Proof. unfold bounceWalls. by destruct (hitsWall b). Qed.

Lemma paddleBounce_speed plane py b :
  Ball.speed (paddleBounce plane py b) = Ball.speed b
  ∨ Ball.speed (paddleBounce plane py b) = Ball.speed b * (105#100).
Proof. unfold paddleBounce. destruct (_ && _); cbn; auto. Qed.

Lemma leftPaddle_speed py b :
  Ball.speed (leftPaddle py b) = Ball.speed b
  ∨ Ball.speed (leftPaddle py b) = Ball.speed b * (105#100).
Proof.
  unfold leftPaddle. destruct py; [|by left].
  destruct (_ && _); [apply paddleBounce_speed|by left].
Qed.

Lemma rightPaddle_speed py b :
  Ball.speed (rightPaddle py b) = Ball.speed b
  ∨ Ball.speed (rightPaddle py b) = Ball.speed b * (105#100).
Proof.
  unfold rightPaddle. destruct py; [|by left].
  destruct (_ && _); [apply paddleBounce_speed|by left].
Qed.

(** X1.  A physics step never lowers the speed multiplier below 1: if it is at
    least 1 before the step, it is at least 1 after it (a paddle hit
    multiplies it by 1.05, a point resets it to 1, nothing else touches
    it). *)
Theorem physics_step_keeps_speed_at_least_one (r : Q) (gs : GameState.t) :
  1 <= Ball.speed (GameState.ball gs) →
  1 <= Ball.speed (GameState.ball (updateBallPhysics r gs)).
Proof.
  intros H. unfold updateBallPhysics. rewrite checkGameEnd_ball.
  set (l := findIndex (bySide left) (GameState.players gs)).
  set (rt := findIndex (bySide right) (GameState.players gs)).
  assert (Hb : 1 <= Ball.speed (ballAtScoring gs)).
  { unfold ballAtScoring. fold l rt.
    set (b1 := bounceWalls (integrate (GameState.ball gs))).
    assert (H1 : 1 <= Ball.speed b1) by (unfold b1; by rewrite bounceWalls_speed).
    set (b2 := leftPaddle (paddleAt (GameState.players gs) l) b1).
    assert (H2 : 1 <= Ball.speed b2).
    { unfold b2.
      destruct (leftPaddle_speed (paddleAt (GameState.players gs) l) b1)
        as [-> | ->]; lra. }
    destruct (rightPaddle_speed (paddleAt (GameState.players gs) rt) b2)
      as [-> | ->]; lra. }
  destruct (scoring_cases r l rt (GameState.set_ball (ballAtScoring gs) gs))
    as [(_ & i & _ & ->)|[(_ & i & _ & ->)| ->]]; cbn; [lra|lra|done].
Qed.

Lemma physics_step_keeps_speed_at_least_one_witness :
  1 <= Ball.speed (GameState.ball
                     (updateBallPhysics (1#2)
                        (Scenarios.duel Scenarios.ballAtTopWall))).
Proof.
  apply physics_step_keeps_speed_at_least_one. vm_compute. discriminate.
Defined.


(** X3.  A paddle save.  If, after integration and wall bounce, the ball is
    at or behind the left collision plane (x <= 0.05) while moving left, and
    its y is within 0.1 of the paddle of the left participant, then the step
    returns the ball on the plane x = 0.05 with its horizontal velocity
    reversed, the spin (y - paddleY) * 2 added to the vertical velocity and
    the speed multiplied by 1.05, and nobody scores: the roster is
    unchanged, however far behind the plane (even below 0) the ball had got.
    Symmetrically on the right, at x >= 0.95. *)
Theorem paddle_in_the_way_returns_the_ball
    (r : Q) (gs : GameState.t) (i : nat) (p : GamePlayer.t) :
  let b := bounceWalls (integrate (GameState.ball gs)) in
  let py := GamePlayer.paddleY p in
  let returned plane :=
    Ball.mk plane (Ball.y b) (- Ball.velocityX b)
            (Ball.velocityY b + (Ball.y b - py) * 2)
            (Ball.speed b * (105#100)) in
  GameState.players gs !! i = Some p →
  py - (1#10) <= Ball.y b → Ball.y b <= py + (1#10) →
  (findIndex (bySide left) (GameState.players gs) = Some i →
   Ball.x b <= 5#100 → Ball.velocityX b < 0 →
   GameState.ball (updateBallPhysics r gs) = returned (5#100)
   ∧ GameState.players (updateBallPhysics r gs) = GameState.players gs)
  ∧ (findIndex (bySide right) (GameState.players gs) = Some i →
     95#100 <= Ball.x b → 0 < Ball.velocityX b →
     GameState.ball (updateBallPhysics r gs) = returned (95#100)
     ∧ GameState.players (updateBallPhysics r gs) = GameState.players gs).
Proof.
  intros b py returned Hp Hlo Hhi.
  assert (Hwin : Qgeb (Ball.y b) (py - (1#10)) && Qle_bool (Ball.y b) (py + (1#10))
                 = true).
  { apply andb_true_iff. split; [by apply Qgeb_true|by apply Qle_bool_iff]. }
  assert (Hnoscore : ∀ plane l rt, 0 <= plane → plane <= 1 →
    updateBallPhysics r gs
    = checkGameEnd l rt (GameState.set_ball (returned plane) gs) →
    GameState.ball (updateBallPhysics r gs) = returned plane
    ∧ GameState.players (updateBallPhysics r gs) = GameState.players gs).
  { intros plane l rt H0 H1 ->.
    by rewrite checkGameEnd_ball, checkGameEnd_players. }
  assert (Hsc : ∀ plane l rt, 0 <= plane → plane <= 1 →
    scoring r l rt (GameState.set_ball (returned plane) gs)
    = GameState.set_ball (returned plane) gs).
  { intros plane l rt H0 H1. unfold scoring. cbn.
    assert (Qltb plane 0 = false) as -> by (apply Qltb_false; lra).
    assert (Qgtb plane 1 = false) as -> by (apply Qgtb_false; lra). done. }
  split.
  - intros Hi Hx Hvx.
    apply (Hnoscore (5#100) (Some i)
             (findIndex (bySide right) (GameState.players gs))); [lra..|].
    unfold updateBallPhysics. rewrite Hi. f_equal.
    rewrite <- (Hsc (5#100) (Some i)
                  (findIndex (bySide right) (GameState.players gs)))
      by lra.
    f_equal. f_equal. unfold ballAtScoring. rewrite Hi. fold b.
    assert (Hl : leftPaddle (paddleAt (GameState.players gs) (Some i)) b
                 = returned (5#100)).
    { unfold paddleAt. cbn. rewrite Hp. cbn. fold py.
      apply Qle_bool_iff in Hx. apply Qltb_true in Hvx. rewrite Hx, Hvx. cbn.
      unfold paddleBounce. fold py. by rewrite Hwin. }
    rewrite Hl. apply rightPaddle_far. cbn. lra.
  - intros Hi Hx Hvx.
    apply (Hnoscore (95#100)
             (findIndex (bySide left) (GameState.players gs)) (Some i));
      [lra..|].
    unfold updateBallPhysics. rewrite Hi. f_equal.
    rewrite <- (Hsc (95#100)
                  (findIndex (bySide left) (GameState.players gs)) (Some i))
      by lra.
    f_equal. f_equal. unfold ballAtScoring. rewrite Hi. fold b.
    rewrite leftPaddle_far by lra.
    unfold paddleAt. cbn. rewrite Hp. cbn. fold py.
    apply Qgeb_true in Hx. apply Qgtb_true in Hvx. rewrite Hx, Hvx. cbn.
    unfold paddleBounce. fold py. by rewrite Hwin.
Qed.

Lemma paddle_in_the_way_returns_the_ball_witness :
  let gs := Scenarios.duel Scenarios.ballAtLeftPaddle in
  GameState.ball (updateBallPhysics (1#2) gs)
  = Ball.mk (5#100) (Ball.y (bounceWalls (integrate (GameState.ball gs))))
            (- Ball.velocityX (bounceWalls (integrate (GameState.ball gs))))
            (Ball.velocityY (bounceWalls (integrate (GameState.ball gs)))
             + (Ball.y (bounceWalls (integrate (GameState.ball gs)))
                - GamePlayer.paddleY Scenarios.alice) * 2)
            (Ball.speed (bounceWalls (integrate (GameState.ball gs)))
             * (105#100))
  ∧ GameState.players (updateBallPhysics (1#2) gs) = GameState.players gs.
Proof.
  intros gs.
  destruct (paddle_in_the_way_returns_the_ball (1#2) gs 0%nat Scenarios.alice)
    as [Hleft _].
  - reflexivity.
  - vm_compute. discriminate.
  - vm_compute. discriminate.
  - apply Hleft.
    + reflexivity.
    + vm_compute. discriminate.
    + vm_compute. reflexivity.
Defined.

End PhysicsMore.

(** ** The synthetic opponent, for the four tiers *)

Section TiersMore.
Local Open Scope Q_scope.

(** X4.  Whatever the tier, the ball and the noise draw, the paddle position
    that [calculateAIMove] returns for a configured game is within
    [speed * 0.02] of 0.5, so within 0.018 of it even for the expert: the AI
    paddle never leaves [0.482, 0.518]. *)
Theorem ai_paddle_stays_near_centre
    (difficulty : Difficulty) (ball : Ball.t) (r : Q) :
  let aiConfig := AI.createAIOpponent difficulty in
  let aiMove := AI.calculateAIMove (Some aiConfig) ball r in
  (1#2) - AIOpponent.speed aiConfig * (2#100) <= aiMove
  ∧ aiMove <= (1#2) + AIOpponent.speed aiConfig * (2#100)
  ∧ 482#1000 <= aiMove ∧ aiMove <= 518#1000.
Proof.
  intros aiConfig aiMove.
  assert (Hs : 0 <= AIOpponent.speed aiConfig ∧ AIOpponent.speed aiConfig <= 9#10).
  { unfold aiConfig. destruct difficulty; cbn; lra. }
  destruct (calculateAIMove_near_centre aiConfig ball r) as [H1 H2]; [lra|].
  fold aiMove in H1, H2. cbn zeta in H1, H2. lra.
Qed.

End TiersMore.

(** ** Calls on a game that is not registered *)

Section Unregistered.
Import GameService.

Lemma handlePlayerMove_unregistered gameId userId paddleY timestamp rAi rBall now w :
  games w !! gameId = None →
  handlePlayerMove gameId userId paddleY timestamp rAi rBall now w
  = (Thrown (Err "Game not found"), w).
Proof.
  intros H. unfold handlePlayerMove, mbind, Async_bind, bind, getWorld.
  by rewrite H.
Qed.

Lemma leaveGame_unregistered gameId userId now w :
  games w !! gameId = None →
  leaveGame gameId userId now w = (Thrown (Err "Game not found"), w).
Proof.
  intros H. unfold leaveGame, mbind, Async_bind, bind, getWorld. by rewrite H.
Qed.

Lemma updateScore_unregistered gameId userId score now w :
  games w !! gameId = None →
  updateScore gameId userId score now w = (Thrown (Err "Game not found"), w).
Proof.
  intros H. unfold updateScore, mbind, Async_bind, bind, getWorld. by rewrite H.
Qed.

End Unregistered.

(** ** Paddles stay on the screen *)

Section Paddles.
Import GameService.
Local Open Scope Q_scope.

Lemma paddlesOK_same w w' : games w' = games w → paddlesOK w → paddlesOK w'.
Proof. unfold paddlesOK. by intros ->. Qed.

Lemma paddlesOK_insert gameId gs w w' :
  games w' = <[gameId := gs]> (games w) → paddlesIn gs →
  paddlesOK w → paddlesOK w'.
Proof.
  intros Hg Hgs Hw k x. rewrite Hg, lookup_insert.
  case_decide; [by intros [= <-]|apply Hw].
Qed.

Lemma paddlesOK_delete gameId w w' :
  games w' = delete gameId (games w) → paddlesOK w → paddlesOK w'.
Proof.
  intros Hg Hw k x. rewrite Hg. intros [_ H]%lookup_delete_Some. by apply (Hw k).
Qed.

Lemma paddlesIn_alter f i gs :
  (∀ p, 1#10 <= GamePlayer.paddleY p <= 9#10 →
        1#10 <= GamePlayer.paddleY (f p) <= 9#10) →
  paddlesIn gs →
  paddlesIn (GameState.set_players (alter f i (GameState.players gs)) gs).
Proof.
  intros Hf H. unfold paddlesIn in *. cbn [GameState.players GameState.set_players].
  apply Forall_lookup. intros j p Hp.
  destruct (roster_lookup_alter f i _ j p Hp) as (q & Hq & [-> | ->]).
  - by apply (Forall_lookup_1 _ _ _ _ H Hq).
  - apply Hf. by apply (Forall_lookup_1 _ _ _ _ H Hq).
Qed.

Lemma paddlesIn_ext gs gs' :
  GameState.players gs' = GameState.players gs → paddlesIn gs → paddlesIn gs'.
Proof. unfold paddlesIn. by intros ->. Qed.

Lemma paddlesIn_afterPaddle userId paddleY gs :
  paddlesIn gs → paddlesIn (afterPaddle userId paddleY gs).
Proof.
  intros H. unfold afterPaddle. destruct (findIndex _ _); [|done].
  apply paddlesIn_alter; [|done]. intros p _. apply clampPaddle_range.
Qed.

Lemma paddlesIn_afterAi aiConfig rAi gs :
  paddlesIn gs → paddlesIn (afterAi aiConfig rAi gs).
Proof.
  intros H. unfold afterAi. destruct (GameState.isAiGame gs); [|done].
  destruct (findIndex _ _); [|done].
  apply paddlesIn_alter; [|done]. intros p _. apply calculateAIMove_range.
Qed.

Lemma paddlesIn_updateBallPhysics r gs :
  paddlesIn gs → paddlesIn (Physics.updateBallPhysics r gs).
Proof.
  intros H. destruct (updateBallPhysics_players r gs) as [E|[i E]].
  - by apply (paddlesIn_ext gs).
  - apply (paddlesIn_ext
             (GameState.set_players (alter incScore i (GameState.players gs)) gs));
      [done|]. by apply paddlesIn_alter.
Qed.

Lemma paddlesIn_afterScore userId score gs :
  paddlesIn gs → paddlesIn (afterScore userId score gs).
Proof.
  intros H. unfold afterScore. destruct (findIndex _ _); [|done].
  by apply paddlesIn_alter.
Qed.

Lemma paddlesIn_afterLeave userId gs :
  paddlesIn gs → paddlesIn (afterLeave userId gs).
Proof.
  unfold paddlesIn, afterLeave. cbn [GameState.players GameState.set_players].
  rewrite !Forall_forall. intros H p Hp.
  apply H. apply list_elem_of_In in Hp. apply filter_In in Hp as [Hp _].
  by apply list_elem_of_In.
Qed.

Lemma paddlesIn_newPlayer userId username isAi side :
  1#10 <= GamePlayer.paddleY (newPlayer userId username isAi side) <= 9#10.
Proof. cbn. lra. Qed.

Lemma paddlesIn_afterJoin userId username gs :
  paddlesIn gs → paddlesIn (afterJoin userId username gs).
Proof.
  unfold paddlesIn, afterJoin. cbn [GameState.players GameState.set_players].
  intros H. apply Forall_app. split; [done|].
  apply Forall_singleton. apply paddlesIn_newPlayer.
Qed.

Lemma paddlesIn_started now gs : paddlesIn gs → paddlesIn (started now gs).
Proof. unfold started. by destruct (complete gs). Qed.

Lemma paddlesIn_reconstruct gameId game players r1 r2 now :
  paddlesIn (reconstruct gameId game players r1 r2 now).
Proof.
  unfold paddlesIn, reconstruct. cbn [GameState.players].
  apply Forall_lookup. intros i p. rewrite list_lookup_imap.
  destruct (players !! i); [|done]. intros [= <-]. cbn. lra.
Qed.

Lemma createPvPGame_paddles rid rcode r1 r2 now createdBy username isPrivate
    maxPlayers w :
  paddlesOK w →
  wp (createPvPGame rid rcode r1 r2 now createdBy username isPrivate maxPlayers)
     (λ _ w', paddlesOK w') w.
Proof.
  intros Hw. unfold createPvPGame.
  apply wp_bind, wp_await_any. intros w1 (Hg1 & _) _.
  split; [by apply (paddlesOK_same w)|]. intros [].
  apply wp_bind, wp_await_any. intros w2 (Hg2 & _) _.
  split; [apply (paddlesOK_same w); [congruence|done]|]. intros [].
  apply wp_bind, wp_update. apply wp_bind, wp_update. apply wp_ret.
  eapply (paddlesOK_insert _ _ w); [cbn; by rewrite Hg2, Hg1| |done].
  apply Forall_singleton. apply paddlesIn_newPlayer.
Qed.

Lemma createAIGame_paddles rid r1 r2 now userId username difficulty w :
  paddlesOK w →
  wp (createAIGame rid r1 r2 now userId username difficulty)
     (λ _ w', paddlesOK w') w.
Proof.
  intros Hw. unfold createAIGame.
  apply wp_bind, wp_await_any. intros w1 (Hg1 & _) _.
  split; [by apply (paddlesOK_same w)|]. intros [].
  apply wp_bind, wp_await_any. intros w2 (Hg2 & _) _.
  split; [apply (paddlesOK_same w); [congruence|done]|]. intros [].
  apply wp_bind, wp_await_any. intros w3 (Hg3 & _) _.
  split; [apply (paddlesOK_same w); [congruence|done]|]. intros [].
  apply wp_bind, wp_update. apply wp_bind, wp_update.
  apply wp_bind, wp_update. apply wp_ret.
  eapply (paddlesOK_insert _ _ w); [cbn; by rewrite Hg3, Hg2, Hg1| |done].
  unfold paddlesIn. cbn [GameState.players].
  repeat (apply List.Forall_cons; [apply paddlesIn_newPlayer|]).
  apply List.Forall_nil.
Qed.

Lemma joinGame_paddles gameId userId username roomCode r1 r2 now w :
  paddlesOK w →
  wp (joinGame gameId userId username roomCode r1 r2 now)
     (λ _ w', paddlesOK w') w.
Proof.
  intros Hw. unfold joinGame.
  apply wp_bind, wp_await_any. intros w1 (Hg1 & _) _.
  split; [by apply (paddlesOK_same w)|]. intros [game|];
    [|by apply wp_throw, (paddlesOK_same w)].
  destruct (_ && _); [by apply wp_throw, (paddlesOK_same w)|].
  apply wp_bind, wp_await_any. intros w2 (Hg2 & _) _.
  assert (Hw2 : paddlesOK w2) by (apply (paddlesOK_same w); [congruence|done]).
  split; [done|]. intros playerCount.
  destruct (_ <=? _)%Z; [by apply wp_throw|].
  apply wp_bind, wp_await_any. intros w3 (Hg3 & _) _.
  assert (Hw3 : paddlesOK w3) by (by apply (paddlesOK_same w2)).
  split; [done|]. intros [|]; [by apply wp_throw|].
  apply wp_bind, wp_await_any. intros w4 (Hg4 & _) _.
  assert (Hw4 : paddlesOK w4) by (by apply (paddlesOK_same w3)).
  split; [done|]. intros [].
  apply wp_bind, wp_getWorld.
  (* the end of the method, from the game object found or rebuilt *)
  assert (Hend : ∀ gs0 w5, paddlesOK w5 → paddlesIn gs0 →
    wp (let newPlayerSide :=
          if (length (GameState.players gs0) =? 1)%nat then right else left in
        let gameState :=
          GameState.set_players
            (GameState.players gs0
               ++ [newPlayer userId username false newPlayerSide]) gs0 in
        store gameId gameState;;
        gameState ←
          (if Z.of_nat (length (GameState.players gameState))
                =? GameState.maxPlayers gameState
           then
             let gameState :=
               GameState.set_gameStartTime (Some now)
                 (GameState.set_status active gameState) in
             store gameId gameState;;
             await (Db.updateGameStatus gameId active);;
             mret gameState
           else mret gameState)%Z;
        let gameState := GameState.set_lastUpdate now gameState in
        store gameId gameState;;
        broadcastGameState gameId gameState;;
        mret gameState)
       (λ _ w', paddlesOK w') w5).
  { intros gs0 w5 Hw5 Hgs0. cbn zeta.
    change (GameState.set_players _ gs0) with (afterJoin userId username gs0).
    pose proof (paddlesIn_afterJoin userId username gs0 Hgs0) as HJ.
    set (gsJ := afterJoin userId username gs0) in *.
    apply wp_bind, wp_store.
    assert (Hw6 : paddlesOK (with_games <[gameId := gsJ]> w5)).
    { by apply (paddlesOK_insert gameId gsJ w5). }
    assert (Hfin : ∀ gsS w7, paddlesOK w7 → paddlesIn gsS →
      wp (let gameState := GameState.set_lastUpdate now gsS in
          store gameId gameState;;
          broadcastGameState gameId gameState;; mret gameState)
         (λ _ w', paddlesOK w') w7).
    { intros gsS w7 Hw7 HgsS. cbn zeta. apply wp_bind, wp_store.
      apply wp_bind, wp_broadcast_published. intros w8 Hg8 _ _ _ _ _.
      apply wp_ret. apply (paddlesOK_same _ _ Hg8).
      by apply (paddlesOK_insert gameId (GameState.set_lastUpdate now gsS) w7). }
    apply wp_bind. destruct (_ =? _)%Z.
    - apply wp_bind, wp_store.
      set (gsS := GameState.set_gameStartTime _ _).
      assert (HS : paddlesIn gsS) by done.
      assert (Hw7 : paddlesOK (with_games <[gameId := gsS]>
                                 (with_games <[gameId := gsJ]> w5))).
      { by eapply (paddlesOK_insert gameId gsS). }
      apply wp_bind, wp_await_any. intros w8 (Hg8 & _) _.
      assert (Hw8 : paddlesOK w8) by (by apply (paddlesOK_same _ _ Hg8)).
      split; [done|]. intros []. apply wp_ret. by apply Hfin.
    - apply wp_ret. by apply Hfin. }
  destruct (games w4 !! gameId) as [gs|] eqn:Hgs.
  - apply wp_bind, wp_ret. apply Hend; [done|]. by apply (Hw4 gameId).
  - apply wp_bind. apply wp_bind, wp_await_any. intros w5 (Hg5 & _) _.
    assert (Hw5 : paddlesOK w5) by (by apply (paddlesOK_same w4)).
    split; [done|]. intros players.
    apply wp_bind, wp_store. apply wp_ret.
    apply Hend; [|apply paddlesIn_reconstruct].
    eapply (paddlesOK_insert gameId _ w5); [done| |done].
    apply paddlesIn_reconstruct.
Qed.

(** X5.  Paddle positions of registered games stay in [0.1, 0.9] as long as
    the paddle values that the calls receive are real numbers: if the
    positions are in the interval in a world, they are after any call of the
    service on it, whatever the real-number arguments and whatever the
    database does, and so after any history; in particular in every world
    reached from the empty service.  (A value that is not a number is outside
    the model: the clamp would turn it into NaN.) *)
Theorem paddles_stay_on_screen (history : list Call) (w : World) :
  paddlesOK w → paddlesOK (run history w).
Proof.
  revert w. induction history as [|c history IH]; intros w Hw; [done|].
  apply IH. clear IH. destruct c; cbn [perform].
  - pose proof (createPvPGame_paddles rid rcode r1 r2 now createdBy username
                  isPrivate maxPlayers w Hw) as H. unfold wp in H.
    by destruct (createPvPGame _ _ _ _ _ _ _ _ _ w) as [[?|?] ?].
  - pose proof (createAIGame_paddles rid r1 r2 now userId username difficulty
                  w Hw) as H. unfold wp in H.
    by destruct (createAIGame _ _ _ _ _ _ _ w) as [[?|?] ?].
  - pose proof (joinGame_paddles gameId userId username roomCode r1 r2 now
                  w Hw) as H. unfold wp in H.
    by destruct (joinGame _ _ _ _ _ _ _ w) as [[?|?] ?].
  - destruct (games w !! gameId) as [gs|] eqn:Hgs.
    + pose proof (handlePlayerMove_result gameId userId paddleY timestamp rAi
                    rBall now w gs Hgs) as (_ & _ & _ & Hcases).
      pose proof (Hw gameId gs Hgs) as H0.
      pose proof (paddlesIn_afterPaddle userId paddleY gs H0) as H1.
      pose proof (paddlesIn_afterAi (aiOpponents w !! gameId) rAi _ H1) as H2.
      pose proof (paddlesIn_updateBallPhysics rBall _ H2) as H3.
      destruct Hcases as [[(Hg & _) _]|[Hc|Hc]].
      * by apply (paddlesOK_same w).
      * destruct Hc as (_ & _ & _ & _ & _ & gs' & Hgs' & Hg).
        apply (paddlesOK_insert gameId gs' w); [done| |done].
        by destruct Hgs' as [-> | [-> | ->]].
      * destruct Hc as (_ & _ & _ & Hg & _).
        by eapply (paddlesOK_insert gameId _ w).
    + by rewrite handlePlayerMove_unregistered.
  - destruct (games w !! gameId) as [gs|] eqn:Hgs.
    + pose proof (leaveGame_spec gameId userId now w gs Hgs) as H.
      unfold wp in H.
      pose proof (paddlesIn_afterLeave userId gs (Hw gameId gs Hgs)) as H1.
      destruct H as [(_ & _ & Hg & _)|[(_ & _ & _ & Hg & _)
                    |[(_ & _ & Hg & _)|(_ & _ & Hg & _)]]].
      * by apply (paddlesOK_same w).
      * by eapply (paddlesOK_insert gameId _ w).
      * by apply (paddlesOK_delete gameId w).
      * by eapply (paddlesOK_insert gameId _ w).
    + by rewrite leaveGame_unregistered.
  - destruct (games w !! gameId) as [gs|] eqn:Hgs.
    + pose proof (updateScore_spec gameId userId score now w gs Hgs) as H.
      unfold wp in H.
      pose proof (paddlesIn_afterScore userId score gs (Hw gameId gs Hgs)) as H1.
      destruct H as [(_ & _ & Hg & _)|(_ & Hg & _)];
        by eapply (paddlesOK_insert gameId _ w).
    + by rewrite updateScore_unregistered.
  - unfold addConnection, update. cbn [snd].
    by destruct (gameConnections w !! gameId).
  - done.
Qed.

Lemma paddles_stay_on_screen_witness :
  paddlesOK (run (Scenarios.fullGame
                  ++ [HandlePlayerMove "game-a" "u1" 5 None (1#2) (1#2) 3])
                 emptyWorld).
Proof.
  apply paddles_stay_on_screen. intros k gs H. vm_compute in H. discriminate H.
Defined.

End Paddles.

(** ** Rejections *)

Section Rejections.
Import GameService.
Local Open Scope Z_scope.

(** X6.  The rejections of [joinGame], in the order the code tests them, when
    the database rejects nothing on its own.  An unknown game id gives 'Game
    not found' (404 in the join route); a private game joined with a room
    code other than the stored one gives 'Invalid room code' (400); a game
    with room left, joined by a user who already has a row in it, gives 'User
    already in game' (409).  In each case the world is exactly as before. *)
Theorem joinGame_rejections
    (gameId userId username : string) (roomCode : option string)
    (r1 r2 : Q) (now : Z) (w : World) :
  dbFaults w = [] →
  let r := joinGame gameId userId username roomCode r1 r2 now w in
  (Db.games (db w) !! gameId = None →
   r = (Thrown (Err "Game not found"), w)
   ∧ joinErrorStatus (Err "Game not found") = 404)
  ∧ (∀ game, Db.games (db w) !! gameId = Some game →
     Db.is_private game = true →
     sameRoomCode roomCode (Db.room_code game) = false →
     r = (Thrown (Err "Invalid room code"), w)
     ∧ joinErrorStatus (Err "Invalid room code") = 400)
  ∧ (∀ game, Db.games (db w) !! gameId = Some game →
     Db.is_private game = false
       ∨ sameRoomCode roomCode (Db.room_code game) = true →
     Z.of_nat (length (rowsOf gameId (db w))) < Db.max_players game →
     existsb (Db.isRow gameId userId) (Db.game_players (db w)) = true →
     r = (Thrown (Err "User already in game"), w)
     ∧ joinErrorStatus (Err "User already in game") = 409).
Proof.
  intros HF r. unfold r. clear r.
  destruct w as [G C A D F B W]. cbn in HF. subst F.
  unfold joinGame, mbind, Async_bind, bind, await. cbn.
  split; [|split].
  - intros ->. done.
  - intros game -> -> ->. done.
  - intros game -> Hgate Hroom Hin.
    assert (Db.is_private game && negb (sameRoomCode roomCode (Db.room_code game))
            = false) as ->.
    { destruct Hgate as [-> | ->]; [done|by rewrite andb_false_r]. }
    apply Z.leb_gt in Hroom. unfold rowsOf in Hroom. cbn. rewrite Hroom. cbn.
    by rewrite Hin.
Qed.

Lemma joinGame_rejections_witness :
  let w := run Scenarios.privateGame emptyWorld in
  joinGame "game-p" "u2" "bob" (Some "WRONG1") (1#2) (1#2) 1 w
  = (Thrown (Err "Invalid room code"), w).
Proof.
  intros w.
  destruct (joinGame_rejections "game-p" "u2" "bob" (Some "WRONG1") (1#2) (1#2)
              1 w eq_refl) as (_ & Hcode & _).
  apply (Hcode (Db.mkGame (Some "ROOM01") "u1" true 2 waiting None false));
    vm_compute; reflexivity.
Defined.

(** X7.  The rejections of [handlePlayerMove].  A game that is not registered
    gives 'Game not found' (404 in the move routes) without any database
    call; for a registered game, a caller without a row in [game_players]
    gives 'User not in game' (403), and a participant of a game that is not
    active gives 'Game is not active' (409).  In each case the in-memory
    state, the sockets and the wire are as before. *)
Theorem handlePlayerMove_rejections
    (gameId userId : string) (paddleY : Q) (timestamp : option Z)
    (rAi rBall : Q) (now : Z) (w : World) :
  let r := handlePlayerMove gameId userId paddleY timestamp rAi rBall now w in
  let member := existsb (Db.isRow gameId userId) (Db.game_players (db w)) in
  (games w !! gameId = None →
   r = (Thrown (Err "Game not found"), w)
   ∧ moveErrorStatus (Err "Game not found") = 404)
  ∧ (∀ gs, games w !! gameId = Some gs → nextCallRuns w → member = false →
     r.1 = Thrown (Err "User not in game") ∧ sameMemory w r.2
     ∧ moveErrorStatus (Err "User not in game") = 403)
  ∧ (∀ gs, games w !! gameId = Some gs → nextCallRuns w → member = true →
     GameState.status gs ≠ active →
     r.1 = Thrown (Err "Game is not active") ∧ sameMemory w r.2
     ∧ moveErrorStatus (Err "Game is not active") = 409).
Proof.
  intros r member. split; [|split].
  - intros H. split; [|done]. by apply handlePlayerMove_unregistered.
  - intros gs Hgs Hruns Hm.
    pose proof (handlePlayerMove_result gameId userId paddleY timestamp rAi
                  rBall now w gs Hgs) as (_ & _ & _ & Hcases).
    fold r member in Hcases. unfold nextCallRuns in Hruns.
    destruct Hcases as [[Hsame Hc]|[(_ & E & _)|(_ & E & _)]]; [|congruence..].
    destruct Hc as [[_ E]|[[E _]|(_ & E & _)]]; [congruence| |congruence].
    done.
  - intros gs Hgs Hruns Hm Hna.
    pose proof (handlePlayerMove_result gameId userId paddleY timestamp rAi
                  rBall now w gs Hgs) as (_ & _ & _ & Hcases).
    fold r member in Hcases. unfold nextCallRuns in Hruns.
    destruct Hcases as [[Hsame Hc]|[(E & _)|(E & _)]]; [|done..].
    destruct Hc as [[_ E]|[[_ E]|(E & _)]]; [congruence|congruence|].
    done.
Qed.

Lemma handlePlayerMove_rejections_witness :
  let w := run Scenarios.fullGame emptyWorld in
  (handlePlayerMove "game-a" "u9" (1#2) None (1#2) (1#2) 3 w).1
  = Thrown (Err "User not in game").
Proof.
  intros w.
  destruct (handlePlayerMove_rejections "game-a" "u9" (1#2) None (1#2) (1#2) 3 w)
    as (_ & Hnot & _).
  refine (proj1 (Hnot (GameState.mk "game-a"
                 [GamePlayer.mk "u1" "alice" (1#2) 0 false left;
                  GamePlayer.mk "u2" "bob" (1#2) 0 false right]
                 (Physics.initializeBall (1#2) (1#2)) active false 2 None
                 false None 1 11 (Some 1%Z)) _ _ _)).
  - vm_compute. reflexivity.
  - reflexivity.
  - vm_compute. reflexivity.
Defined.

End Rejections.

(** ** A join that is accepted *)

Section JoinAccepted.
Import GameService.
Local Open Scope Z_scope.

Lemma joinGame_accepted gameId userId username roomCode r1 r2 now w game :
  dbFaults w = [] →
  Db.games (db w) !! gameId = Some game →
  Db.is_private game = false
    ∨ sameRoomCode roomCode (Db.room_code game) = true →
  Z.of_nat (length (rowsOf gameId (db w))) < Db.max_players game →
  existsb (Db.isRow gameId userId) (Db.game_players (db w)) = false →
  wp (joinGame gameId userId username roomCode r1 r2 now)
     (λ o w',
        let gsJ := afterJoin userId username
                     (entered gameId userId r1 r2 now game w) in
        let gsF := GameState.set_lastUpdate now (started now gsJ) in
        let d1 := withPlayer gameId userId false (db w) in
        o = Returned gsF
        ∧ games w' = <[gameId := gsF]> (games w)
        ∧ published gameId gsF w w'
        ∧ aiOpponents w' = aiOpponents w
        ∧ dbFaults w' = []
        ∧ db w' = if complete gsJ then withStatus gameId active d1 else d1) w.
Proof.
  intros HF Hgame Hgate Hroom Hin. unfold joinGame.
  assert (Hg : Db.is_private game
               && negb (sameRoomCode roomCode (Db.room_code game)) = false).
  { destruct Hgate as [-> | ->]; [done|by rewrite andb_false_r]. }
  apply Z.leb_gt in Hroom. unfold rowsOf in Hroom.
  apply wp_bind, wp_await_nofault; [done|].
  intros w1 (Hg1 & Hc1 & Ha1 & Hb1 & Hw1) HF1. cbn [Db.findGameById].
  intros Hd1. rewrite Hgame, Hg.
  apply wp_bind, wp_await_nofault; [done|].
  intros w2 (Hg2 & Hc2 & Ha2 & Hb2 & Hw2) HF2. cbn [Db.getGamePlayerCount].
  intros Hd2. rewrite Hd1, Hroom.
  apply wp_bind, wp_await_nofault; [done|].
  intros w3 (Hg3 & Hc3 & Ha3 & Hb3 & Hw3) HF3. cbn [Db.isUserInGame].
  intros Hd3. rewrite Hd2, Hd1, Hin.
  apply wp_bind, wp_await_nofault; [done|].
  intros w4 (Hg4 & Hc4 & Ha4 & Hb4 & Hw4) HF4. unfold Db.addPlayerToGame.
  rewrite Hd3, Hd2, Hd1, Hin.
  change (Db.mk _ _ _ _) with (withPlayer gameId userId false (db w)).
  intros Hd4.
  assert (HG4 : games w4 = games w) by congruence.
  assert (HC4 : gameConnections w4 = gameConnections w) by congruence.
  assert (HA4 : aiOpponents w4 = aiOpponents w) by congruence.
  assert (HB4 : brokenSockets w4 = brokenSockets w) by congruence.
  assert (HW4 : wire w4 = wire w) by congruence.
  clear Hg1 Hc1 Ha1 Hb1 Hw1 Hg2 Hc2 Ha2 Hb2 Hw2 Hg3 Hc3 Ha3 Hb3 Hw3
        Hg4 Hc4 Ha4 Hb4 Hw4 Hd1 Hd2 Hd3 HF1 HF2 HF3 w1 w2 w3.
  apply wp_bind, wp_getWorld. rewrite HG4.
  (* the end of the method, from the game object found or rebuilt *)
  assert (Hend : ∀ w5,
    dbFaults w5 = [] → db w5 = db w4 →
    games w5 = games w
      ∨ games w5 = <[gameId := entered gameId userId r1 r2 now game w]> (games w) →
    gameConnections w5 = gameConnections w → aiOpponents w5 = aiOpponents w →
    brokenSockets w5 = brokenSockets w → wire w5 = wire w →
    wp (let gs0 := entered gameId userId r1 r2 now game w in
        let newPlayerSide :=
          if (length (GameState.players gs0) =? 1)%nat then right else left in
        let gameState :=
          GameState.set_players
            (GameState.players gs0
               ++ [newPlayer userId username false newPlayerSide]) gs0 in
        store gameId gameState;;
        gameState ←
          (if Z.of_nat (length (GameState.players gameState))
                =? GameState.maxPlayers gameState
           then
             let gameState :=
               GameState.set_gameStartTime (Some now)
                 (GameState.set_status active gameState) in
             store gameId gameState;;
             await (Db.updateGameStatus gameId active);;
             mret gameState
           else mret gameState);
        let gameState := GameState.set_lastUpdate now gameState in
        store gameId gameState;;
        broadcastGameState gameId gameState;;
        mret gameState)
       (λ o w',
          let gsJ := afterJoin userId username
                       (entered gameId userId r1 r2 now game w) in
          let gsF := GameState.set_lastUpdate now (started now gsJ) in
          let d1 := withPlayer gameId userId false (db w) in
          o = Returned gsF
          ∧ games w' = <[gameId := gsF]> (games w)
          ∧ published gameId gsF w w'
          ∧ aiOpponents w' = aiOpponents w
          ∧ dbFaults w' = []
          ∧ db w' = if complete gsJ then withStatus gameId active d1 else d1)
       w5).
  { intros w5 HF5 Hd5 Hg5 Hc5 Ha5 Hb5 Hw5. cbn zeta.
    assert (Hins : ∀ x, <[gameId := x]> (games w5) = <[gameId := x]> (games w)).
    { intros x. destruct Hg5 as [-> | ->]; [done|apply insert_insert_eq]. }
    change (GameState.set_players _ (entered gameId userId r1 r2 now game w))
      with (afterJoin userId username (entered gameId userId r1 r2 now game w)).
    set (gsJ := afterJoin userId username _).
    apply wp_bind, wp_store. apply wp_bind.
    change (Z.of_nat (length (GameState.players gsJ)) =? GameState.maxPlayers gsJ)
      with (complete gsJ).
    unfold started. destruct (complete gsJ).
    - apply wp_bind, wp_store. apply wp_bind, wp_await_nofault; [done|].
      intros w6 (Hg6 & Hc6 & Ha6 & Hb6 & Hw6) HF6. cbn [Db.updateGameStatus].
      cbn [db games gameConnections aiOpponents brokenSockets wire with_games]
        in *.
      rewrite Hd5, Hd4.
      change (Db.mk _ _ _ _)
        with (withStatus gameId active (withPlayer gameId userId false (db w))).
      intros Hd6. apply wp_ret. apply wp_bind, wp_store.
      apply wp_bind, wp_broadcast_published.
      intros w7 Hg7 Ha7 Hd7 HF7 Hb7 Hpub. apply wp_ret.
      cbn [db games gameConnections aiOpponents brokenSockets wire dbFaults
           with_games] in *.
      split; [done|]. split.
      { rewrite Hg7, Hg6. rewrite !insert_insert_eq. apply Hins. }
      split.
      { eapply published_transfer; [| | |exact Hpub]; cbn; congruence. }
      split; [congruence|]. split; [congruence|]. congruence.
    - apply wp_ret. apply wp_bind, wp_store.
      apply wp_bind, wp_broadcast_published.
      intros w7 Hg7 Ha7 Hd7 HF7 Hb7 Hpub. apply wp_ret.
      cbn [db games gameConnections aiOpponents brokenSockets wire dbFaults
           with_games] in *.
      split; [done|]. split.
      { rewrite Hg7. rewrite !insert_insert_eq. apply Hins. }
      split.
      { eapply published_transfer; [| | |exact Hpub]; cbn; congruence. }
      split; [congruence|]. split; [congruence|]. congruence. }
  unfold entered in Hend |- *.
  destruct (games w !! gameId) as [gs|] eqn:Hgs.
  - apply wp_bind, wp_ret. apply Hend; [done|done|by left|done..].
  - apply wp_bind. apply wp_bind, wp_await_nofault; [done|].
    intros w5 (Hg5 & Hc5 & Ha5 & Hb5 & Hw5) HF5. cbn [Db.getGamePlayers].
    rewrite Hd4.
    change (List.map _ (Db.indexOrder (List.filter _ _)))
      with (playersOf gameId (withPlayer gameId userId false (db w))).
    intros Hd5. apply wp_bind, wp_store. apply wp_ret.
    apply Hend; cbn; [done|congruence|right; congruence|congruence..].
Qed.

(** X8.  The second participant starts the game.  A user without a row in
    the game joins a registered two-player game whose roster holds one
    participant; the game row exists, the room-code gate is passed, there is
    room, and the database rejects nothing.  Then [joinGame] returns the game
    object it leaves registered: the roster is the first participant followed
    by the joiner, on the right, with score 0 and the paddle at 0.5; the
    status is [active], the start time and the last update are the time of
    the call; the database holds the joiner's row and the status [active];
    and the object was broadcast to the game's sockets. *)
Theorem joinGame_second_player_starts_game
    (gameId userId username : string) (roomCode : option string)
    (r1 r2 : Q) (now : Z) (w : World) (gs : GameState.t) (game : Db.GameRow)
    (p : GamePlayer.t) :
  dbFaults w = [] →
  games w !! gameId = Some gs →
  GameState.players gs = [p] → GameState.maxPlayers gs = 2 →
  Db.games (db w) !! gameId = Some game →
  Db.is_private game = false
    ∨ sameRoomCode roomCode (Db.room_code game) = true →
  Z.of_nat (length (rowsOf gameId (db w))) < Db.max_players game →
  existsb (Db.isRow gameId userId) (Db.game_players (db w)) = false →
  let r := joinGame gameId userId username roomCode r1 r2 now w in
  ∃ gs', r.1 = Returned gs' ∧ games r.2 !! gameId = Some gs'
    ∧ GameState.players gs'
      = [p; GamePlayer.mk userId username (1#2) 0 false right]
    ∧ GameState.status gs' = active
    ∧ GameState.gameStartTime gs' = Some now
    ∧ GameState.lastUpdate gs' = now
    ∧ Db.status <$> Db.games (db r.2) !! gameId = Some active
    ∧ existsb (Db.isRow gameId userId) (Db.game_players (db r.2)) = true
    ∧ published gameId gs' w r.2.
Proof.
  intros HF Hgs Hp Hmp Hgame Hgate Hroom Hin r.
  pose proof (joinGame_accepted gameId userId username roomCode r1 r2 now w
                game HF Hgame Hgate Hroom Hin) as H.
  unfold wp in H. fold r in H. cbn zeta in H.
  unfold entered in H. rewrite Hgs in H.
  assert (Hfull : complete (afterJoin userId username gs) = true).
  { unfold complete, afterJoin. cbn. rewrite Hp, Hmp. done. }
  unfold started in H. rewrite Hfull in H.
  destruct H as (Ho & Hg & Hpub & _ & _ & Hd).
  eexists. split; [exact Ho|]. split; [by rewrite Hg, lookup_insert_eq|].
  split; [cbn; by rewrite Hp|]. split; [done|]. split; [done|]. split; [done|].
  split; [|split; [|done]].
  - rewrite Hd. cbn. rewrite lookup_alter_eq, Hgame. done.
  - rewrite Hd. cbn. rewrite existsb_app. cbn.
    unfold Db.isRow at 2. cbn. rewrite !bool_decide_eq_true_2 by done.
    by rewrite orb_true_r.
Qed.

Lemma joinGame_second_player_starts_game_witness :
  let w := run [CreatePvPGame "a" "" (1#2) (1#2) 0 "u1" "alice" false 2]
               emptyWorld in
  ∃ gs', (joinGame "game-a" "u2" "bob" None (1#2) (1#2) 1 w).1 = Returned gs'
    ∧ GameState.players gs'
      = [GamePlayer.mk "u1" "alice" (1#2) 0 false left;
         GamePlayer.mk "u2" "bob" (1#2) 0 false right]
    ∧ GameState.status gs' = active.
Proof.
  intros w.
  destruct (joinGame_second_player_starts_game "game-a" "u2" "bob" None
              (1#2) (1#2) 1 w
              (GameState.mk "game-a"
                 [GamePlayer.mk "u1" "alice" (1#2) 0 false left]
                 (Physics.initializeBall (1#2) (1#2)) waiting false 2 None
                 false None 0 11 None)
              (Db.mkGame None "u1" false 2 waiting None false)
              (GamePlayer.mk "u1" "alice" (1#2) 0 false left))
    as (gs' & Ho & _ & Hp & Hs & _).
  - reflexivity.
  - vm_compute. reflexivity.
  - reflexivity.
  - reflexivity.
  - vm_compute. reflexivity.
  - by left.
  - vm_compute. reflexivity.
  - vm_compute. reflexivity.
  - exists gs'. split; [exact Ho|]. split; [exact Hp|exact Hs].
Defined.

Lemma userId_reconstruct gameId game players r1 r2 now :
  List.map GamePlayer.userId
           (GameState.players (reconstruct gameId game players r1 r2 now))
  = List.map (λ p, Db.gp_user_id p.1) players.
Proof.
  unfold reconstruct. cbn [GameState.players].
  apply list_eq. intros i.
  change (List.map ?f ?l) with (f <$> l).
  rewrite !list_lookup_fmap, list_lookup_imap.
  by destruct (players !! i).
Qed.

Lemma Sorted_userIds l :
  Sorted (λ a b, Db.userIdLe a b = true) l →
  Sorted (λ a b, String.leb a b = true) (List.map Db.gp_user_id l).
Proof.
  induction 1 as [|x l Hl IH Hx]; cbn [List.map]; [constructor|].
  constructor; [done|]. destruct Hx; cbn [List.map]; by constructor.
Qed.

(** X9.  A join into a game that is in the database but not registered in
    the service (it was removed, or never registered) rebuilds the game
    object from the rows of the database, which by then include the row of
    the joiner, and then appends the joiner as for any join.  The roster
    holds one entry per row the game had and one for the joiner, in
    ascending order of user id (the order in which the database returns the
    rows), followed by a second entry of the joiner. *)
Theorem joinGame_rebuilt_roster_holds_joiner_twice
    (gameId userId username : string) (roomCode : option string)
    (r1 r2 : Q) (now : Z) (w : World) (game : Db.GameRow) :
  dbFaults w = [] →
  games w !! gameId = None →
  Db.games (db w) !! gameId = Some game →
  Db.is_private game = false
    ∨ sameRoomCode roomCode (Db.room_code game) = true →
  Z.of_nat (length (rowsOf gameId (db w))) < Db.max_players game →
  existsb (Db.isRow gameId userId) (Db.game_players (db w)) = false →
  let r := joinGame gameId userId username roomCode r1 r2 now w in
  ∃ gs' rebuilt, r.1 = Returned gs' ∧ games r.2 !! gameId = Some gs'
    ∧ List.map GamePlayer.userId (GameState.players gs') = rebuilt ++ [userId]
    ∧ rebuilt ≡ₚ List.map Db.gp_user_id (rowsOf gameId (db w)) ++ [userId]
    ∧ Sorted (λ a b, String.leb a b = true) rebuilt.
Proof.
  intros HF Hgs Hgame Hgate Hroom Hin r.
  pose proof (joinGame_accepted gameId userId username roomCode r1 r2 now w
                game HF Hgame Hgate Hroom Hin) as H.
  unfold wp in H. fold r in H. cbn zeta in H.
  unfold entered in H. rewrite Hgs in H.
  destruct H as (Ho & Hg & _).
  exists (GameState.set_lastUpdate now
            (started now
               (afterJoin userId username
                  (reconstruct gameId game
                     (playersOf gameId (withPlayer gameId userId false (db w)))
                     r1 r2 now)))),
    (List.map Db.gp_user_id
       (Db.indexOrder (rowsOf gameId (db w)
                       ++ [Db.mkGamePlayer gameId userId false 0]))).
  split; [exact Ho|]. split; [by rewrite Hg, lookup_insert_eq|].
  assert (Hst : ∀ x, GameState.players (started now x) = GameState.players x).
  { intros x. unfold started. by destruct (complete x). }
  split; [|split].
  - cbn [GameState.players GameState.set_lastUpdate]. rewrite Hst.
    unfold afterJoin. cbn [GameState.players GameState.set_players].
    rewrite List.map_app, userId_reconstruct.
    unfold playersOf, withPlayer, rowsOf. cbn [Db.game_players Db.users].
    rewrite List.map_map. cbn [fst].
    rewrite List.filter_app. cbn [List.filter]. unfold Db.inGame at 2.
    cbn [Db.gp_game_id]. rewrite bool_decide_eq_true_2 by done. done.
  - rewrite (Permutation_map Db.gp_user_id
               (indexOrder_Permutation
                  (rowsOf gameId (db w)
                   ++ [Db.mkGamePlayer gameId userId false 0]))).
    by rewrite List.map_app.
  - apply Sorted_userIds, indexOrder_Sorted.
Qed.

Lemma joinGame_rebuilt_roster_holds_joiner_twice_witness :
  let w := run Scenarios.aiGameAbandoned emptyWorld in
  ∃ gs' rebuilt,
    (joinGame "ai-game-a" "a1" "amy" None (1#2) (1#2) 2 w).1 = Returned gs'
    ∧ List.map GamePlayer.userId (GameState.players gs')
      = rebuilt ++ ["a1"%string]
    ∧ rebuilt ≡ₚ ["ai"; "a1"]%string
    ∧ List.map GamePlayer.userId (GameState.players gs')
      = ["a1"; "ai"; "a1"]%string.
Proof.
  intros w.
  destruct (joinGame_rebuilt_roster_holds_joiner_twice "ai-game-a" "a1" "amy"
              None (1#2) (1#2) 2 w
              (Db.mkGame None "u1" false 2 finished (Some easy) true))
    as (gs' & rebuilt & Ho & _ & Hp & Hperm & _).
  - reflexivity.
  - vm_compute. reflexivity.
  - vm_compute. reflexivity.
  - by left.
  - vm_compute. reflexivity.
  - vm_compute. reflexivity.
  - exists gs', rebuilt. split; [exact Ho|]. split; [exact Hp|].
    split; [exact Hperm|].
    assert (E : (joinGame "ai-game-a" "a1" "amy" None (1#2) (1#2) 2 w).1
                = Returned
                    (default gs'
                       (games (joinGame "ai-game-a" "a1" "amy" None (1#2)
                                        (1#2) 2 w).2 !! "ai-game-a"%string)))
      by (vm_compute; reflexivity).
    rewrite Ho in E. injection E as ->. vm_compute. reflexivity.
Defined.

End JoinAccepted.

(** ** Leaving *)

Section Leaving.
Import GameService.

Lemma existsb_isRow_removed gameId userId l :
  existsb (Db.isRow gameId userId)
          (List.filter (λ r, negb (Db.isRow gameId userId r)) l) = false.
Proof.
  induction l as [|r l IH]; [done|]. cbn.
  destruct (Db.isRow gameId userId r) eqn:E; cbn; [done|]. by rewrite E.
Qed.

Lemma leaveGame_forgets_row gameId userId now w gs :
  dbFaults w = [] → games w !! gameId = Some gs →
  wp (leaveGame gameId userId now)
     (λ _ w', existsb (Db.isRow gameId userId) (Db.game_players (db w'))
              = false) w.
Proof.
  intros HF Hgs. unfold leaveGame.
  apply wp_bind, wp_getWorld. rewrite Hgs.
  apply wp_bind, wp_await_nofault; [done|]. intros w1 _ HF1.
  cbn [Db.removePlayerFromGame]. intros Hd1.
  assert (H1 : existsb (Db.isRow gameId userId) (Db.game_players (db w1))
               = false).
  { rewrite Hd1. apply existsb_isRow_removed. }
  apply wp_bind, wp_store.
  destruct (_ || _).
  - apply wp_bind, wp_store. apply wp_bind, wp_await_nofault; [done|].
    intros w2 _ HF2. cbn [Db.updateGameStatus]. intros Hd2.
    apply wp_bind, wp_update. apply wp_bind, wp_update. apply wp_update.
    cbn. by rewrite Hd2.
  - apply wp_bind, wp_store, wp_broadcast_published.
    intros w2 _ _ Hd2 _ _ _. by rewrite Hd2.
Qed.

Lemma findIndex_filtered_out userId (l : list GamePlayer.t) :
  findIndex (byUserId userId) (List.filter (λ p, negb (byUserId userId p)) l)
  = None.
Proof.
  induction l as [|p l IH]; [done|]. cbn [List.filter].
  destruct (byUserId userId p) eqn:E; cbn [negb]; [done|].
  by rewrite findIndex_cons, E, IH.
Qed.

(** X10.  [leaveGame] on a registered game, when the database rejects
    nothing, returns normally and the leaver is gone: no row of
    [game_players] is left for the leaver in this game; if the roster became
    empty or kept only the AI, the game is no longer registered, its socket
    set and its AI configuration are dropped, and a move on it is answered
    'Game not found'; otherwise the game stays registered with the same
    status, its roster is the old one without the entries of the leaver, and
    it was broadcast. *)
Theorem leaveGame_removes_the_leaver
    (gameId userId : string) (now : Z) (w : World) (gs : GameState.t) :
  dbFaults w = [] → games w !! gameId = Some gs →
  let r := leaveGame gameId userId now w in
  r.1 = Returned tt
  ∧ existsb (Db.isRow gameId userId) (Db.game_players (db r.2)) = false
  ∧ (deserted (afterLeave userId gs) = true →
     games r.2 !! gameId = None ∧ gameConnections r.2 !! gameId = None
     ∧ aiOpponents r.2 !! gameId = None
     ∧ ∀ u paddleY timestamp rAi rBall t,
         handlePlayerMove gameId u paddleY timestamp rAi rBall t r.2
         = (Thrown (Err "Game not found"), r.2))
  ∧ (deserted (afterLeave userId gs) = false →
     ∃ gs', games r.2 !! gameId = Some gs'
       ∧ GameState.players gs'
         = List.filter (λ p, negb (byUserId userId p)) (GameState.players gs)
       ∧ findIndex (byUserId userId) (GameState.players gs') = None
       ∧ GameState.status gs' = GameState.status gs
       ∧ published gameId gs' w r.2).
Proof.
  intros HF Hgs r.
  pose proof (leaveGame_forgets_row gameId userId now w gs HF Hgs) as Hrow.
  pose proof (leaveGame_spec gameId userId now w gs Hgs) as H.
  unfold wp in Hrow, H. fold r in Hrow, H. cbn zeta in H.
  destruct H as [(_ & Hne & _)|[(_ & _ & Hne & _)
                |[(Hdes & Ho & Hg & Hc & Ha & _)|(Hdes & Ho & Hg & Hpub)]]];
    [done|done| |].
  - split; [done|]. split; [done|]. split; [|congruence].
    intros _.
    assert (Hnone : games r.2 !! gameId = None)
      by (rewrite Hg; apply lookup_delete_eq).
    split; [done|]. split; [rewrite Hc; apply lookup_delete_eq|].
    split; [rewrite Ha; apply lookup_delete_eq|].
    intros. by apply handlePlayerMove_unregistered.
  - split; [done|]. split; [done|]. split; [congruence|].
    intros _. eexists. split; [by rewrite Hg, lookup_insert_eq|].
    split; [done|]. split; [apply findIndex_filtered_out|done].
Qed.

Lemma leaveGame_removes_the_leaver_witness :
  let w := run Scenarios.fullGame emptyWorld in
  ∃ gs', games (leaveGame "game-a" "u2" 2 w).2 !! "game-a"%string = Some gs'
    ∧ findIndex (byUserId "u2") (GameState.players gs') = None.
Proof.
  intros w.
  destruct (leaveGame_removes_the_leaver "game-a" "u2" 2 w
              (GameState.mk "game-a"
                 [GamePlayer.mk "u1" "alice" (1#2) 0 false left;
                  GamePlayer.mk "u2" "bob" (1#2) 0 false right]
                 (Physics.initializeBall (1#2) (1#2)) active false 2 None
                 false None 1 11 (Some 1%Z)))
    as (_ & _ & _ & Hstay).
  - reflexivity.
  - vm_compute. reflexivity.
  - destruct (Hstay eq_refl) as (gs' & Hg & _ & Hf & _).
    exists gs'. split; [exact Hg|exact Hf].
Defined.

End Leaving.

(** ** Creating games *)

Section Creating.
Import GameService.

(** X11.  [createAIGame] with an id that is new to the database (no game row
    and no player row under it), for a user whose id is not "ai", when the
    database rejects nothing: the call returns the game it registers, with
    the user on the left and the AI on the right (paddles at 0.5, scores 0),
    status [active], two seats, winning score 11 and the start time of the
    call; the configuration of the chosen tier is stored for the game, its
    socket set is empty, and the database holds the two rows (the user's and
    the AI's).  The status column of the game row is still [waiting]:
    [createAIGame] never writes the status. *)
Theorem createAIGame_registers_active_game
    (rid : string) (r1 r2 : Q) (now : Z) (userId username : string)
    (difficulty : Difficulty) (w : World) :
  let gameId := ("ai-game-" +:+ rid)%string in
  dbFaults w = [] →
  Db.games (db w) !! gameId = None → rowsOf gameId (db w) = [] →
  userId ≠ "ai"%string →
  let r := createAIGame rid r1 r2 now userId username difficulty w in
  let gs := GameState.mk gameId
              [GamePlayer.mk userId username (1#2) 0 false left;
               GamePlayer.mk "ai" "AI" (1#2) 0 true right]
              (Physics.initializeBall r1 r2) active false 2 None true
              (Some difficulty) now 11 (Some now) in
  r.1 = Returned gs
  ∧ games r.2 = <[gameId := gs]> (games w)
  ∧ aiOpponents r.2 !! gameId = Some (AI.createAIOpponent difficulty)
  ∧ gameConnections r.2 !! gameId = Some []
  ∧ rowsOf gameId (db r.2)
    = [Db.mkGamePlayer gameId userId false 0; Db.mkGamePlayer gameId "ai" true 0]
  ∧ Db.games (db r.2) !! gameId
    = Some (Db.mkGame None userId false 2 waiting (Some difficulty) true).
Proof.
  intros gameId HF Hrow Hrows Hai r gs.
  enough (wp (createAIGame rid r1 r2 now userId username difficulty)
             (λ o w', o = Returned gs
                ∧ games w' = <[gameId := gs]> (games w)
                ∧ aiOpponents w' !! gameId = Some (AI.createAIOpponent difficulty)
                ∧ gameConnections w' !! gameId = Some []
                ∧ rowsOf gameId (db w')
                  = [Db.mkGamePlayer gameId userId false 0;
                     Db.mkGamePlayer gameId "ai" true 0]
                ∧ Db.games (db w') !! gameId
                  = Some (Db.mkGame None userId false 2 waiting
                                    (Some difficulty) true)) w) as H by exact H.
  unfold createAIGame. fold gameId.
  apply wp_bind, wp_await_nofault; [done|]. intros w1 (Hg1 & _) HF1.
  unfold Db.createGame. rewrite Hrow. cbn [Db.roomCodeTaken]. intros Hd1.
  apply wp_bind, wp_await_nofault; [done|]. intros w2 (Hg2 & _) HF2.
  unfold Db.addPlayerToGame at 1.
  rewrite (rowsOf_nil_existsb gameId userId (db w1)); cycle 1.
  { rewrite <- Hrows. apply rowsOf_ext. by rewrite Hd1. }
  intros Hd2.
  assert (HP2 : Db.game_players (db w2)
                = Db.game_players (db w)
                  ++ [Db.mkGamePlayer gameId userId false 0]).
  { by rewrite Hd2, Hd1. }
  apply wp_bind, wp_await_nofault; [done|]. intros w3 (Hg3 & _) HF3.
  unfold Db.addPlayerToGame.
  assert (Hnoai : existsb (Db.isRow gameId "ai") (Db.game_players (db w2))
                  = false).
  { rewrite HP2, existsb_app. rewrite (rowsOf_nil_existsb gameId "ai" (db w))
      by done. cbn. unfold Db.isRow. cbn.
    rewrite (bool_decide_eq_false_2 (userId = "ai"%string)) by done.
    by rewrite andb_false_r. }
  rewrite Hnoai. intros Hd3.
  apply wp_bind, wp_update. apply wp_bind, wp_update.
  apply wp_bind, wp_update. apply wp_ret.
  cbn [games aiOpponents gameConnections db with_games with_aiOpponents
       with_gameConnections].
  split; [done|]. split; [by rewrite Hg3, Hg2, Hg1|].
  split; [apply lookup_insert_eq|]. split; [apply lookup_insert_eq|].
  split.
  - assert (HP3 : Db.game_players (db w3)
                  = Db.game_players (db w2)
                    ++ [Db.mkGamePlayer gameId "ai" true 0]) by (by rewrite Hd3).
    rewrite (rowsOf_added gameId _ _ _ _ _ HP3).
    rewrite (rowsOf_added gameId _ _ _ _ _ HP2), Hrows.
    by rewrite !bool_decide_eq_true_2.
  - rewrite Hd3. cbn. rewrite Hd2. cbn. rewrite Hd1. cbn.
    apply lookup_insert_eq.
Qed.

Lemma createAIGame_registers_active_game_witness :
  let r := createAIGame "a" (1#2) (1#2) 0 "u1" "alice" expert emptyWorld in
  ∃ gs, r.1 = Returned gs
    ∧ List.map GamePlayer.side (GameState.players gs) = [left; right]
    ∧ GameState.status gs = active ∧ GameState.winningScore gs = 11%Z.
Proof.
  intros r.
  destruct (createAIGame_registers_active_game "a" (1#2) (1#2) 0 "u1" "alice"
              expert emptyWorld) as (Ho & _).
  - reflexivity.
  - vm_compute. reflexivity.
  - reflexivity.
  - discriminate.
  - eexists. split; [exact Ho|]. repeat split.
Defined.

(** X12.  [createPvPGame] with an id that is new to the database and, for a
    private game, a room code that no game row carries, when the database
    rejects nothing: the call returns the game it registers, [waiting], with
    the creator alone on the left; the game carries a room code exactly when
    it is private; its socket set is empty; and the database holds the game
    row with status [waiting] and the creator's row.  The row stores 2 seats
    when 0 seats were asked for ([maxPlayers || 2]); the registered game keeps
    the number that was asked for. *)
Theorem createPvPGame_registers_waiting_game
    (rid rcode : string) (r1 r2 : Q) (now : Z) (createdBy username : string)
    (isPrivate : bool) (maxPlayers : Z) (w : World) :
  let gameId := ("game-" +:+ rid)%string in
  dbFaults w = [] →
  Db.games (db w) !! gameId = None → rowsOf gameId (db w) = [] →
  Db.roomCodeTaken (if isPrivate then Some rcode else None) (db w) = false →
  rcode ≠ ""%string →
  let r := createPvPGame rid rcode r1 r2 now createdBy username isPrivate
                         maxPlayers w in
  let gs := GameState.mk gameId
              [GamePlayer.mk createdBy username (1#2) 0 false left]
              (Physics.initializeBall r1 r2) waiting isPrivate maxPlayers
              (if isPrivate then Some rcode else None) false None now 11
              None in
  r.1 = Returned gs
  ∧ games r.2 = <[gameId := gs]> (games w)
  ∧ gameConnections r.2 !! gameId = Some []
  ∧ rowsOf gameId (db r.2) = [Db.mkGamePlayer gameId createdBy false 0]
  ∧ Db.games (db r.2) !! gameId
    = Some (Db.mkGame (if isPrivate then Some rcode else None) createdBy
                      isPrivate (if (maxPlayers =? 0)%Z then 2 else maxPlayers)
                      waiting None false).
Proof.
  intros gameId HF Hrow Hrows Hcode Hrc r gs.
  enough (wp (createPvPGame rid rcode r1 r2 now createdBy username isPrivate
                            maxPlayers)
             (λ o w', o = Returned gs
                ∧ games w' = <[gameId := gs]> (games w)
                ∧ gameConnections w' !! gameId = Some []
                ∧ rowsOf gameId (db w')
                  = [Db.mkGamePlayer gameId createdBy false 0]
                ∧ Db.games (db w') !! gameId
                  = Some (Db.mkGame (if isPrivate then Some rcode else None)
                            createdBy isPrivate
                            (if (maxPlayers =? 0)%Z then 2%Z else maxPlayers)
                            waiting None false)) w) as H by exact H.
  unfold createPvPGame. fold gameId.
  apply wp_bind, wp_await_nofault; [done|]. intros w1 (Hg1 & _) HF1.
  unfold Db.createGame. cbv zeta. rewrite Hrow.
  match goal with
  | |- context [Db.roomCodeTaken ?c (db w)] =>
      replace c with (if isPrivate then Some rcode else None)
        by (destruct isPrivate; [|done]; by destruct rcode)
  end.
  rewrite Hcode. intros Hd1.
  apply wp_bind, wp_await_nofault; [done|]. intros w2 (Hg2 & _) HF2.
  unfold Db.addPlayerToGame.
  rewrite (rowsOf_nil_existsb gameId createdBy (db w1)); cycle 1.
  { rewrite <- Hrows. apply rowsOf_ext. by rewrite Hd1. }
  intros Hd2.
  apply wp_bind, wp_update. apply wp_bind, wp_update. apply wp_ret.
  cbn [games gameConnections db with_games with_gameConnections].
  split; [done|]. split; [by rewrite Hg2, Hg1|].
  split; [apply lookup_insert_eq|]. split.
  - assert (HP2 : Db.game_players (db w2)
                  = Db.game_players (db w)
                    ++ [Db.mkGamePlayer gameId createdBy false 0]).
    { by rewrite Hd2, Hd1. }
    rewrite (rowsOf_added gameId _ _ _ _ _ HP2), Hrows.
    by rewrite bool_decide_eq_true_2.
  - rewrite Hd2. cbn. rewrite Hd1. cbn. apply lookup_insert_eq.
Qed.

Lemma createPvPGame_registers_waiting_game_witness :
  let r := createPvPGame "p" "ROOM01" (1#2) (1#2) 0 "u1" "alice" true 2
                         emptyWorld in
  ∃ gs, r.1 = Returned gs ∧ GameState.roomCode gs = Some "ROOM01"%string
        ∧ GameState.status gs = waiting.
Proof.
  intros r.
  destruct (createPvPGame_registers_waiting_game "p" "ROOM01" (1#2) (1#2) 0
              "u1" "alice" true 2 emptyWorld) as (Ho & _).
  - reflexivity.
  - vm_compute. reflexivity.
  - reflexivity.
  - vm_compute. reflexivity.
  - discriminate.
  - eexists. split; [exact Ho|]. repeat split.
Defined.

End Creating.

(** ** Looking a game up *)

Section Looking.
Import GameService.

(** X13.  [getGameState] when the database rejects nothing: the call returns;
    a registered game is returned as it is and nothing changes; an id that is
    neither registered nor in the database gives [null], and only then; a
    game that is returned is registered under the id afterwards, so asking
    again (at any later time, with any other random draws) returns the same
    value and changes nothing more; the database, the socket sets and the
    messages sent are never touched. *)
Theorem getGameState_registers_once
    (gameId : string) (r1 r2 : Q) (now : Z) (r1' r2' : Q) (now' : Z)
    (w : World) :
  dbFaults w = [] →
  let a := getGameState gameId r1 r2 now w in
  let b := getGameState gameId r1' r2' now' a.2 in
  ∃ x, a.1 = Returned x ∧ b = (Returned x, a.2)
    ∧ (x = None ↔ games w !! gameId = None ∧ Db.games (db w) !! gameId = None)
    ∧ (∀ gs, x = Some gs → games a.2 !! gameId = Some gs)
    ∧ (∀ gs, games w !! gameId = Some gs → x = Some gs ∧ a.2 = w)
    ∧ db a.2 = db w ∧ gameConnections a.2 = gameConnections w
    ∧ wire a.2 = wire w.
Proof.
  destruct w as [G C A D F B W]. cbn [dbFaults]. intros ->.
  unfold getGameState, mbind, Async_bind, bind, getWorld, mret, Async_ret,
    ret, await, store, update, Db.findGameById, Db.getGamePlayers.
  cbn [games db dbFaults with_dbFaults with_db with_games tail fst snd
       gameConnections wire].
  destruct (G !! gameId) as [gs|] eqn:HG.
  - cbn [games fst snd]. rewrite HG. cbn [fst snd].
    exists (Some gs). repeat split;
      first [done | by intros [??] | by intros ? [= <-]; rewrite ?lookup_insert_eq
            | by intros ? [= ->] ].
  - cbn [games fst snd db dbFaults with_dbFaults with_db with_games tail].
    destruct (Db.games D !! gameId) as [row|] eqn:HD.
    + cbn [games fst snd db dbFaults with_dbFaults with_db with_games tail].
      rewrite lookup_insert_eq. cbn [fst snd].
      eexists. split; [reflexivity|]. split; [reflexivity|].
      repeat split;
      first [done | by intros [??] | by intros ? [= <-]; rewrite ?lookup_insert_eq
            | by intros ? [= ->] ].
    + cbn [games fst snd db dbFaults with_dbFaults with_db with_games tail].
      rewrite HG. cbn [db dbFaults with_dbFaults with_db tail fst snd].
      rewrite HD. cbn [fst snd].
      exists None. repeat split; done.
Qed.

Lemma getGameState_registers_once_witness :
  let a := getGameState "ai-game-a" (1#2) (1#2) 5
                        (run Scenarios.aiOnce emptyWorld) in
  let b := getGameState "ai-game-a" (1#3) (1#4) 9 a.2 in
  ∃ x, a.1 = Returned x ∧ b = (Returned x, a.2).
Proof.
  intros a b.
  destruct (getGameState_registers_once "ai-game-a" (1#2) (1#2) 5 (1#3) (1#4) 9
              (run Scenarios.aiOnce emptyWorld)) as (x & H1 & H2 & _).
  - vm_compute. reflexivity.
  - exists x. split; [exact H1|exact H2].
Defined.

End Looking.

(** ** Socket sets *)

Section Sockets.
Import GameService.

Lemma elem_of_setAdd c c' s : c' ∈ setAdd c s ↔ c' = c ∨ c' ∈ s.
Proof.
  unfold setAdd. case_bool_decide as Hin.
  - split; [by right|]. by intros [->|].
  - rewrite elem_of_app, list_elem_of_singleton. tauto.
Qed.

Lemma elem_of_setDelete c c' s : c' ∈ setDelete c s ↔ c' ≠ c ∧ c' ∈ s.
Proof.
  unfold setDelete. rewrite !list_elem_of_In, filter_In.
  rewrite negb_true_iff, bool_decide_eq_false. tauto.
Qed.

Lemma NoDup_setAdd c s : NoDup s → NoDup (setAdd c s).
Proof.
  intros Hs. unfold setAdd. case_bool_decide as Hin; [done|].
  apply NoDup_app. split; [done|]. split; [|apply NoDup_singleton].
  intros x Hx ->%list_elem_of_singleton. done.
Qed.

(** X14.  [addConnection] then [removeConnection] of one socket on one game
    id.  After [addConnection] the id has a socket set, which holds the socket
    and whatever it held before (nothing, if the id had no set), without
    repetition; adding the socket again changes nothing.  After
    [removeConnection] the socket is gone, the other sockets stay, and the set
    is still there (empty, at worst): a set created by [addConnection] is not
    dropped again.  The sets of other ids and the games are never touched,
    and nothing is sent. *)
Theorem connection_set_add_then_remove
    (gameId : string) (connection : Connection) (w : World) :
  let before := default [] (gameConnections w !! gameId) in
  let w1 := (addConnection gameId connection w).2 in
  let w2 := (removeConnection gameId connection w1).2 in
  (∃ s, gameConnections w1 !! gameId = Some s
        ∧ (∀ c, c ∈ s ↔ c = connection ∨ c ∈ before)
        ∧ (NoDup before → NoDup s))
  ∧ (addConnection gameId connection w1).2 = w1
  ∧ (∃ s, gameConnections w2 !! gameId = Some s
          ∧ ∀ c, c ∈ s ↔ c ≠ connection ∧ c ∈ before)
  ∧ (∀ g, g ≠ gameId → gameConnections w2 !! g = gameConnections w !! g)
  ∧ games w2 = games w ∧ db w2 = db w ∧ wire w2 = wire w.
Proof.
  intros before w1 w2.
  assert (H1 : gameConnections w1 !! gameId = Some (setAdd connection before)).
  { subst w1 before. unfold addConnection, update. cbn [snd].
    destruct (gameConnections w !! gameId) as [s|] eqn:E;
      cbn [gameConnections with_gameConnections default].
    - by rewrite lookup_alter_eq, E.
    - by rewrite lookup_alter_eq, lookup_insert_eq. }
  split; [|split; [|split; [|split]]].
  - eexists. split; [exact H1|]. split.
    + intros c. apply elem_of_setAdd.
    + apply NoDup_setAdd.
  - unfold addConnection at 1. unfold update. cbn [snd]. rewrite H1.
    destruct w1 as [G C A D F B W]. unfold with_gameConnections.
    cbn [gameConnections games aiOpponents db dbFaults brokenSockets wire] in *.
    f_equal. apply map_eq. intros g. destruct (decide (g = gameId)) as [->|Hg].
    + rewrite lookup_alter_eq, H1. cbn. f_equal. unfold setAdd at 1.
      rewrite bool_decide_eq_true_2; [done|]. apply elem_of_setAdd. by left.
    + by rewrite lookup_alter_ne.
  - exists (setDelete connection (setAdd connection before)). split.
    + subst w2. unfold removeConnection, update.
      cbn [snd gameConnections with_gameConnections].
      by rewrite lookup_alter_eq, H1.
    + intros c. rewrite elem_of_setDelete, elem_of_setAdd. tauto.
  - intros g Hg. subst w2 w1. unfold removeConnection, addConnection, update.
    cbn [snd gameConnections with_gameConnections].
    rewrite lookup_alter_ne by done.
    destruct (gameConnections w !! gameId);
      cbn [gameConnections with_gameConnections];
      rewrite lookup_alter_ne by done; [done|].
    by rewrite lookup_insert_ne.
  - subst w2 w1. unfold removeConnection, addConnection, update. cbn [snd].
    by destruct (gameConnections w !! gameId).
Qed.

End Sockets.

(** ** Score messages *)

Section ScoreMessages.
Import GameService.

(** X15.  [updateScore] for a user who is not in the roster of a registered
    game: the call does not reject the message (unlike [handlePlayerMove],
    which throws "Player not in game").  It returns, changes no score, makes
    no database call (the fault schedule is not consumed, so this holds
    whatever the database would do), stamps the game with the time of the
    call and broadcasts it. *)
Theorem updateScore_of_stranger_only_stamps
    (gameId userId : string) (score now : Z) (w : World) (gs : GameState.t) :
  games w !! gameId = Some gs →
  findIndex (byUserId userId) (GameState.players gs) = None →
  let r := updateScore gameId userId score now w in
  let gs' := GameState.set_lastUpdate now gs in
  r.1 = Returned tt
  ∧ games r.2 = <[gameId := gs']> (games w)
  ∧ GameState.players gs' = GameState.players gs
  ∧ db r.2 = db w ∧ dbFaults r.2 = dbFaults w
  ∧ published gameId gs' w r.2.
Proof.
  intros Hgs Hno r gs'.
  enough (wp (updateScore gameId userId score now)
             (λ o w', o = Returned tt
                ∧ games w' = <[gameId := gs']> (games w)
                ∧ GameState.players gs' = GameState.players gs
                ∧ db w' = db w ∧ dbFaults w' = dbFaults w
                ∧ published gameId gs' w w') w) as H by exact H.
  unfold updateScore. apply wp_bind, wp_getWorld. rewrite Hgs, Hno.
  apply wp_bind, wp_ret. apply wp_bind, wp_store.
  apply wp_broadcast_published. intros w' Hg _ Hd Hf Hb Hpub.
  cbn [games db dbFaults with_games] in Hg, Hd, Hf.
  repeat split; done.
Qed.

Lemma updateScore_of_stranger_only_stamps_witness :
  let w := run Scenarios.fullGame emptyWorld in
  let r := updateScore "game-a" "u9" 11 7 w in
  r.1 = Returned tt ∧ db r.2 = db w.
Proof.
  intros w r.
  destruct (updateScore_of_stranger_only_stamps "game-a" "u9" 11 7 w
              (default (Scenarios.duel (Ball.mk 0 0 0 0 0))
                       (games w !! "game-a"%string)))
    as (H1 & _ & _ & H2 & _).
  - vm_compute. reflexivity.
  - vm_compute. reflexivity.
  - split; [exact H1|exact H2].
Defined.

(** X16.  [updateScore] for a user of the roster, when the database does not
    reject: the call returns; in memory the first roster entry of the user
    carries the given score, whatever it is (lower than before, negative, or
    the winning score), every other entry and the status are as before; in
    the database every row of this user in this game carries the same score
    and every other row is as before. *)
Theorem updateScore_writes_score_through
    (gameId userId : string) (score now : Z) (w : World) (gs : GameState.t)
    (player : nat) :
  nextCallRuns w →
  games w !! gameId = Some gs →
  findIndex (byUserId userId) (GameState.players gs) = Some player →
  let r := updateScore gameId userId score now w in
  ∃ gs', r.1 = Returned tt ∧ games r.2 !! gameId = Some gs'
    ∧ scoreAt (GameState.players gs') (Some player) = Some score
    ∧ (∀ i, i ≠ player →
         GameState.players gs' !! i = GameState.players gs !! i)
    ∧ GameState.status gs' = GameState.status gs
    ∧ length (Db.game_players (db r.2)) = length (Db.game_players (db w))
    ∧ ∀ i row, Db.game_players (db w) !! i = Some row →
        Db.game_players (db r.2) !! i
        = Some (if Db.isRow gameId userId row
                then Db.mkGamePlayer gameId userId (Db.gp_is_ai row) score
                else row).
Proof.
  intros HF Hgs Hi r.
  enough (wp (updateScore gameId userId score now)
             (λ o w', ∃ gs', o = Returned tt ∧ games w' !! gameId = Some gs'
                ∧ scoreAt (GameState.players gs') (Some player) = Some score
                ∧ (∀ i, i ≠ player →
                     GameState.players gs' !! i = GameState.players gs !! i)
                ∧ GameState.status gs' = GameState.status gs
                ∧ length (Db.game_players (db w'))
                  = length (Db.game_players (db w))
                ∧ ∀ i row, Db.game_players (db w) !! i = Some row →
                    Db.game_players (db w') !! i
                    = Some (if Db.isRow gameId userId row
                            then Db.mkGamePlayer gameId userId
                                                 (Db.gp_is_ai row) score
                            else row)) w) as H by exact H.
  unfold updateScore. apply wp_bind, wp_getWorld. rewrite Hgs, Hi.
  apply wp_bind, wp_bind, wp_store, wp_bind.
  eapply wp_await_run; [exact HF|reflexivity|].
  apply wp_ret. apply wp_bind, wp_store.
  apply wp_broadcast_published. intros w' Hg _ Hd _ _ _.
  cbn [games db with_games with_db with_dbFaults] in Hg, Hd.
  destruct (findIndex_Some _ _ _ Hi) as (p & Hp & _).
  eexists. split; [done|]. split; [rewrite Hg; apply lookup_insert_eq|].
  cbn [GameState.players GameState.status GameState.set_lastUpdate
       GameState.set_players].
  split; [|split; [|split; [|split]]].
  - unfold scoreAt. cbn [mbind option_bind].
    rewrite list_lookup_alter_eq, Hp. reflexivity.
  - intros i Hne. by rewrite list_lookup_alter_ne.
  - done.
  - rewrite Hd. cbn [Db.game_players]. by rewrite length_map.
  - intros i row Hrow. rewrite Hd. cbn [Db.game_players].
    rewrite list_lookup_fmap, Hrow. cbn. f_equal.
    unfold Db.isRow. destruct (decide (Db.gp_game_id row = gameId)) as [<-|];
      destruct (decide (Db.gp_user_id row = userId)) as [<-|];
      rewrite ?bool_decide_eq_true_2, ?bool_decide_eq_false_2 by done; done.
Qed.

Lemma updateScore_writes_score_through_witness :
  let w := run Scenarios.fullGame emptyWorld in
  let r := updateScore "game-a" "u1" (-3) 7 w in
  ∃ gs', r.1 = Returned tt ∧ games r.2 !! "game-a"%string = Some gs'
         ∧ scoreAt (GameState.players gs') (Some 0%nat) = Some (-3)%Z.
Proof.
  intros w r.
  destruct (updateScore_writes_score_through "game-a" "u1" (-3) 7 w
              (default (Scenarios.duel (Ball.mk 0 0 0 0 0))
                       (games w !! "game-a"%string)) 0)
    as (gs' & H1 & H2 & H3 & _).
  - vm_compute. reflexivity.
  - vm_compute. reflexivity.
  - vm_compute. reflexivity.
  - exists gs'. split; [exact H1|]. split; [exact H2|exact H3].
Defined.

End ScoreMessages.

(** ** [AuthService] *)

Section Auth.
Import AuthService.

Lemma dotStarThen_existsb cls s : dotStarThen cls s = true → existsb cls s = true.
Proof.
  induction s as [|c s IH]; cbn; [done|].
  destruct (cls c); [done|]. cbn. intros [_ H]%andb_true_iff. auto.
Qed.

(** The look-ahead finds a code unit of the class wherever it is: the line
    terminators that [.] refuses do not matter, since the look-ahead may
    start behind them. *)
Lemma lookahead_existsb cls s : lookahead cls s = existsb cls s.
Proof.
  induction s as [|c s IH]; [done|].
  cbn [lookahead dotStarThen existsb]. rewrite IH.
  destruct (cls c); [done|]. cbn [orb].
  destruct (negb (lineTerminator c)); cbn [andb orb]; [|done].
  destruct (dotStarThen cls s) eqn:E; [|done].
  by rewrite (dotStarThen_existsb _ _ E).
Qed.

(** X17.  [extractTokenFromHeader] returns a token exactly for the headers
    that are ['Bearer '] followed by the token, and the token is the rest of
    the header, code unit by code unit: every other header (a missing one,
    the empty one, another scheme, [bearer] in lower case) gives [null], and
    ['Bearer '] alone gives the empty token, not [null]. *)
Theorem extractTokenFromHeader_round_trip
    (authHeader : option Text) (token : Text) :
  extractTokenFromHeader authHeader = Some token
  ↔ authHeader = Some (bearer ++ token).
Proof.
  split.
  - destruct authHeader as [[|c h]|]; cbn [extractTokenFromHeader]; try done.
    unfold startsWith. case_bool_decide as Hp; cbn [negb]; [|done].
    intros [= <-]. f_equal. unfold substring.
    rewrite <- (take_drop 7 (c :: h)) at 1. by rewrite <- Hp.
  - intros ->. reflexivity.
Qed.

(** X18.  [isValidPassword] accepts a password exactly when it has at least
    8 code units and holds a lower-case letter, an upper-case letter and a
    digit of ASCII, anywhere, line breaks included; it gives a message
    exactly when it refuses. *)
Theorem isValidPassword_accepts_iff (password : Text) :
  (valid (isValidPassword password) = true
   ↔ (8 ≤ length password)%nat
     ∧ (∃ c, c ∈ password ∧ 97 ≤ c ≤ 122)%N
     ∧ (∃ c, c ∈ password ∧ 65 ≤ c ≤ 90)%N
     ∧ (∃ c, c ∈ password ∧ 48 ≤ c ≤ 57)%N)
  ∧ (message (isValidPassword password) = None
     ↔ valid (isValidPassword password) = true).
Proof.
  assert (Hcls : ∀ lo hi s,
            existsb (λ c, (lo <=? c) && (c <=? hi))%N s = true
            ↔ ∃ c, c ∈ s ∧ (lo ≤ c ≤ hi)%N).
  { intros lo hi s. rewrite existsb_exists. split.
    - intros (c & Hin & [H1 H2]%andb_true_iff). exists c.
      rewrite list_elem_of_In. split; [done|].
      apply N.leb_le in H1, H2. lia.
    - intros (c & Hin & H). exists c. rewrite <- list_elem_of_In.
      split; [done|]. apply andb_true_iff. split; apply N.leb_le; lia. }
  unfold isValidPassword. rewrite !lookahead_existsb.
  rewrite <- !Hcls. fold lower upper digit.
  destruct (Nat.ltb_spec (length password) 8) as [Hl|Hl]; cbn [valid message].
  { split; [|done]. split; [done|]. intros [? _]. lia. }
  destruct (existsb lower password); cbn [negb valid message];
    [|split; [split; [done|by intros (_&?&_)]|done]].
  destruct (existsb upper password); cbn [negb valid message];
    [|split; [split; [done|by intros (_&_&?&_)]|done]].
  destruct (existsb digit password); cbn [negb valid message];
    [|split; [split; [done|by intros (_&_&_&?)]|done]].
  done.
Qed.

End Auth.

(** ** The move log *)

Section MoveLog.
Import GameService.




End MoveLog.
